(** * Laundry pickup requests: pricing, validation, submission, admin tools

    A shallow embedding of the TypeScript sources
    ([lib/validation.ts], [lib/supabase.ts], [pages/CustomerRequest.tsx],
    [components/ServiceSelector.tsx], [components/admin/RequestManagement.tsx])
    together with the properties their specification states about them.

    JavaScript numbers are IEEE-754 binary64 values and are represented by
    the primitive [float] type; strings are sequences of code units, here
    restricted to the range U+0000..U+00FF; objects used as dictionaries are
    finite maps of their own properties, read and written through
    [Object.prototype] where a key can be the name of one of its members. *)

From Stdlib Require Import ZArith Lia Bool List Ascii String.
From Stdlib Require Import Floats.
From stdpp Require Import base option list strings gmap.

Import ListNotations.
Local Open Scope string_scope.
Local Open Scope Z_scope.

(** * The JavaScript runtime operations the sources rely on *)

Module JS.

(** ** Characters and strings *)

Definition code (c : ascii) : Z := Z.of_nat (nat_of_ascii c).

Definition chr (n : Z) : ascii := ascii_of_nat (Z.to_nat n).

(** The double quote character, U+0022. *)
Definition dquote : ascii := "034"%char.

(** [WhiteSpace] and [LineTerminator] code units below U+0100: TAB, LF, VT,
    FF, CR, SP and NBSP.  This is the class [\s] of regular expressions and
    the set removed by [String.prototype.trim]. *)
Definition is_space (c : ascii) : bool :=
  let n := code c in
  ((9 <=? n) && (n <=? 13)) || (n =? 32) || (n =? 160).

(** The class [\d]. *)
Definition is_digit (c : ascii) : bool :=
  let n := code c in (48 <=? n) && (n <=? 57).

Definition is_upper (c : ascii) : bool :=
  let n := code c in (65 <=? n) && (n <=? 90).

Definition is_lower (c : ascii) : bool :=
  let n := code c in (97 <=? n) && (n <=? 122).

Definition is_alpha (c : ascii) : bool := is_upper c || is_lower c.

Definition chars (s : string) : list ascii := list_ascii_of_string s.

Definition str (l : list ascii) : string := string_of_list_ascii l.

Fixpoint trim_start (l : list ascii) : list ascii :=
  match l with
  | c :: l' => if is_space c then trim_start l' else l
  | [] => []
  end.

Definition trim_end (l : list ascii) : list ascii :=
  rev (trim_start (rev l)).

(** [String.prototype.trim]. *)
Definition trim (s : string) : string :=
  str (trim_end (trim_start (chars s))).

(** [String.prototype.toLowerCase] on code units below U+0100: the upper-case
    letters are A-Z, U+00C0..U+00D6 and U+00D8..U+00DE, each 32 below its
    lower-case form. *)
Definition lower_char (c : ascii) : ascii :=
  let n := code c in
  if ((65 <=? n) && (n <=? 90))
     || ((192 <=? n) && (n <=? 214))
     || ((216 <=? n) && (n <=? 222))
  then chr (n + 32) else c.

Definition toLowerCase (s : string) : string :=
  str (map lower_char (chars s)).

(** [s.replace(/[...]/g, '')] for a character class: every code unit of the
    class is dropped. *)
Definition remove_all (cls : ascii -> bool) (s : string) : string :=
  str (List.filter (fun c => negb (cls c)) (chars s)).

(** ** Numbers *)

Local Open Scope float_scope.

(** [ToBoolean] on a number: [+0], [-0] and [NaN] are falsy. *)
Definition truthy (x : float) : bool := negb (is_zero x || is_nan x).

(** [Math.max] on two arguments. *)
Definition Math_max (x y : float) : float :=
  if is_nan x || is_nan y then nan
  else if x <? y then y
  else if y <? x then x
  else if is_zero x && get_sign x then y
  else x.

(** [isNaN] on a number. *)
Definition isNaN (x : float) : bool := is_nan x.

(** The rounding of the rational [m * 10^e10] ([m] a natural number) to the
    nearest binary64 value, ties to even. *)
Definition round_decimal (neg : bool) (m : Z) (e10 : Z) : float :=
  let sf :=
    match m with
    | Zpos p =>
        if (0 <=? e10)%Z
        then binary_normalize prec emax (Zpos p * 10 ^ e10)%Z 0%Z false
        else SFdiv prec emax (S754_finite false p 0%Z)
                   (S754_finite false (Z.to_pos (10 ^ (- e10))%Z) 0%Z)
    | _ => S754_zero false
    end in
  SF2Prim (if neg then SFopp sf else sf).

Definition digit_val (c : ascii) : Z := (code c - 48)%Z.

Definition digits_val (l : list ascii) : Z :=
  fold_left (fun acc c => (10 * acc + digit_val c)%Z) l 0%Z.

Fixpoint span_digits (l : list ascii) : list ascii * list ascii :=
  match l with
  | c :: l' =>
      if is_digit c
      then let '(ds, rest) := span_digits l' in (c :: ds, rest)
      else ([], l)
  | [] => ([], [])
  end.

(** [ExponentPart] of a decimal literal, already past the mantissa: either
    nothing, or [e]/[E], an optional sign and at least one digit, up to the
    end of the input. *)
Definition parse_exponent (l : list ascii) : option Z :=
  match l with
  | [] => Some 0%Z
  | c :: l' =>
      if (code c =? 101)%Z || (code c =? 69)%Z then
        let '(neg, l'') :=
          match l' with
          | s :: r =>
              if (code s =? 45)%Z then (true, r)
              else if (code s =? 43)%Z then (false, r)
              else (false, l')
          | [] => (false, l')
          end in
        match span_digits l'' with
        | (d :: ds, []) =>
            let e := digits_val (d :: ds) in
            Some (if neg then (- e)%Z else e)
        | _ => None
        end
      else None
  end.

(** [StrUnsignedDecimalLiteral]: [Infinity], [digits . digits? exp?],
    [. digits exp?] or [digits exp?]. *)
Definition parse_unsigned_decimal (neg : bool) (l : list ascii) : float :=
  if String.eqb (str l) "Infinity"
  then (if neg then neg_infinity else infinity)
  else
    let '(ip, rest) := span_digits l in
    let '(fp, rest') :=
      match rest with
      | c :: r => if (code c =? 46)%Z then span_digits r else ([], rest)
      | [] => ([], rest)
      end in
    match ip, fp with
    | [], [] => nan
    | _, _ =>
        match parse_exponent rest' with
        | Some e =>
            round_decimal neg (digits_val (ip ++ fp))
                          (e - Z.of_nat (length fp))%Z
        | None => nan
        end
    end.

Definition hex_val (c : ascii) : option Z :=
  let n := code c in
  if is_digit c then Some (n - 48)%Z
  else if (97 <=? n)%Z && (n <=? 102)%Z then Some (n - 87)%Z
  else if (65 <=? n)%Z && (n <=? 70)%Z then Some (n - 55)%Z
  else None.

Fixpoint radix_val (radix : Z) (acc : Z) (l : list ascii) : option Z :=
  match l with
  | [] => Some acc
  | c :: l' =>
      match hex_val c with
      | Some d => if (d <? radix)%Z
                  then radix_val radix (radix * acc + d)%Z l'
                  else None
      | None => None
      end
  end.

(** [NonDecimalIntegerLiteral]: [0x], [0o] or [0b] (either case) followed by
    at least one digit of the radix. *)
Definition parse_non_decimal (l : list ascii) : option float :=
  match l with
  | z :: p :: d :: ds =>
      if (code z =? 48)%Z then
        let n := code (lower_char p) in
        let radix := if (n =? 120)%Z then 16%Z
                     else if (n =? 111)%Z then 8%Z
                     else if (n =? 98)%Z then 2%Z else 0%Z in
        if (radix =? 0)%Z then None
        else match radix_val radix 0%Z (d :: ds) with
             | Some v => Some (round_decimal false v 0%Z)
             | None => Some nan
             end
      else None
  | _ => None
  end.

(** [Number(s)] for a string [s] (the abstract operation [StringToNumber]). *)
Definition Number_of_string (s : string) : float :=
  let l := trim_end (trim_start (chars s)) in
  match l with
  | [] => zero
  | c :: l' =>
      match parse_non_decimal l with
      | Some v => v
      | None =>
          if (code c =? 45)%Z then parse_unsigned_decimal true l'
          else if (code c =? 43)%Z then parse_unsigned_decimal false l'
          else parse_unsigned_decimal false l
      end
  end.

(** ** Regular expressions

    The patterns of the sources are anchored at both ends and use character
    classes, concatenation, options and bounded or unbounded repetition only,
    so [RegExp.prototype.test] is membership of the whole string in a regular
    language; it is decided with derivatives. *)

Inductive regex : Type :=
  | Never
  | Empty
  | Class (p : ascii -> bool)
  | Cat (r1 r2 : regex)
  | Or (r1 r2 : regex)
  | Many (r : regex).

Definition Opt (r : regex) : regex := Or Empty r.

Definition Plus (r : regex) : regex := Cat r (Many r).

Fixpoint Times (n : nat) (r : regex) : regex :=
  match n with
  | O => Empty
  | S n' => Cat r (Times n' r)
  end.

(** [r{0,n}]. *)
Fixpoint UpTo (n : nat) (r : regex) : regex :=
  match n with
  | O => Empty
  | S n' => Opt (Cat r (UpTo n' r))
  end.

Definition Char (c : ascii) : regex := Class (Ascii.eqb c).

Fixpoint nullable (r : regex) : bool :=
  match r with
  | Never => false
  | Empty => true
  | Class _ => false
  | Cat r1 r2 => nullable r1 && nullable r2
  | Or r1 r2 => nullable r1 || nullable r2
  | Many _ => true
  end.

Fixpoint deriv (c : ascii) (r : regex) : regex :=
  match r with
  | Never => Never
  | Empty => Never
  | Class p => if p c then Empty else Never
  | Cat r1 r2 =>
      if nullable r1
      then Or (Cat (deriv c r1) r2) (deriv c r2)
      else Cat (deriv c r1) r2
  | Or r1 r2 => Or (deriv c r1) (deriv c r2)
  | Many r1 => Cat (deriv c r1) (Many r1)
  end.

(** [/^r$/.test(s)]. *)
Definition test (r : regex) (s : string) : bool :=
  nullable (fold_left (fun r c => deriv c r) (chars s) r).

Definition one_of (s : string) (c : ascii) : bool :=
  existsb (Ascii.eqb c) (chars s).

(** ** Dates

    A time value is a number of milliseconds since the epoch, or [None] for
    the [NaN] of an invalid date.  The offset of the host's local time from
    UTC (in milliseconds, positive east of Greenwich) is that of its time
    zone, which with daylight saving depends on the date. *)

Definition msPerDay : Z := 86400000.

(** Day number of a proleptic Gregorian date, month in 1..12; day 0 is
    1970-01-01. *)
Definition days_from_civil (y m d : Z) : Z :=
  let y' := if (m <=? 2)%Z then (y - 1)%Z else y in
  let era := (y' / 400)%Z in
  let yoe := (y' - era * 400)%Z in
  let mp := if (m <=? 2)%Z then (m + 9)%Z else (m - 3)%Z in
  let doy := ((153 * mp + 2) / 5 + d - 1)%Z in
  let doe := (yoe * 365 + yoe / 4 - yoe / 100 + doy)%Z in
  (era * 146097 + doe - 719468)%Z.

(** Year, month (1..12) and day of the month of a day number. *)
Definition civil_from_days (z : Z) : Z * Z * Z :=
  let z' := (z + 719468)%Z in
  let era := (z' / 146097)%Z in
  let doe := (z' - era * 146097)%Z in
  let yoe := ((doe - doe / 1460 + doe / 36524 - doe / 146096) / 365)%Z in
  let doy := (doe - (365 * yoe + yoe / 4 - yoe / 100))%Z in
  let mp := ((5 * doy + 2) / 153)%Z in
  let d := (doy - (153 * mp + 2) / 5 + 1)%Z in
  let m := if (mp <? 10)%Z then (mp + 3)%Z else (mp - 9)%Z in
  let y := (yoe + era * 400)%Z in
  (if (m <=? 2)%Z then (y + 1)%Z else y, m, d).

Definition Day (t : Z) : Z := (t / msPerDay)%Z.

Definition TimeWithinDay (t : Z) : Z := (t mod msPerDay)%Z.

(** [MakeDay(year, month, date)], with a month counted from 0. *)
Definition MakeDay (year month date : Z) : Z :=
  (days_from_civil (year + month / 12) (month mod 12 + 1) 1 + date - 1)%Z.

Definition MakeDate (day time : Z) : Z := (day * msPerDay + time)%Z.

Definition DaysInMonth (y m : Z) : Z :=
  (days_from_civil (y + m / 12) (m mod 12 + 1) 1 - days_from_civil y m 1)%Z.

(** [TimeClip]. *)
Definition TimeClip (t : Z) : option Z :=
  if (Z.abs t <=? 8640000000000000)%Z then Some t else None.

(** A time zone: [offset_at t] is the offset in force at the instant of
    time value [t] ([LocalTZA(t, true)]), and [offset_of_local t] the offset
    a local time [t] is read at ([LocalTZA(t, false)]: for a local time that
    a change of offset skips or repeats, the offset before the change). *)
Record TimeZone := {
  offset_at : Z -> Z;
  offset_of_local : Z -> Z
}.

(** [LocalTime(t)]. *)
Definition LocalTime (z : TimeZone) (t : Z) : Z := (t + offset_at z t)%Z.

(** [UTC(t)]. *)
Definition UTC (z : TimeZone) (t : Z) : Z := (t - offset_of_local z t)%Z.

(** A zone that keeps one offset all year. *)
Definition fixed_zone (tz : Z) : TimeZone := {|
  offset_at := fun _ => tz;
  offset_of_local := fun _ => tz
|}.

Definition in_periods (periods : list (Z * Z)) (shift : Z) (t : Z) : bool :=
  existsb (fun '(a, b) => (a + shift <=? t)%Z && (t <? b + shift)%Z) periods.

(** A zone at offset [std] whose clocks are [dst] ahead of that during
    the given periods, each from an instant to an instant.  In local time a
    period starts and ends [std + dst] later on the clock: the local times
    skipped at its start are read at [std], those repeated at its end at
    [std + dst]. *)
Definition daylight_zone (std dst : Z) (periods : list (Z * Z))
  : TimeZone := {|
  offset_at := fun t =>
    if in_periods periods 0 t then (std + dst)%Z else std;
  offset_of_local := fun t =>
    if in_periods periods (std + dst) t then (std + dst)%Z else std
|}.

(** [d.setHours(0, 0, 0, 0)] on the date of time value [t]. *)
Definition setHours0 (z : TimeZone) (t : Z) : option Z :=
  let local := LocalTime z t in
  TimeClip (UTC z (MakeDate (Day local) 0)).

(** [d.setFullYear(d.getFullYear() + 1)] on the date of time value [t]. *)
Definition addFullYear (z : TimeZone) (t : Z) : option Z :=
  let local := LocalTime z t in
  let '(y, m, d) := civil_from_days (Day local) in
  TimeClip
    (UTC z (MakeDate (MakeDay (y + 1) (m - 1) d) (TimeWithinDay local))).

(** The number of days from the day [z] to the day [setFullYear] moves it
    to: the same month and day of the month one year later. *)
Definition year_ahead (z : Z) : Z :=
  let '(y, m, d) := civil_from_days z in
  (MakeDay (y + 1) (m - 1) d - z)%Z.

(** [d.setDate(d.getDate() + n)] on the date of time value [t]. *)
Definition addDays (z : TimeZone) (n : Z) (t : Z) : option Z :=
  let local := LocalTime z t in
  let '(y, m, d) := civil_from_days (Day local) in
  TimeClip
    (UTC z (MakeDate (MakeDay y (m - 1) (d + n)) (TimeWithinDay local))).

Definition two_digits (a b : ascii) : option Z :=
  if is_digit a && is_digit b then Some (10 * digit_val a + digit_val b)%Z
  else None.

(** The date-only form [YYYY-MM-DD] of the date-time string format, which
    denotes midnight UTC of that day. *)
Definition parse_iso_date (s : string) : option Z :=
  match chars s with
  | [y1; y2; y3; y4; h1; m1; m2; h2; d1; d2] =>
      if (code h1 =? 45)%Z && (code h2 =? 45)%Z then
        match two_digits y1 y2, two_digits y3 y4,
              two_digits m1 m2, two_digits d1 d2 with
        | Some yh, Some yl, Some m, Some d =>
            let y := (100 * yh + yl)%Z in
            if (1 <=? m)%Z && (m <=? 12)%Z && (1 <=? d)%Z
               && (d <=? DaysInMonth y m)%Z
            then Some (MakeDate (days_from_civil y m d) 0)
            else None
        | _, _, _, _ => None
        end
      else None
  | _ => None
  end.

(** [Date.parse]: the date-only form is fixed by the language; every other
    string (date-time forms and the formats each host accepts on its own) is
    left to [host_parse]. *)
Definition Date_parse (host_parse : string -> option Z) (s : string)
  : option Z :=
  match parse_iso_date s with
  | Some t => Some t
  | None => host_parse s
  end.

(** *** Numbers to strings *)

(** Decimal digits of a natural number, most significant first. *)
Fixpoint digits_fuel (fuel : nat) (n : Z) (acc : list ascii) : list ascii :=
  match fuel with
  | O => acc
  | S fuel' =>
      let acc' := chr (48 + n mod 10)%Z :: acc in
      if (n <? 10)%Z then acc' else digits_fuel fuel' (n / 10)%Z acc'
  end.

Definition digits_of (n : Z) : list ascii :=
  digits_fuel (S (Z.to_nat (Z.log2 n))) n [].

Definition zeros (n : Z) : list ascii := repeat "0"%char (Z.to_nat n).

(** A positive finite number [m * 2^e] as an exact fraction [num / den]. *)
Definition fraction_of (m : positive) (e : Z) : Z * Z :=
  if (0 <=? e)%Z then (Zpos m * 2 ^ e, 1)%Z else (Zpos m, 2 ^ (- e))%Z.

(** [10^n <= num / den]. *)
Definition pow10_le (n : Z) (num den : Z) : bool :=
  if (0 <=? n)%Z then (10 ^ n * den <=? num)%Z
  else (den <=? num * 10 ^ (- n))%Z.

Fixpoint log10_search (fuel : nat) (n : Z) (num den : Z) : Z :=
  match fuel with
  | O => n
  | S fuel' => if pow10_le n num den then n
               else log10_search fuel' (n - 1)%Z num den
  end.

(** The largest [n] with [10^n <= num / den], searched downwards from an
    upper estimate taken from the binary lengths. *)
Definition log10_floor (num den : Z) : Z :=
  let l := (Z.log2 num - Z.log2 den + 1)%Z in
  log10_search 8 (l * 30103 / 100000 + 2)%Z num den.

(** [num / den / 10^p] as a fraction. *)
Definition scaled (num den p : Z) : Z * Z :=
  if (0 <=? p)%Z then (num, den * 10 ^ p)%Z else (num * 10 ^ (- p), den)%Z.

(** The candidates [(s, n)] with [k] digits for a number in
    [10^(n-1), 10^n): the two multiples of [10^(n-k)] around it, the nearer
    one first (the even one on a tie). *)
Definition candidates (num den n k : Z) : list (Z * Z) :=
  let '(a, b) := scaled num den (n - k)%Z in
  let lo := (a / b)%Z in
  let hi := (lo + 1)%Z in
  let r := (a mod b)%Z in
  let norm s := if (s =? 10 ^ k)%Z then (10 ^ (k - 1), n + 1)%Z else (s, n) in
  if (r =? 0)%Z then [norm lo]
  else
    match (2 * r ?= b)%Z with
    | Lt => [norm lo; norm hi]
    | Gt => [norm hi; norm lo]
    | Eq => if Z.even lo then [norm lo; norm hi] else [norm hi; norm lo]
    end.

Definition round_trips (x : float) (k : Z) (c : Z * Z) : bool :=
  let '(s, n) := c in
  Leibniz.eqb (round_decimal false s (n - k)%Z) x.

(** The shortest digit string [s] (of [k] digits, scaled by [10^(n-k)]) that
    reads back as [x]. *)
Fixpoint shortest (fuel : nat) (x : float) (num den n k : Z) : Z * Z * Z :=
  match fuel with
  | O => (0, n, k)%Z
  | S fuel' =>
      match List.filter (round_trips x k) (candidates num den n k) with
      | (s, n') :: _ => (s, n', k)
      | [] => shortest fuel' x num den n (k + 1)%Z
      end
  end.

Definition format_digits (s n k : Z) : list ascii :=
  let ds := digits_of s in
  if (k <=? n)%Z && (n <=? 21)%Z then (ds ++ zeros (n - k))%list
  else if (0 <? n)%Z && (n <=? 21)%Z then
    (take (Z.to_nat n) ds ++ "."%char :: drop (Z.to_nat n) ds)%list
  else if (-6 <? n)%Z && (n <=? 0)%Z then
    ("0"%char :: "."%char :: zeros (- n) ++ ds)%list
  else
    let e := (n - 1)%Z in
    let es :=
      (if (0 <=? e)%Z then "+"%char else "-"%char) :: digits_of (Z.abs e) in
    match ds with
    | d :: rest =>
        if (k =? 1)%Z then d :: "e"%char :: es
        else (d :: "."%char :: rest ++ "e"%char :: es)%list
    | [] => []
    end.

Definition with_sign (neg : bool) (l : list ascii) : string :=
  str (if neg then "-"%char :: l else l).

(** [Number::toString(x)] in radix 10, which is also [String(x)] and the
    text a template literal inserts for a number. *)
Definition Number_toString (x : float) : string :=
  match Prim2SF x with
  | S754_nan => "NaN"
  | S754_zero _ => "0"
  | S754_infinity s => if s then "-Infinity" else "Infinity"
  | S754_finite sg m e =>
      let '(num, den) := fraction_of m e in
      let n := (log10_floor num den + 1)%Z in
      let '(s, n', k) := shortest 17 (abs x) num den n 1%Z in
      with_sign sg (format_digits s n' k)
  end.

(** [x.toFixed(2)]. *)
Definition toFixed2 (x : float) : string :=
  match Prim2SF x with
  | S754_nan => "NaN"
  | S754_zero _ => "0.00"
  | S754_infinity s => if s then "-Infinity" else "Infinity"
  | S754_finite sg m e =>
      let '(num, den) := fraction_of m e in
      if pow10_le 21 num den then Number_toString x
      else
        let n := ((2 * (num * 100) + den) / (2 * den))%Z in
        let ds := digits_of n in
        let ds := (zeros (3 - Z.of_nat (length ds)) ++ ds)%list in
        let k := (length ds - 2)%nat in
        with_sign sg (take k ds ++ "."%char :: drop k ds)%list
  end.

Definition pad (width : Z) (n : Z) : list ascii :=
  let ds := digits_of n in
  (zeros (width - Z.of_nat (length ds)) ++ ds)%list.

(** [d.toISOString().slice(0, 10)] for a time value in the years 0 to 9999:
    the UTC date as [YYYY-MM-DD]. *)
Definition toISOString_date (t : Z) : string :=
  let '(y, m, d) := civil_from_days (Day t) in
  str (pad 4 y ++ "-"%char :: pad 2 m ++ "-"%char :: pad 2 d)%list.

(** The integer part of a finite number (truncation towards zero). *)
Definition truncate (x : float) : option Z :=
  match Prim2SF x with
  | S754_zero _ => Some 0%Z
  | S754_finite sg m e =>
      let '(num, den) := fraction_of m e in
      let q := (num / den)%Z in
      Some (if sg then (- q)%Z else q)
  | _ => None
  end.

(** The number of a small natural number, such as a length or a count. *)
Definition of_nat (n : nat) : float := round_decimal false (Z.of_nat n) 0%Z.

End JS.


(** * Order pricing ([CustomerRequest], [ServiceSelector]) *)

Module Pricing.

Local Open Scope float_scope.

(** A row of [laundry_services] ([types/database.ts]). *)
Record LaundryService := {
  id : string;
  name : string;
  description : option string;
  price_per_item : option string;
  price_per_pound : option string;
  is_active : bool;
  created_at : string
}.

(** [ServiceQuantities = Record<string, number>], keyed by service id. *)
Abbreviation ServiceQuantities := (gmap string float).

(** [Number(quantities[s.id] || 0)]: a missing entry is [undefined] (the id
    of a service is a uuid, never the name of a member of
    [Object.prototype]). *)
Definition requested (quantities : ServiceQuantities) (s : LaundryService)
  : float :=
  match quantities !! id s with
  | Some q => if JS.truthy q then q else 0
  | None => 0
  end.

(** [Number(s.price_per_item ?? s.price_per_pound ?? '0')]. *)
Definition unit_price (s : LaundryService) : float :=
  JS.Number_of_string
    (match price_per_item s with
     | Some p => p
     | None => match price_per_pound s with
               | Some p => p
               | None => "0"
               end
     end).

(** The body of the [lineTotals] map. *)
Definition line_total (quantities : ServiceQuantities) (s : LaundryService)
  : float :=
  let qty := JS.Math_max 0 (requested quantities s) in
  let price := unit_price s in
  qty * price.

Definition lineTotals (items : list LaundryService)
  (quantities : ServiceQuantities) : list float :=
  map (line_total quantities) items.

(** [lineTotals.reduce((a, b) => a + b, 0)]. *)
Definition total (items : list LaundryService)
  (quantities : ServiceQuantities) : float :=
  fold_left add (lineTotals items quantities) 0.

(** The filter of the order summary and of [onSubmit]:
    [Number(quantities[s.id] || 0) > 0]. *)
Definition is_selected (quantities : ServiceQuantities) (s : LaundryService)
  : bool :=
  0 <? requested quantities s.

Definition selected (items : list LaundryService)
  (quantities : ServiceQuantities) : list LaundryService :=
  List.filter (is_selected quantities) items.

(** The rows of the order summary: name, quantity and line total of every
    selected service. *)
Definition summary (items : list LaundryService)
  (quantities : ServiceQuantities) : list (string * float * float) :=
  map (fun s =>
         let qty := JS.Math_max 0 (requested quantities s) in
         let price := unit_price s in
         let lineTotal := qty * price in
         (name s, qty, lineTotal))
    (selected items quantities).

(** Equality of numbers up to the sign of zero: the two values are the same,
    or both are zeros.  ([NaN] is a single value here.) *)
Definition same_number (x y : float) : Prop :=
  x = y \/ (is_zero x = true /\ is_zero y = true).

(** The catalog entry of the specification's scenario A. *)
Definition wash_and_fold : LaundryService := {|
  id := "svc1";
  name := "Wash & Fold";
  description := None;
  price_per_item := Some "2.50";
  price_per_pound := None;
  is_active := true;
  created_at := "2025-01-01T00:00:00Z"
|}.

(** A catalog entry whose price is written with a decimal comma, which
    [Number] does not read as a number. *)
Definition comma_priced : LaundryService := {|
  id := "svc2";
  name := "Dry Cleaning";
  description := None;
  price_per_item := Some "1,50";
  price_per_pound := None;
  is_active := true;
  created_at := "2025-01-01T00:00:00Z"
|}.

(** The reading of "for a negative or non-numeric quantity the line cost is
    0", for every service. *)
Definition unrequested_costs_nothing : Prop :=
  forall (s : LaundryService) (quantities : ServiceQuantities) (q : float),
    quantities !! id s = Some q ->
    (q <? 0) = true \/ is_nan q = true ->
    is_zero (line_total quantities s) = true.

(** The reading of "zero-quantity lines are excluded from the computed
    lines": the computed list has as many entries as there are selected
    services. *)
Definition lines_exclude_unselected (items : list LaundryService)
  (quantities : ServiceQuantities) : Prop :=
  length (lineTotals items quantities) = length (selected items quantities).

End Pricing.

(** * Validation and sanitization ([lib/validation.ts]) *)

Module Validation.

Local Open Scope float_scope.

(** The values a form record holds, and those a read of it can give.
    [VObj text] is an object or a function with the default conversions:
    it is neither a string nor a number, and [text] is what its [toString]
    gives, which is both [String(value)] and the primitive [new Date(value)]
    parses. *)
Inductive value : Type :=
  | VUndefined
  | VNull
  | VStr (s : string)
  | VNum (x : float)
  | VObj (text : string).

(** [String(value)]. *)
Definition String_of (v : value) : string :=
  match v with
  | VUndefined => "undefined"
  | VNull => "null"
  | VStr s => s
  | VNum x => JS.Number_toString x
  | VObj text => text
  end.

Record ValidationRule := {
  required : bool;
  minLength : option float;
  maxLength : option float;
  pattern : option JS.regex;
  min : option float;
  max : option float;
  custom : option (value -> option string);
  message : option string
}.

(** A rule object with no property set. *)
Definition no_rule : ValidationRule := {|
  required := false; minLength := None; maxLength := None; pattern := None;
  min := None; max := None; custom := None; message := None
|}.

Record FieldValidationResult := {
  fieldIsValid : bool;
  error : option string
}.

(** [errors] holds what [validateForm] assigns, the [string | null] error of
    a field result. *)
Record ValidationResult := {
  isValid : bool;
  errors : gmap string (option string)
}.

(** [VALIDATION_PATTERNS]. *)
Module PATTERNS.
Import JS.
Definition not_space_at (c : ascii) : bool :=
  negb (is_space c || Ascii.eqb c "@").
(** [/^[^\s@]+@[^\s@]+\.[^\s@]+$/] *)
Definition email : regex :=
  Cat (Plus (Class not_space_at))
    (Cat (Char "@")
       (Cat (Plus (Class not_space_at))
          (Cat (Char ".") (Plus (Class not_space_at))))).
(** [/^[\+]?[1-9][\d]{0,15}$/] *)
Definition phone : regex :=
  Cat (Opt (Char "+"))
    (Cat (Class (fun c => is_digit c && negb (Ascii.eqb c "0")))
       (UpTo 15 (Class is_digit))).
(** [/^\(?([0-9]{3})\)?[-. ]?([0-9]{3})[-. ]?([0-9]{4})$/] *)
Definition phoneUS : regex :=
  Cat (Opt (Char "("))
    (Cat (Times 3 (Class is_digit))
       (Cat (Opt (Char ")"))
          (Cat (Opt (Class (one_of "-. ")))
             (Cat (Times 3 (Class is_digit))
                (Cat (Opt (Class (one_of "-. ")))
                   (Times 4 (Class is_digit))))))).
(** [/^[a-zA-Z0-9]+$/] *)
Definition alphanumeric : regex :=
  Plus (Class (fun c => is_alpha c || is_digit c)).
(** [/^[a-zA-Z\s\-'\.]+$/] *)
Definition name : regex :=
  Plus (Class (fun c => is_alpha c || is_space c || one_of "-'." c)).
(** [/^[a-zA-Z0-9\s\-\.,#\/]+$/] *)
Definition address : regex :=
  Plus (Class (fun c => is_alpha c || is_digit c || is_space c
                        || one_of "-.,#/" c)).
(** [/^\d+(\.\d{1,2})?$/] *)
Definition price : regex :=
  Cat (Plus (Class is_digit))
    (Opt (Cat (Char ".") (Cat (Class is_digit) (Opt (Class is_digit))))).
End PATTERNS.

(** [VALIDATION_MESSAGES]. *)
Module MESSAGES.
Definition required : string := "This field is required".
Definition email : string := "Please enter a valid email address".
Definition phone : string := "Please enter a valid phone number".
Definition minLength (n : float) : string :=
  "Must be at least " ++ JS.Number_toString n ++ " characters long".
Definition maxLength (n : float) : string :=
  "Must be no more than " ++ JS.Number_toString n ++ " characters long".
Definition min (n : float) : string :=
  "Must be at least " ++ JS.Number_toString n.
Definition max (n : float) : string :=
  "Must be no more than " ++ JS.Number_toString n.
Definition pattern : string := "Please enter a valid format".
Definition futureDate : string := "Date must be in the future".
Definition pastDate : string := "Date must be in the past".
Definition positiveNumber : string := "Must be a positive number".
Definition integer : string := "Must be a whole number".
End MESSAGES.

(** [rules.message || fallback]: an empty message is falsy. *)
Definition message_or (rules : ValidationRule) (fallback : string) : string :=
  match message rules with
  | Some m => if String.eqb m "" then fallback else m
  | None => fallback
  end.

Definition invalid (e : string) : FieldValidationResult :=
  {| fieldIsValid := false; error := Some e |}.

Definition valid : FieldValidationResult :=
  {| fieldIsValid := true; error := None |}.

(** [value === null || value === undefined || value === '']. *)
Definition is_blank (v : value) : bool :=
  match v with
  | VUndefined | VNull => true
  | VStr s => String.eqb s ""
  | VNum _ | VObj _ => false
  end.

Definition is_number (v : value) : bool :=
  match v with VNum _ => true | _ => false end.

(** A rule number that is set and truthy, as in [rules.minLength && ...]. *)
Definition truthy_bound (b : option float) : option float :=
  match b with
  | Some n => if JS.truthy n then Some n else None
  | None => None
  end.

(** The checks of [validateField] on a value that is not blank, each giving
    the error it returns with, if any. *)

Definition check_required (rules : ValidationRule) (stringValue : string)
  : option string :=
  if required rules && String.eqb stringValue ""
  then Some (message_or rules MESSAGES.required) else None.

Definition check_minLength (rules : ValidationRule) (stringValue : string)
  : option string :=
  match truthy_bound (minLength rules) with
  | Some n =>
      if JS.of_nat (String.length stringValue) <? n
      then Some (message_or rules (MESSAGES.minLength n)) else None
  | None => None
  end.

Definition check_maxLength (rules : ValidationRule) (stringValue : string)
  : option string :=
  match truthy_bound (maxLength rules) with
  | Some n =>
      if n <? JS.of_nat (String.length stringValue)
      then Some (message_or rules (MESSAGES.maxLength n)) else None
  | None => None
  end.

(** [typeof value === 'number' || !isNaN(Number(stringValue))]. *)
Definition is_numeric (v : value) (stringValue : string) : bool :=
  is_number v || negb (JS.isNaN (JS.Number_of_string stringValue)).

Definition check_min (rules : ValidationRule) (v : value)
  (stringValue : string) : option string :=
  match min rules with
  | Some n =>
      if is_numeric v stringValue
         && (JS.Number_of_string stringValue <? n)
      then Some (message_or rules (MESSAGES.min n)) else None
  | None => None
  end.

Definition check_max (rules : ValidationRule) (v : value)
  (stringValue : string) : option string :=
  match max rules with
  | Some n =>
      if is_numeric v stringValue
         && (n <? JS.Number_of_string stringValue)
      then Some (message_or rules (MESSAGES.max n)) else None
  | None => None
  end.

Definition check_pattern (rules : ValidationRule) (stringValue : string)
  : option string :=
  match pattern rules with
  | Some r =>
      if JS.test r stringValue then None
      else Some (message_or rules MESSAGES.pattern)
  | None => None
  end.

(** The custom check: the error it returns counts when it is truthy. *)
Definition check_custom (rules : ValidationRule) (v : value) : option string :=
  match custom rules with
  | Some f =>
      match f v with
      | Some e => if String.eqb e "" then None else Some e
      | None => None
      end
  | None => None
  end.

(** The first error of a sequence of checks. *)
Fixpoint first_error (checks : list (option string)) : option string :=
  match checks with
  | Some e :: _ => Some e
  | None :: rest => first_error rest
  | [] => None
  end.

(** [validateField(value, rules)]. *)
Definition validateField (v : value) (rules : ValidationRule)
  : FieldValidationResult :=
  if is_blank v then
    if required rules
    then invalid (message_or rules MESSAGES.required)
    else valid
  else
    let stringValue := JS.trim (String_of v) in
    match first_error [
      check_required rules stringValue;
      check_minLength rules stringValue;
      check_maxLength rules stringValue;
      check_min rules v stringValue;
      check_max rules v stringValue;
      check_pattern rules stringValue;
      check_custom rules v
    ] with
    | Some e => invalid e
    | None => valid
    end.

(** A rule set and its fields, in the order [Object.entries] lists them. *)
Abbreviation Schema := (list (string * ValidationRule)).

(** A built-in function, whose text is the host's; it is written here as
    V8 writes it. *)
Definition native_function (name : string) : value :=
  VObj ("function " ++ name ++ "() { [native code] }").

(** The names of the functions of [Object.prototype] other than
    [constructor]. *)
Definition prototype_functions : list string := [
  "hasOwnProperty"; "isPrototypeOf"; "propertyIsEnumerable";
  "toLocaleString"; "toString"; "valueOf";
  "__defineGetter__"; "__defineSetter__";
  "__lookupGetter__"; "__lookupSetter__"
].

(** What a read of [key] finds on [Object.prototype], which every record
    inherits from (records are object literals, JSON values and the values
    of a form): [__proto__] is the prototype itself, [constructor] is
    [Object], the other members are functions of their own name. *)
Definition Object_prototype (key : string) : option value :=
  if String.eqb key "__proto__" then Some (VObj "[object Object]")
  else if String.eqb key "constructor" then Some (native_function "Object")
  else if existsb (String.eqb key) prototype_functions
  then Some (native_function key)
  else None.

(** [data[fieldName]], where the map [data] holds the properties of the
    record itself: a property the record does not have is looked up on
    [Object.prototype], and reads as [undefined] when it is not found there
    either. *)
Definition get (data : gmap string value) (fieldName : string) : value :=
  match data !! fieldName with
  | Some v => v
  | None =>
      match Object_prototype fieldName with
      | Some v => v
      | None => VUndefined
      end
  end.

(** [errors[fieldName] = error] on the object [errors], which starts as
    [{}]: the property is created or replaced, except under the name
    [__proto__], where the assignment runs the setter inherited from
    [Object.prototype]; the error of a field that fails is a string, which
    that setter ignores, so [errors] is left as it is. *)
Definition assign_error (errors : gmap string (option string))
  (fieldName : string) (e : option string) : gmap string (option string) :=
  if String.eqb fieldName "__proto__" then errors
  else <[fieldName := e]> errors.

(** One turn of the loop of [validateForm]. *)
Definition validate_step (data : gmap string value)
  (acc : ValidationResult) (entry : string * ValidationRule)
  : ValidationResult :=
  let '(fieldName, fieldRules) := entry in
  let fieldValue := get data fieldName in
  let result := validateField fieldValue fieldRules in
  if negb (fieldIsValid result)
  then {| isValid := false;
          errors := assign_error (errors acc) fieldName (error result) |}
  else acc.

(** [validateForm(data, rules)]. *)
Definition validateForm (data : gmap string value) (rules : Schema)
  : ValidationResult :=
  fold_left (validate_step data) rules {| isValid := true; errors := ∅ |}.

(** [new Date(value)] for a form value. *)
Definition Date_of (host_parse : string -> option Z) (v : value) : option Z :=
  match v with
  | VStr s => JS.Date_parse host_parse s
  | VNum x => match JS.truncate x with
              | Some t => JS.TimeClip t
              | None => None
              end
  | VNull => Some 0%Z
  | VUndefined => None
  | VObj text => JS.Date_parse host_parse text
  end.

(** The host at the time of a validation: the clock reading [now] (a time
    value; the two [new Date()] of the rule read it within the same
    millisecond), its time zone, and the host's parsing of date strings
    outside the date-only form. *)
Record Host := {
  now : Z;
  zone : JS.TimeZone;
  host_parse : string -> option Z
}.

(** The [custom] function of [CUSTOMER_REQUEST_SCHEMA.pickup_date]. *)
Definition pickup_date_custom (h : Host) (v : value) : option string :=
  let inputDate := Date_of (host_parse h) v in
  let today := JS.setHours0 (zone h) (now h) in
  match inputDate with
  | None => Some "Please select a valid date"
  | Some t =>
      if match today with Some t0 => (t <? t0)%Z | None => false end
      then Some "Pickup date must be today or in the future"
      else
        let oneYearFromNow := JS.addFullYear (zone h) (now h) in
        if match oneYearFromNow with Some t1 => (t1 <? t)%Z | None => false end
        then Some "Pickup date cannot be more than 1 year in the future"
        else None
  end.

(** The rule objects of [CUSTOMER_REQUEST_SCHEMA]. *)

Definition customer_name_rule : ValidationRule := {|
  required := true; minLength := Some 2; maxLength := Some 100;
  pattern := Some PATTERNS.name; min := None; max := None;
  custom := None; message := Some "Please enter your full name"
|}.

Definition customer_email_rule : ValidationRule := {|
  required := true; minLength := None; maxLength := None;
  pattern := Some PATTERNS.email; min := None; max := None;
  custom := None; message := Some MESSAGES.email
|}.

Definition customer_phone_rule : ValidationRule := {|
  required := true; minLength := None; maxLength := None;
  pattern := Some PATTERNS.phoneUS; min := None; max := None;
  custom := None; message := Some MESSAGES.phone
|}.

Definition pickup_address_rule : ValidationRule := {|
  required := true; minLength := Some 10; maxLength := Some 200;
  pattern := Some PATTERNS.address; min := None; max := None;
  custom := None; message := Some "Please enter a complete address"
|}.

Definition pickup_date_rule (h : Host) : ValidationRule := {|
  required := true; minLength := None; maxLength := None;
  pattern := None; min := None; max := None;
  custom := Some (pickup_date_custom h); message := None
|}.

Definition pickup_time_slot_rule : ValidationRule := {|
  required := true; minLength := None; maxLength := None;
  pattern := None; min := None; max := None;
  custom := None; message := Some "Please select a pickup time slot"
|}.

Definition special_instructions_rule : ValidationRule := {|
  required := false; minLength := None; maxLength := Some 500;
  pattern := None; min := None; max := None; custom := None;
  message := Some "Special instructions cannot exceed 500 characters"
|}.

(** [CUSTOMER_REQUEST_SCHEMA]. *)
Definition CUSTOMER_REQUEST_SCHEMA (h : Host) : Schema := [
  ("customer_name", customer_name_rule);
  ("customer_email", customer_email_rule);
  ("customer_phone", customer_phone_rule);
  ("pickup_address", pickup_address_rule);
  ("pickup_date", pickup_date_rule h);
  ("pickup_time_slot", pickup_time_slot_rule);
  ("special_instructions", special_instructions_rule)
].

(** The fields of the schema other than the pickup date. *)
Definition other_rules : Schema := [
  ("customer_name", customer_name_rule);
  ("customer_email", customer_email_rule);
  ("customer_phone", customer_phone_rule);
  ("pickup_address", pickup_address_rule);
  ("pickup_time_slot", pickup_time_slot_rule);
  ("special_instructions", special_instructions_rule)
].

(** A draft whose fields other than the pickup date satisfy their rules. *)
Definition sample_draft (date : string) : gmap string value :=
  list_to_map [
    ("customer_name", VStr "Alex Johnson");
    ("customer_email", VStr "alex@example.com");
    ("customer_phone", VStr "(555) 123-4567");
    ("pickup_address", VStr "12 Main Street, Springfield");
    ("pickup_date", VStr date);
    ("pickup_time_slot", VStr "Morning 8-12");
    ("special_instructions", VNull)
  ].

(** A host five hours west of UTC, at noon local time on 2026-11-01
    (17:00 UTC). *)
Definition host_west (parse : string -> option Z) : Host := {|
  now := 1793552400000; zone := JS.fixed_zone (-18000000);
  host_parse := parse
|}.

(** A host two hours east of UTC, at one in the morning local time on
    2026-11-01 (23:00 UTC of the day before). *)
Definition host_east (parse : string -> option Z) : Host := {|
  now := 1793487600000; zone := JS.fixed_zone 7200000;
  host_parse := parse
|}.

(** London, with the summer time of 2026 (29 March to 25 October, one hour
    ahead), at noon on 2026-03-20. *)
Definition london : JS.TimeZone :=
  JS.daylight_zone 0 3600000 [(1774746000000, 1792890000000)%Z].

Definition host_london (parse : string -> option Z) : Host := {|
  now := 1774008000000; zone := london; host_parse := parse
|}.

(** New York, five hours west of UTC, with the daylight time of 2026 (8
    March to 1 November) and of 2027 (14 March to 7 November), at half past
    seven in the evening on 2026-11-05 (00:30 UTC of the day after). *)
Definition new_york : JS.TimeZone :=
  JS.daylight_zone (-18000000) 3600000
    [(1772953200000, 1793512800000)%Z; (1805007600000, 1825567200000)%Z].

Definition host_new_york (parse : string -> option Z) : Host := {|
  now := 1793925000000; zone := new_york; host_parse := parse
|}.

(** The record and the rule set of a form whose one field, required, is
    named [__proto__] and is left empty: both have a property of their own
    under that name, as [JSON.parse] or a computed key give it. *)
Definition proto_data : gmap string value :=
  {[ "__proto__" := VStr "" ]}.

Definition required_only : ValidationRule := {|
  required := true; minLength := None; maxLength := None;
  pattern := None; min := None; max := None; custom := None;
  message := None
|}.

Definition proto_rules : Schema := [("__proto__", required_only)].

(** The same rule set with a rule that asks for twenty characters. *)
Definition proto_length_rules : Schema := [
  ("__proto__",
   {| required := false; minLength := Some 20; maxLength := None;
      pattern := None; min := None; max := None; custom := None;
      message := None |})
].

(** The local calendar date of the host. *)
Definition local_today (h : Host) : Z :=
  JS.Day (JS.LocalTime (zone h) (now h)).

(** The offset the start of the local day [d] is read at. *)
Definition midnight_offset (h : Host) (d : Z) : Z :=
  JS.offset_of_local (zone h) (JS.MakeDate d 0).

(** A zone whose offsets are all less than a day. *)
Definition zone_in_range (z : JS.TimeZone) : Prop :=
  forall t : Z,
    (- JS.msPerDay < JS.offset_at z t < JS.msPerDay)%Z /\
    (- JS.msPerDay < JS.offset_of_local z t < JS.msPerDay)%Z.

(** The clock readings for which the dates the rule computes are valid. *)
Definition clock_in_range (h : Host) : Prop :=
  (0 <= now h <= 8000000000000000)%Z /\ zone_in_range (zone h).

(** A zone in which a local time and the instant it is read as fall on
    the same local day: no change of offset skips past midnight. *)
Definition keeps_day (z : JS.TimeZone) : Prop :=
  forall t : Z, JS.Day (JS.LocalTime z (JS.UTC z t)) = JS.Day t.

(** ** Sanitization *)

Definition angle (c : ascii) : bool := JS.one_of "<>" c.

(** [input.trim().replace(/[<>]/g, '')]. *)
Definition sanitizeString (input : string) : string :=
  JS.remove_all angle (JS.trim input).

(** [email.trim().toLowerCase()]. *)
Definition sanitizeEmail (email : string) : string :=
  JS.toLowerCase (JS.trim email).

(** The class [[\d\-\(\)\s\+]] of the characters a phone number keeps. *)
Definition phone_char (c : ascii) : bool :=
  JS.is_digit c || JS.one_of "-()+" c || JS.is_space c.

(** [phone.replace(/[^\d\-\(\)\s\+]/g, '')]. *)
Definition sanitizePhone (phone : string) : string :=
  JS.remove_all (fun c => negb (phone_char c)) phone.

(** [address.trim().replace(/[<>]/g, '')]. *)
Definition sanitizeAddress (address : string) : string :=
  JS.remove_all angle (JS.trim address).

(** The body of the loop of [validateFormData] for one property. *)
Definition sanitize_entry (key : string) (v : value) : value :=
  match v with
  | VStr s =>
      if String.eqb key "customer_email" then VStr (sanitizeEmail s)
      else if String.eqb key "customer_phone" then VStr (sanitizePhone s)
      else if String.eqb key "pickup_address" then VStr (sanitizeAddress s)
      else VStr (sanitizeString s)
  | _ => v
  end.

Record FormDataResult := {
  fd_isValid : bool;
  fd_errors : gmap string (option string);
  sanitizedData : gmap string value
}.

(** [validateFormData(data, schema)]: every property of the copy is assigned
    from the property of [data] with the same key. *)
Definition validateFormData (data : gmap string value) (schema : Schema)
  : FormDataResult :=
  let validation := validateForm data schema in
  {| fd_isValid := isValid validation;
     fd_errors := errors validation;
     sanitizedData := map_imap (fun k v => Some (sanitize_entry k v)) data |}.

End Validation.

(** * The hosted store ([lib/supabase.ts], [types/database.ts]) *)

Module Store.

Inductive Status : Type := pending | confirmed | in_progress | completed.

Definition Status_toString (st : Status) : string :=
  match st with
  | pending => "pending"
  | confirmed => "confirmed"
  | in_progress => "in_progress"
  | completed => "completed"
  end.

(** [ApiResponse<T>]: [{ ok: true, data }] or [{ ok: false, error }]. *)
Inductive ApiResponse (T : Type) : Type :=
  | ApiSuccess (data : T)
  | ApiFailure (error : string).
Arguments ApiSuccess {T} data.
Arguments ApiFailure {T} error.

Definition ok {T} (r : ApiResponse T) : bool :=
  match r with ApiSuccess _ => true | ApiFailure _ => false end.

(** The payload [onSubmit] builds for [laundry_requests]. *)
Record RequestInsert := {
  ins_customer_name : string;
  ins_customer_email : string;
  ins_customer_phone : string;
  ins_pickup_address : string;
  ins_pickup_date : string;
  ins_pickup_time_slot : string;
  ins_special_instructions : option string;
  ins_status : Status;
  ins_total_estimated_cost : string
}.

(** A row of [laundry_requests], with the [internal_notes] column the admin
    pages read and write. *)
Record RequestRow := {
  id : string;
  customer_name : string;
  customer_email : string;
  customer_phone : string;
  pickup_address : string;
  pickup_date : string;
  pickup_time_slot : string;
  special_instructions : option string;
  status : Status;
  total_estimated_cost : option string;
  internal_notes : option string;
  created_at : string
}.

(** The payload of one [request_services] insert. *)
Record RequestServiceInsert := {
  request_id : string;
  service_id : string;
  quantity : float;
  estimated_cost : string
}.

Record RequestServiceRow := {
  rs_id : string;
  rs_request_id : string;
  rs_service_id : string;
  rs_quantity : float;
  rs_estimated_cost : option string
}.

(** The patch the batch update sends: a property that is [undefined] is not
    part of the request. *)
Record RequestPatch := {
  patch_status : option Status;
  patch_internal_notes : option string
}.

End Store.

(** * The request submission workflow ([CustomerRequest]) *)

Module Submission.

Import Store.
Local Open Scope float_scope.

Inductive PickupTime : Type := morning | afternoon | evening.

Record FormInputs := {
  fullName : string;
  email : string;
  phone : string;
  address : string;
  pickupDate : string;
  pickupTime : PickupTime;
  notes : option string;
  quantities : Pricing.ServiceQuantities
}.

Inductive ToastType : Type := success | error | info.

(** The state the component sets. *)
Record UI := {
  submitError : option string;
  submitSuccess : option string;
  submitLoading : bool;
  toasts : list (string * ToastType);
  fieldErrors : list (string * string);
  resets : nat
}.

(** What the store sees of a submission.  The workflow issues inserts
    only: nothing in it updates or deletes a row. *)
Inductive Event : Type :=
  | CreateIssued (p : RequestInsert)
  | CreateSettled (r : ApiResponse RequestRow)
  | LineIssued (i : nat) (p : RequestServiceInsert)
  | LineSettled (i : nat) (r : ApiResponse RequestServiceRow).

(** The store as the workflow meets it: its answer to the order insert, its
    answer to the [i]-th line insert, and the time that answer takes, which
    fixes the order in which the concurrent line inserts settle. *)
Record Env := {
  create_reply : RequestInsert -> ApiResponse RequestRow;
  line_reply : nat -> RequestServiceInsert -> ApiResponse RequestServiceRow;
  line_delay : nat -> nat
}.

Record World := {
  ui : UI;
  log : list Event
}.

(** Computations that read the store, change the world and may throw an
    [Error] with a message. *)
Definition M (A : Type) : Type := Env -> World -> World * (string + A).

Definition ret {A} (a : A) : M A := fun _ w => (w, inr a).

Definition bind {A B} (m : M A) (k : A -> M B) : M B :=
  fun env w =>
    match m env w with
    | (w', inr a) => k a env w'
    | (w', inl e) => (w', inl e)
    end.

Definition throw {A} (e : string) : M A := fun _ w => (w, inl e).

Definition try_catch {A} (m : M A) (handler : string -> M A) : M A :=
  fun env w =>
    match m env w with
    | (w', inl e) => handler e env w'
    | r => r
    end.

Definition try_finally {A} (m : M A) (final : M unit) : M A :=
  fun env w =>
    match m env w with
    | (w', r) =>
        match final env w' with
        | (w'', inr _) => (w'', r)
        | (w'', inl e) => (w'', inl e)
        end
    end.

#[export] Instance M_ret : MRet M := @ret.
#[export] Instance M_bind : MBind M := fun A B k m => bind m k.

Definition set_ui (f : UI -> UI) : M unit :=
  fun _ w => ({| ui := f (ui w); log := log w |}, inr tt).

Definition emit (evs : list Event) : M unit :=
  fun _ w => ({| ui := ui w; log := log w ++ evs |}, inr tt).

Definition ask : M Env := fun env w => (w, inr env).

Definition setSubmitError (e : option string) : M unit :=
  set_ui (fun u =>
    {| submitError := e; submitSuccess := submitSuccess u;
       submitLoading := submitLoading u; toasts := toasts u;
       fieldErrors := fieldErrors u; resets := resets u |}).

Definition setSubmitSuccess (m : option string) : M unit :=
  set_ui (fun u =>
    {| submitError := submitError u; submitSuccess := m;
       submitLoading := submitLoading u; toasts := toasts u;
       fieldErrors := fieldErrors u; resets := resets u |}).

Definition setSubmitLoading (b : bool) : M unit :=
  set_ui (fun u =>
    {| submitError := submitError u; submitSuccess := submitSuccess u;
       submitLoading := b; toasts := toasts u;
       fieldErrors := fieldErrors u; resets := resets u |}).

Definition toast_show (m : string) (t : ToastType) : M unit :=
  set_ui (fun u =>
    {| submitError := submitError u; submitSuccess := submitSuccess u;
       submitLoading := submitLoading u; toasts := toasts u ++ [(m, t)];
       fieldErrors := fieldErrors u; resets := resets u |}).

Definition reset : M unit :=
  set_ui (fun u =>
    {| submitError := submitError u; submitSuccess := submitSuccess u;
       submitLoading := submitLoading u; toasts := toasts u;
       fieldErrors := fieldErrors u; resets := S (resets u) |}).

Definition setFieldErrors (errs : list (string * string)) : M unit :=
  set_ui (fun u =>
    {| submitError := submitError u; submitSuccess := submitSuccess u;
       submitLoading := submitLoading u; toasts := toasts u;
       fieldErrors := errs; resets := resets u |}).

(** [await createLaundryRequest(payload)]: the insert is issued and the
    workflow is suspended until it settles. *)
Definition createLaundryRequest (payload : RequestInsert)
  : M (ApiResponse RequestRow) :=
  env ← ask;
  let r := create_reply env payload in
  emit [CreateIssued payload; CreateSettled r] ;;
  ret r.

(** Insertion of a settled write behind those that took no longer. *)
Fixpoint insert_by_delay {A} (x : nat * A) (l : list (nat * A))
  : list (nat * A) :=
  match l with
  | [] => [x]
  | y :: l' =>
      if (fst y <=? fst x)%nat then y :: insert_by_delay x l'
      else x :: y :: l'
  end.

(** The order in which writes issued together settle: by delay, and in the
    order of issue among equal delays. *)
Definition settle_order {A} (l : list (nat * A)) : list (nat * A) :=
  fold_left (fun acc x => insert_by_delay x acc) l [].

(** The line inserts of one submission with their index, payload and
    answer. *)
Definition answered (env : Env) (payloads : list RequestServiceInsert)
  : list (nat * RequestServiceInsert * ApiResponse RequestServiceRow) :=
  imap (fun i p => (i, p, line_reply env i p)) payloads.

Definition settled (env : Env) (payloads : list RequestServiceInsert)
  : list (nat * ApiResponse RequestServiceRow) :=
  map snd
    (settle_order
       (map (fun '(i, p, r) => (line_delay env i, (i, r)))
          (answered env payloads))).

(** The error of the first answer that is a failure. *)
Fixpoint first_failure {T} (l : list (nat * ApiResponse T)) : option string :=
  match l with
  | (_, ApiFailure e) :: _ => Some e
  | (_, ApiSuccess _) :: rest => first_failure rest
  | [] => None
  end.

(** The answers that have arrived when [Promise.all] settles: all of them
    when none is a failure, and otherwise those up to the first failure,
    which rejects it. *)
Fixpoint until_failure {T} (l : list (nat * ApiResponse T))
  : list (nat * ApiResponse T) :=
  match l with
  | [] => []
  | (i, ApiFailure e) :: _ => [(i, ApiFailure e)]
  | x :: rest => x :: until_failure rest
  end.

(** The answers still to come at that time: those of the inserts that take
    longer than the first one to fail. *)
Fixpoint after_failure {T} (l : list (nat * ApiResponse T))
  : list (nat * ApiResponse T) :=
  match l with
  | [] => []
  | (_, ApiFailure _) :: rest => rest
  | _ :: rest => after_failure rest
  end.

(** [await Promise.all(payloads.map(async p => { const rs = await
    addRequestService(p); if (!rs.ok) throw new Error(rs.error); return
    rs }))]: every insert is issued before any settles; the promise rejects
    with the error of the first insert that settles as a failure, at which
    time the workflow goes on to its [catch] while the slower inserts are
    still in flight; otherwise it fulfils, once every insert has settled,
    with the answers in the order of issue. *)
Definition insert_all (payloads : list RequestServiceInsert)
  : M (list (ApiResponse RequestServiceRow)) :=
  env ← ask;
  emit (map (fun '(i, p, _) => LineIssued i p) (answered env payloads)) ;;
  emit (map (fun '(i, r) => LineSettled i r)
          (until_failure (settled env payloads))) ;;
  match first_failure (settled env payloads) with
  | Some e => throw e
  | None => ret (map snd (answered env payloads))
  end.

(** The answers of line inserts that arrive after the workflow has ended:
    nothing looks at them. *)
Definition in_flight (env : Env) (payloads : list RequestServiceInsert)
  : list Event :=
  map (fun '(i, r) => LineSettled i r) (after_failure (settled env payloads)).

(** [getTomorrowISO()] and [getTwoWeeksISO()], the bounds the date input of
    the form is given: [n] days from now, at local midnight, as the UTC date
    of that instant. *)
Definition days_ahead_ISO (h : Validation.Host) (n : Z) : option string :=
  match JS.addDays (Validation.zone h) n (Validation.now h) with
  | Some t =>
      match JS.setHours0 (Validation.zone h) t with
      | Some t' => Some (JS.toISOString_date t')
      | None => None
      end
  | None => None
  end.

Definition getTomorrowISO (h : Validation.Host) : option string :=
  days_ahead_ISO h 1.

Definition getTwoWeeksISO (h : Validation.Host) : option string :=
  days_ahead_ISO h 14.

Definition time_slot_label (t : PickupTime) : string :=
  match t with
  | morning => "Morning 8-12"
  | afternoon => "Afternoon 12-16"
  | evening => "Evening 16-20"
  end.

(** [e.message || fallback]. *)
Definition message_or (m fallback : string) : string :=
  if String.eqb m "" then fallback else m.

Definition no_services_message : string :=
  "Please select at least one service with quantity > 0.".

(** The payload of the order insert. *)
Definition payload_of (total : float) (data : FormInputs) : RequestInsert := {|
  ins_customer_name := fullName data;
  ins_customer_email := email data;
  ins_customer_phone := phone data;
  ins_pickup_address := address data;
  ins_pickup_date := pickupDate data;
  ins_pickup_time_slot := time_slot_label (pickupTime data);
  ins_special_instructions := notes data;
  ins_status := pending;
  ins_total_estimated_cost := JS.toFixed2 total
|}.

(** The payload of the line insert for one selected service. *)
Definition line_of (created : RequestRow) (data : FormInputs)
  (s : Pricing.LaundryService) : RequestServiceInsert :=
  let qty := Pricing.requested (quantities data) s in
  let price := Pricing.unit_price s in
  {| request_id := id created;
     service_id := Pricing.id s;
     quantity := qty;
     estimated_cost := JS.toFixed2 (qty * price) |}.

(** [onSubmit(data)], in a component whose catalog is [items] and whose
    displayed total is [total]. *)
Definition onSubmit (items : list Pricing.LaundryService) (total : float)
  (data : FormInputs) : M unit :=
  try_finally
    (try_catch
       (setSubmitError None ;;
        setSubmitSuccess None ;;
        setSubmitLoading true ;;
        let selected := Pricing.selected items (quantities data) in
        if (length selected =? 0)%nat then
          setSubmitError (Some no_services_message)
        else
          let payload := payload_of total data in
          created ← createLaundryRequest payload;
          match created with
          | ApiFailure e => throw e
          | ApiSuccess row =>
              insert_all (map (line_of row data) selected) ;;
              setSubmitSuccess (Some "Request submitted successfully!") ;;
              toast_show "Request submitted successfully!" success ;;
              reset
          end)
       (fun e =>
          setSubmitError (Some (message_or e "Something went wrong")) ;;
          toast_show (message_or e "Submission failed") error))
    (setSubmitLoading false).

(** The rules the form registers with react-hook-form, as the errors they
    give on a record: a required text field fails on the empty string, and
    the pattern of the email is tested on a value that is not empty. *)
Definition registered_errors (data : FormInputs) : list (string * string) :=
  (if String.eqb (fullName data) "" then [("fullName", "Full name is required")]
   else []) ++
  (if String.eqb (email data) "" then [("email", "Email is required")]
   else if JS.test Validation.PATTERNS.email (email data) then []
   else [("email", "Enter a valid email")]) ++
  (if String.eqb (phone data) "" then [("phone", "Phone number is required")]
   else []) ++
  (if String.eqb (address data) "" then [("address", "Address is required")]
   else []) ++
  (if String.eqb (pickupDate data) ""
   then [("pickupDate", "Pickup date is required")] else []).

(** [handleSubmit(onSubmit)] of react-hook-form: the registered rules are
    checked first, and the callback runs only when no field has an error. *)
Definition handleSubmit (callback : FormInputs -> M unit) (data : FormInputs)
  : M unit :=
  let errs := registered_errors data in
  setFieldErrors errs ;;
  match errs with
  | [] => callback data
  | _ :: _ => ret tt
  end.

Definition initial_ui : UI := {|
  submitError := None; submitSuccess := None; submitLoading := false;
  toasts := []; fieldErrors := []; resets := 0
|}.

Definition initial : World := {| ui := initial_ui; log := [] |}.

(** The world a computation leaves when started from [w]. *)
Definition run {A} (m : M A) (env : Env) (w : World) : World := fst (m env w).

(** The events of a log that are writes being issued. *)
Definition is_line_event (e : Event) : bool :=
  match e with
  | LineIssued _ _ | LineSettled _ _ => true
  | _ => false
  end.

Definition is_issue (e : Event) : bool :=
  match e with
  | CreateIssued _ | LineIssued _ _ => true
  | _ => false
  end.

(** ** The states a submission can leave the component in *)

(** Turned down before any write: an error text, no success text. *)
Definition ui_rejected (u : UI) (msg : string) : UI := {|
  submitError := Some msg; submitSuccess := None; submitLoading := false;
  toasts := toasts u; fieldErrors := fieldErrors u; resets := resets u
|}.

(** After an [Error] with message [e] was caught: the message (or a fixed
    text when it is empty) as the error text and in an error toast. *)
Definition ui_failed (u : UI) (e : string) : UI := {|
  submitError := Some (message_or e "Something went wrong");
  submitSuccess := None; submitLoading := false;
  toasts := toasts u ++ [(message_or e "Submission failed", error)];
  fieldErrors := fieldErrors u; resets := resets u
|}.

(** After the order and all its lines were written. *)
Definition ui_succeeded (u : UI) : UI := {|
  submitError := None;
  submitSuccess := Some "Request submitted successfully!";
  submitLoading := false;
  toasts := toasts u ++ [("Request submitted successfully!", success)];
  fieldErrors := fieldErrors u; resets := S (resets u)
|}.

(** The events of the line inserts of a submission up to the end of the
    workflow: all are issued, then they settle, up to the first failure. *)
Definition line_events (env : Env) (payloads : list RequestServiceInsert)
  : list Event :=
  map (fun '(i, p, _) => LineIssued i p) (answered env payloads) ++
  map (fun '(i, r) => LineSettled i r) (until_failure (settled env payloads)).

(** ** Sample data *)

Definition sample_service (sid price : string) : Pricing.LaundryService := {|
  Pricing.id := sid; Pricing.name := sid; Pricing.description := None;
  Pricing.price_per_item := Some price; Pricing.price_per_pound := None;
  Pricing.is_active := true; Pricing.created_at := "2025-01-01T00:00:00Z"
|}.

Definition three_services : list Pricing.LaundryService :=
  [sample_service "a" "2.50"; sample_service "b" "1"; sample_service "c" "3.10"].

(** A filled form that asks for the three services; the email is in capital
    letters and the phone number has spaces around it. *)
Definition sample_data : FormInputs := {|
  fullName := "Alex Johnson";
  email := "ALEX@EXAMPLE.COM";
  phone := " 555 123 4567 ";
  address := "12 Main Street, Springfield";
  pickupDate := "2026-11-02";
  pickupTime := morning;
  notes := None;
  quantities := {[ "a" := 4; "b" := 1; "c" := 2 ]}
|}.

(** The total the component displays for it. *)
Definition sample_total : float :=
  Pricing.total three_services (quantities sample_data).

(** The same form with no service selected. *)
Definition sample_data_empty : FormInputs := {|
  fullName := "Alex Johnson";
  email := "ALEX@EXAMPLE.COM";
  phone := " 555 123 4567 ";
  address := "12 Main Street, Springfield";
  pickupDate := "2026-11-02";
  pickupTime := morning;
  notes := None;
  quantities := ∅
|}.

Definition row_of_insert (rid : string) (p : RequestInsert) : RequestRow := {|
  id := rid;
  customer_name := ins_customer_name p;
  customer_email := ins_customer_email p;
  customer_phone := ins_customer_phone p;
  pickup_address := ins_pickup_address p;
  pickup_date := ins_pickup_date p;
  pickup_time_slot := ins_pickup_time_slot p;
  special_instructions := ins_special_instructions p;
  status := ins_status p;
  total_estimated_cost := Some (ins_total_estimated_cost p);
  internal_notes := None;
  created_at := "2026-11-01T17:00:00Z"
|}.

Definition line_row (i : nat) (p : RequestServiceInsert)
  : RequestServiceRow := {|
  rs_id := service_id p;
  rs_request_id := request_id p;
  rs_service_id := service_id p;
  rs_quantity := quantity p;
  rs_estimated_cost := Some (estimated_cost p)
|}.

(** A store that accepts every write. *)
Definition env_accepting : Env := {|
  create_reply := fun p => ApiSuccess (row_of_insert "r1" p);
  line_reply := fun i p => ApiSuccess (line_row i p);
  line_delay := fun i => i
|}.

(** A store that accepts the order and turns down its second line. *)
Definition env_line_fails : Env := {|
  create_reply := fun p => ApiSuccess (row_of_insert "r1" p);
  line_reply := fun i p =>
    if (i =? 1)%nat then ApiFailure "permission denied"
    else ApiSuccess (line_row i p);
  line_delay := fun i => i
|}.

(** The order of the sample form as that store creates it, and its three
    lines. *)
Definition sample_order : RequestRow :=
  row_of_insert "r1" (payload_of sample_total sample_data).

Definition sample_order_lines : list RequestServiceInsert :=
  map (line_of sample_order sample_data) three_services.

(** A store that turns down the order. *)
Definition env_create_fails : Env := {|
  create_reply := fun _ => ApiFailure "permission denied";
  line_reply := fun i p => ApiSuccess (line_row i p);
  line_delay := fun i => i
|}.

(** ** The readings of two claims that the workflow does not meet *)

(** Partial failure is reported apart from a clean failure: no run in which
    the order is written and a line is not leaves the component in the state
    that a run in which the order itself is turned down leaves it in. *)
Definition partial_failure_reported_apart : Prop :=
  forall (env env' : Env) (items : list Pricing.LaundryService)
         (total : float) (data : FormInputs) (row : RequestRow)
         (i : nat) (e e' : string),
    create_reply env (payload_of total data) = ApiSuccess row ->
    line_reply env i
      <$> (map (line_of row data)
             (Pricing.selected items (quantities data)) !! i)
      = Some (ApiFailure e) ->
    create_reply env' (payload_of total data) = ApiFailure e' ->
    ui (run (onSubmit items total data) env initial)
      <> ui (run (onSubmit items total data) env' initial).


End Submission.

(** * Request management ([components/admin/RequestManagement.tsx]) *)

Module Admin.

Import Store.

(** ** Batch status update *)

(** The rows of [laundry_requests], by id. *)
Abbreviation Db := (gmap string RequestRow).

Definition apply_patch (p : RequestPatch) (r : RequestRow) : RequestRow := {|
  id := id r;
  customer_name := customer_name r;
  customer_email := customer_email r;
  customer_phone := customer_phone r;
  pickup_address := pickup_address r;
  pickup_date := pickup_date r;
  pickup_time_slot := pickup_time_slot r;
  special_instructions := special_instructions r;
  status := match patch_status p with Some st => st | None => status r end;
  total_estimated_cost := total_estimated_cost r;
  internal_notes := match patch_internal_notes p with
                    | Some n => Some n
                    | None => internal_notes r
                    end;
  created_at := created_at r
|}.

(** The store's side of [update(...).eq('id', id).select('*').single()]: the
    write of one row either fails, for a reason of the store's
    ([rejects id]) or because no row has the id, and changes nothing, or it
    succeeds, changes that row alone and returns it. *)
Definition store_update (rejects : string -> option string)
  (rid : string) (p : RequestPatch) (db : Db) : Db * ApiResponse RequestRow :=
  match rejects rid with
  | Some e => (db, ApiFailure e)
  | None =>
      match db !! rid with
      | Some r => (<[rid := apply_patch p r]> db, ApiSuccess (apply_patch p r))
      | None => (db, ApiFailure "JSON object requested, multiple (or no) rows returned")
      end
  end.

Inductive ToastType : Type := success | error | info.

(** What the store sees of the page: the update of a row being issued
    and answered, and the two reads of [loadRequests]. *)
Inductive Event : Type :=
  | UpdateIssued (rid : string) (p : RequestPatch)
  | UpdateSettled (rid : string) (r : ApiResponse RequestRow)
  | RequestsLoaded.

(** The answer [{ data, error }] of a read of the store: the rows (no rows
    when [data] is [null]), or the message of the error. *)
Inductive ReadResult (T : Type) : Type :=
  | ReadData (data : list T)
  | ReadError (message : string).
Arguments ReadData {T} data.
Arguments ReadError {T} message.

(** What the two reads of [loadRequests] come back with: the requests, read
    from the store as it is at that time, and the id and name of every
    service. *)
Record Reads := {
  requestsRes : Db -> ReadResult RequestRow;
  servicesRes : ReadResult (string * string)
}.

(** The state of the component and of the store around it. *)
Record World := {
  loading : bool;
  requests : list RequestRow;
  serviceMap : gmap string string;
  selectedRequests : list string;
  batchStatus : Status;
  batchNotes : string;
  showBatchPanel : bool;
  toasts : list (string * ToastType);
  db : Db;
  log : list Event
}.

(** [String(x || fallback)] for a string [x] that may be [null]: the empty
    string is falsy too. *)
Definition or_text (x : option string) (fallback : string) : string :=
  match x with
  | Some s => if String.eqb s "" then fallback else s
  | None => fallback
  end.

(** The message of the [Error] that [loadRequests] throws to its own
    [catch], if any: the error of the requests read, else that of the
    services read. *)
Definition load_error (reads : Reads) (d : Db) : option string :=
  match requestsRes reads d, servicesRes reads with
  | ReadError e, _ => Some e
  | ReadData _, ReadError e => Some e
  | ReadData _, ReadData _ => None
  end.

(** The [map] that [loadRequests] builds from the services read, keyed by
    the ids of the services, which are uuids. *)
Definition service_map (services : list (string * string))
  : gmap string string :=
  fold_left (fun m s => <[fst s := snd s]> m) services ∅.

(** [loadRequests()]: both reads are issued together; an error of either
    is thrown and caught in the function itself, which shows it in a toast;
    otherwise the list and the service map are replaced; the loading flag
    is cleared in each case. *)
Definition loadRequests (reads : Reads) (w : World) : World :=
  match requestsRes reads (db w), servicesRes reads with
  | ReadData rows, ReadData services =>
      {| loading := false;
         requests := rows;
         serviceMap := service_map services;
         selectedRequests := selectedRequests w;
         batchStatus := batchStatus w;
         batchNotes := batchNotes w;
         showBatchPanel := showBatchPanel w;
         toasts := toasts w;
         db := db w;
         log := (log w ++ [RequestsLoaded])%list |}
  | ReadError e, _ | ReadData _, ReadError e =>
      {| loading := false;
         requests := requests w;
         serviceMap := serviceMap w;
         selectedRequests := selectedRequests w;
         batchStatus := batchStatus w;
         batchNotes := batchNotes w;
         showBatchPanel := showBatchPanel w;
         toasts :=
           (toasts w ++
              [(or_text (Some e) "Failed to load requests", error)])%list;
         db := db w;
         log := (log w ++ [RequestsLoaded])%list |}
  end.

(** [updateRequest(id, patch)] settling against the store. *)
Definition settle_update (rejects : string -> option string)
  (p : RequestPatch) (acc : Db * list (ApiResponse RequestRow)) (rid : string)
  : Db * list (ApiResponse RequestRow) :=
  let '(d, results) := acc in
  let '(d', r) := store_update rejects rid p d in
  (d', (results ++ [r])%list).

(** [await Promise.all(ids.map(id => updateRequest(id, patch)))]: the
    answers in the order of the ids, and the store after the writes.  The
    writes are on different rows, so the order in which they settle does not
    show in either. *)
Definition update_all (rejects : string -> option string)
  (p : RequestPatch) (ids : list string) (d : Db)
  : Db * list (ApiResponse RequestRow) :=
  fold_left (settle_update rejects p) ids (d, []).

(** The decimal text of a count, as a template literal inserts it. *)
Definition count_text (n : nat) : string := JS.Number_toString (JS.of_nat n).

(** [`Updated ${n} requests successfully`]. *)
Definition success_text (n : nat) : string :=
  "Updated " ++ count_text n ++ " requests successfully".

(** [`Updated ${updated} requests, ${failed} failed`]. *)
Definition failure_text (updated failed : nat) : string :=
  "Updated " ++ count_text updated ++ " requests, " ++ count_text failed
    ++ " failed".

(** [handleBatchStatusUpdate()].  [updateRequest] answers a failure with
    [{ ok: false, error }] and does not throw, and [loadRequests] catches
    its own errors, so the [catch] of the function is not entered. *)
Definition handleBatchStatusUpdate (rejects : string -> option string)
  (reads : Reads) (w : World) : World :=
  if (length (selectedRequests w) =? 0)%nat then w
  else
    let patch := {|
      patch_status := Some (batchStatus w);
      patch_internal_notes :=
        if String.eqb (batchNotes w) "" then None else Some (batchNotes w)
    |} in
    let ids := selectedRequests w in
    let '(d', results) := update_all rejects patch ids (db w) in
    let issued := map (fun rid => UpdateIssued rid patch) ids in
    let settled :=
      map (fun '(rid, r) => UpdateSettled rid r) (zip ids results) in
    let failed := List.filter (fun r => negb (ok r)) results in
    if (length failed =? 0)%nat then
      loadRequests reads
        {| loading := loading w;
           requests := requests w;
           serviceMap := serviceMap w;
           selectedRequests := [];
           batchStatus := batchStatus w;
           batchNotes := "";
           showBatchPanel := false;
           toasts := (toasts w ++
             [(success_text (length (selectedRequests w)), success)])%list;
           db := d';
           log := (log w ++ issued ++ settled)%list |}
    else
      {| loading := loading w;
         requests := requests w;
         serviceMap := serviceMap w;
         selectedRequests := selectedRequests w;
         batchStatus := batchStatus w;
         batchNotes := batchNotes w;
         showBatchPanel := showBatchPanel w;
         toasts := (toasts w ++
           [(failure_text (length results - length failed) (length failed),
             error)])%list;
         db := d';
         log := (log w ++ issued ++ settled)%list |}.

(** The toast a failing reload adds behind that of a batch update. *)
Definition reload_toasts (reads : Reads) (d : Db)
  : list (string * ToastType) :=
  match load_error reads d with
  | Some e => [(or_text (Some e) "Failed to load requests", error)]
  | None => []
  end.

(** What the user is told of a batch update, and what the component keeps of
    it. *)
Definition outcome (w : World)
  : list (string * ToastType) * list string * bool * string :=
  (toasts w, selectedRequests w, showBatchPanel w, batchNotes w).

(** ** CSV export *)

Definition headers : list string := [
  "ID"; "Customer Name"; "Customer Email"; "Customer Phone"; "Pickup Date";
  "Pickup Time"; "Pickup Address"; "Status"; "Total Cost";
  "Special Instructions"; "Internal Notes"; "Created At"
].

(** The fields of one request, as text.  [toLocaleString] stands for
    [new Date(created_at).toLocaleString()], which depends on the host's
    locale. *)
Definition row_of (toLocaleString : string -> string) (request : RequestRow)
  : list string := [
  id request;
  customer_name request;
  customer_email request;
  customer_phone request;
  pickup_date request;
  pickup_time_slot request;
  pickup_address request;
  Status_toString (status request);
  or_text (total_estimated_cost request) "0";
  or_text (special_instructions request) "";
  or_text (internal_notes request) "";
  toLocaleString (created_at request)
].

(** The [replace] of the export: every double quote of the field becomes
    two. *)
Fixpoint double_quotes (l : list ascii) : list ascii :=
  match l with
  | [] => []
  | c :: l' =>
      if Ascii.eqb c JS.dquote then JS.dquote :: JS.dquote :: double_quotes l'
      else c :: double_quotes l'
  end.

(** The text of one field: the value between quotes, its quotes doubled. *)
Definition quote_field (field : string) : list ascii :=
  (JS.dquote :: double_quotes (JS.chars field) ++ [JS.dquote])%list.

(** [parts.join(sep)]. *)
Fixpoint join (sep : ascii) (parts : list (list ascii)) : list ascii :=
  match parts with
  | [] => []
  | [p] => p
  | p :: rest => (p ++ sep :: join sep rest)%list
  end.

Definition comma : ascii := ","%char.
Definition newline : ascii := "010"%char.

Definition csv_of (table : list (list string)) : list ascii :=
  join newline (map (fun row => join comma (map quote_field row)) table).

(** The [csvContent] of [exportToCSV(requests)]. *)
Definition csvContent (toLocaleString : string -> string)
  (requests : list RequestRow) : string :=
  JS.str (csv_of (headers :: map (row_of toLocaleString) requests)).

(** A reader of CSV text in the usual convention: fields are separated by
    commas and records by line feeds; a field that starts with a quote runs
    to the next quote that is not doubled, and a doubled quote in it stands
    for one quote. *)
Inductive ParseState : Type := FieldStart | Unquoted | Quoted | QuoteSeen.

Fixpoint parse_csv (st : ParseState) (field : list ascii)
  (row : list string) (rows : list (list string)) (input : list ascii)
  : list (list string) :=
  let end_field := (row ++ [JS.str field])%list in
  match input with
  | [] => (rows ++ [end_field])%list
  | c :: rest =>
      match st with
      | Quoted =>
          if Ascii.eqb c JS.dquote then parse_csv QuoteSeen field row rows rest
          else parse_csv Quoted (field ++ [c])%list row rows rest
      | QuoteSeen =>
          if Ascii.eqb c JS.dquote
          then parse_csv Quoted (field ++ [c])%list row rows rest
          else if Ascii.eqb c comma
          then parse_csv FieldStart [] end_field rows rest
          else if Ascii.eqb c newline
          then parse_csv FieldStart [] [] (rows ++ [end_field])%list rest
          else parse_csv Unquoted (field ++ [c])%list row rows rest
      | FieldStart =>
          if Ascii.eqb c JS.dquote then parse_csv Quoted field row rows rest
          else if Ascii.eqb c comma
          then parse_csv FieldStart [] end_field rows rest
          else if Ascii.eqb c newline
          then parse_csv FieldStart [] [] (rows ++ [end_field])%list rest
          else parse_csv Unquoted (field ++ [c])%list row rows rest
      | Unquoted =>
          if Ascii.eqb c comma
          then parse_csv FieldStart [] end_field rows rest
          else if Ascii.eqb c newline
          then parse_csv FieldStart [] [] (rows ++ [end_field])%list rest
          else parse_csv Unquoted (field ++ [c])%list row rows rest
      end
  end.

Definition parseCSV (text : string) : list (list string) :=
  parse_csv FieldStart [] [] [] (JS.chars text).

(** ** Sample data and the reading of a claim *)

(** The events that are a write being issued. *)
Definition is_update_issue (e : Event) : bool :=
  match e with UpdateIssued _ _ => true | _ => false end.

(** Whether the store accepts the write of a row: it has no reason to turn
    it down and the row exists. *)
Definition accepted (rejects : string -> option string) (d : Db)
  (rid : string) : bool :=
  match rejects rid, d !! rid with
  | None, Some _ => true
  | _, _ => false
  end.

(** The patch [handleBatchStatusUpdate] sends for every selected row. *)
Definition batch_patch (w : World) : RequestPatch := {|
  patch_status := Some (batchStatus w);
  patch_internal_notes :=
    if String.eqb (batchNotes w) "" then None else Some (batchNotes w)
|}.

Definition sample_row (rid : string) : RequestRow := {|
  id := rid;
  customer_name := "Alex Johnson";
  customer_email := "alex@example.com";
  customer_phone := "(555) 123-4567";
  pickup_address := "12 Main Street, Springfield";
  pickup_date := "2026-11-02";
  pickup_time_slot := "Morning 8-12";
  special_instructions :=
    Some (JS.str (JS.chars "Ring twice, say " ++ JS.dquote :: JS.chars "laundry"
                    ++ [JS.dquote])%list);
  status := pending;
  total_estimated_cost := Some "17.20";
  internal_notes := None;
  created_at := "2026-11-01T17:00:00Z"
|}.

(** Three orders selected for a change of status to [confirmed]. *)
Definition sample_world : World := {|
  loading := false;
  requests := [sample_row "1"; sample_row "2"; sample_row "3"];
  serviceMap := ∅;
  selectedRequests := ["1"; "2"; "3"];
  batchStatus := confirmed;
  batchNotes := "";
  showBatchPanel := true;
  toasts := [];
  db := {[ "1" := sample_row "1"; "2" := sample_row "2";
           "3" := sample_row "3" ]};
  log := []
|}.

(** A store that turns down the write of one row, for a given reason. *)
Definition rejecting (rid reason : string) (x : string) : option string :=
  if String.eqb x rid then Some reason else None.

(** Reads that come back with the three orders and no service. *)
Definition reads_ok : Reads := {|
  requestsRes := fun _ => ReadData [sample_row "1"; sample_row "2";
                                    sample_row "3"];
  servicesRes := ReadData []
|}.

(** Reads of which the first fails, for a given reason. *)
Definition reads_failing (reason : string) : Reads := {|
  requestsRes := fun _ => ReadError reason;
  servicesRes := ReadData []
|}.

(** The outcome of a batch update tells, for every selected row, whether
    its write failed and why: two stores that leave the same outcome turned
    down the same rows for the same reasons. *)
Definition outcome_tells_failures : Prop :=
  forall (rejects rejects' : string -> option string) (reads : Reads)
         (w : World),
    NoDup (selectedRequests w) ->
    outcome (handleBatchStatusUpdate rejects reads w)
      = outcome (handleBatchStatusUpdate rejects' reads w) ->
    forall rid, rid ∈ selectedRequests w -> rejects rid = rejects' rid.

End Admin.

(** * The language of a pattern *)

Module Language.

Import JS.

(** The strings a pattern matches from its first to its last character. *)
Inductive matches : regex -> list ascii -> Prop :=
  | matches_empty : matches Empty []
  | matches_class p c : p c = true -> matches (Class p) [c]
  | matches_cat r1 r2 l1 l2 :
      matches r1 l1 -> matches r2 l2 -> matches (Cat r1 r2) (l1 ++ l2)
  | matches_or_l r1 r2 l : matches r1 l -> matches (Or r1 r2) l
  | matches_or_r r1 r2 l : matches r2 l -> matches (Or r1 r2) l
  | matches_many_nil r : matches (Many r) []
  | matches_many_cons r l1 l2 :
      matches r l1 -> matches (Many r) l2 -> matches (Many r) (l1 ++ l2).

(** The character classes of a pattern all have a property. *)
Fixpoint classes (P : (ascii -> bool) -> Prop) (r : regex) : Prop :=
  match r with
  | Never | Empty => True
  | Class p => P p
  | Cat r1 r2 | Or r1 r2 => classes P r1 /\ classes P r2
  | Many r1 => classes P r1
  end.

End Language.

(** * The validators of single values ([lib/validation.ts]) *)

Module Validators.

Import Validation.

(** [validateEmail(email)]. *)
Definition validateEmail (email : string) : FieldValidationResult :=
  validateField (VStr email) {|
    required := true; minLength := None; maxLength := None;
    pattern := Some PATTERNS.email; min := None; max := None;
    custom := None; message := Some MESSAGES.email
  |}.

(** [validatePhone(phone)]. *)
Definition validatePhone (phone : string) : FieldValidationResult :=
  validateField (VStr phone) {|
    required := true; minLength := None; maxLength := None;
    pattern := Some PATTERNS.phoneUS; min := None; max := None;
    custom := None; message := Some MESSAGES.phone
  |}.

(** [validateName(name)]. *)
Definition validateName (name : string) : FieldValidationResult :=
  validateField (VStr name) {|
    required := true; minLength := Some 2%float; maxLength := Some 100%float;
    pattern := Some PATTERNS.name; min := None; max := None;
    custom := None; message := Some "Please enter a valid name"
  |}.

(** [validateAddress(address)]. *)
Definition validateAddress (address : string) : FieldValidationResult :=
  validateField (VStr address) {|
    required := true; minLength := Some 10%float; maxLength := Some 200%float;
    pattern := Some PATTERNS.address; min := None; max := None;
    custom := None; message := Some "Please enter a valid address"
  |}.

(** The [custom] function of [validateFutureDate]. *)
Definition future_date_custom (h : Host) (v : value) : option string :=
  let inputDate := Date_of (host_parse h) v in
  let today := JS.setHours0 (zone h) (now h) in
  match inputDate with
  | None => Some "Please enter a valid date"
  | Some t =>
      if match today with Some t0 => (t <? t0)%Z | None => false end
      then Some MESSAGES.futureDate
      else None
  end.

(** [validateFutureDate(date)]. *)
Definition validateFutureDate (h : Host) (date : string)
  : FieldValidationResult :=
  validateField (VStr date) {|
    required := true; minLength := None; maxLength := None;
    pattern := None; min := None; max := None;
    custom := Some (future_date_custom h); message := None
  |}.

(** The values [validateField] turns down under [required]: nothing, or
    text that is empty once trimmed. *)
Definition empty_input (v : value) : Prop :=
  is_blank v = true \/ JS.trim (String_of v) = "".

(** A record with one field. *)
Definition only (k : string) (v : value) : gmap string value := {[ k := v ]}.

End Validators.

(** * The quantity controls and price labels ([ServiceSelector]) *)

Module Selector.

Import Pricing.
Local Open Scope float_scope.

(** The number of an integer below [2^53]. *)
Definition of_int (n : Z) : float := of_uint63 (Uint63.of_Z n).

(** [Math.floor]: a number with no fractional part is its own floor;
    otherwise the integer part of the magnitude is taken, and one more for a
    negative number. *)
Definition Math_floor (x : float) : float :=
  match Prim2SF x with
  | S754_finite sg m e =>
      if (0 <=? e)%Z then x
      else
        let den := (2 ^ (- e))%Z in
        let q := (Zpos m / den)%Z in
        if (Zpos m mod den =? 0)%Z then x
        else if sg then - of_int (q + 1)
        else of_int q
  | _ => x
  end.

(** [Number(value?.[serviceId] || 0)]. *)
Definition current (value : ServiceQuantities) (serviceId : string) : float :=
  match value !! serviceId with
  | Some q => if JS.truthy q then q else 0
  | None => 0
  end.

(** [setQuantity(serviceId, nextQty)]: the mapping handed to [onChange]. *)
Definition setQuantity (value : ServiceQuantities) (serviceId : string)
  (nextQty : float) : ServiceQuantities :=
  let safeQty :=
    JS.Math_max 0 (Math_floor (if JS.truthy nextQty then nextQty else 0)) in
  let next := <[serviceId := safeQty]> value in
  if safeQty =? 0 then delete serviceId next else next.

(** [inc(serviceId)]. *)
Definition inc (value : ServiceQuantities) (serviceId : string)
  : ServiceQuantities :=
  setQuantity value serviceId (current value serviceId + 1).

(** [dec(serviceId)]. *)
Definition dec (value : ServiceQuantities) (serviceId : string)
  : ServiceQuantities :=
  setQuantity value serviceId (JS.Math_max 0 (current value serviceId - 1)).

(** [s.price ? Number(s.price) : null]: an empty text is falsy. *)
Definition price_or_null (price : option string) : option float :=
  match price with
  | Some p => if String.eqb p "" then None else Some (JS.Number_of_string p)
  | None => None
  end.

(** The price label of a service.  [formatCurrency] is the host's
    [Intl.NumberFormat] for US dollars. *)
Definition displayPrice (formatCurrency : float -> string)
  (s : LaundryService) : string :=
  let priceItem := price_or_null (price_per_item s) in
  let pricePound := price_or_null (price_per_pound s) in
  match priceItem with
  | Some p => formatCurrency p ++ " per item"
  | None =>
      match pricePound with
      | Some p => formatCurrency p ++ " per lb"
      | None => "Contact for pricing"
      end
  end.

End Selector.

(** * The request list: filters, selection and single edits
    ([components/admin/RequestManagement.tsx]) *)

Module Requests.

Import Store Admin.

(** ** The filters *)

(** Whether a text starts with another. *)
Fixpoint starts_with (t l : list ascii) : bool :=
  match t, l with
  | [], _ => true
  | c :: t', d :: l' => Ascii.eqb c d && starts_with t' l'
  | _ :: _, [] => false
  end.

Fixpoint includes_chars (l t : list ascii) : bool :=
  starts_with t l ||
  match l with
  | [] => false
  | _ :: l' => includes_chars l' t
  end.

(** [s.includes(t)]. *)
Definition includes (s t : string) : bool :=
  includes_chars (JS.chars s) (JS.chars t).

(** [a === b] on two statuses. *)
Definition Status_eqb (a b : Status) : bool :=
  String.eqb (Status_toString a) (Status_toString b).

(** The state of the three filters; the status filter [None] is ['all']. *)
Record Filters := {
  statusFilter : option Status;
  dateFilter : string;
  searchTerm : string
}.

(** The predicate of [requests.filter(...)] in [filteredRequests]. *)
Definition keeps (f : Filters) (request : RequestRow) : bool :=
  if match statusFilter f with
     | Some st => negb (Status_eqb (status request) st)
     | None => false
     end
  then false
  else if negb (String.eqb (dateFilter f) "")
          && negb (String.eqb (pickup_date request) (dateFilter f))
  then false
  else if negb (String.eqb (searchTerm f) "") then
    let term := JS.toLowerCase (searchTerm f) in
    includes (JS.toLowerCase (customer_name request)) term
    || includes (JS.toLowerCase (customer_email request)) term
    || includes (customer_phone request) term
    || includes (JS.toLowerCase (id request)) term
  else true.

Definition filteredRequests (f : Filters) (requests : list RequestRow)
  : list RequestRow :=
  List.filter (keeps f) requests.

(** The filters as the page opens. *)
Definition no_filters : Filters :=
  {| statusFilter := None; dateFilter := ""; searchTerm := "" |}.

(** ** The selection

    A [Set] of ids is the list of its members in the order of insertion. *)

Definition Set_has (s : list string) (x : string) : bool :=
  existsb (String.eqb x) s.

Definition Set_add (s : list string) (x : string) : list string :=
  if Set_has s x then s else (s ++ [x])%list.

Definition Set_delete (s : list string) (x : string) : list string :=
  List.filter (fun y => negb (String.eqb x y)) s.

(** [new Set(ids)]. *)
Definition Set_of (ids : list string) : list string :=
  fold_left Set_add ids [].

(** [handleSelectAll()]: the next selection. *)
Definition handleSelectAll (selectedRequests : list string)
  (filtered : list RequestRow) : list string :=
  if (length selectedRequests =? length filtered)%nat then []
  else Set_of (map id filtered).

(** [handleSelectRequest(requestId)]: the next selection. *)
Definition handleSelectRequest (selectedRequests : list string)
  (requestId : string) : list string :=
  if Set_has selectedRequests requestId
  then Set_delete selectedRequests requestId
  else Set_add selectedRequests requestId.

(** ** Editing one request *)

(** [StatusUpdateEmailData]. *)
Record StatusUpdateEmailData := {
  customerName : string;
  customerEmail : string;
  requestId : string;
  email_status : Status;
  pickupDate : string;
  pickupTime : string;
  totalCost : float;
  specialInstructions : option string
}.

(** What [sendStatusUpdateEmail] resolves to: [{ success: true }] or
    [{ success: false, error? }]. *)
Inductive EmailResult : Type :=
  | EmailSent
  | EmailNotSent (error : option string).

(** The store and the mail service as the page meets them. *)
Record Services := {
  rejects : string -> option string;
  email_reply : StatusUpdateEmailData -> EmailResult
}.

(** The state of the page and of the store around it. *)
Record Page := {
  requests : list RequestRow;
  page_toasts : list (string * ToastType);
  page_db : Db;
  emails : list StatusUpdateEmailData;
  editingRequest : option string;
  editNotes : string;
  editStatus : Status
}.

(** [Number(request.total_estimated_cost || 0)]. *)
Definition cost_number (c : option string) : float :=
  match c with
  | Some s => if String.eqb s "" then 0%float else JS.Number_of_string s
  | None => 0%float
  end.

(** The data [sendStatusUpdateNotification(request, status)] hands to the
    mail service; an empty text of special instructions is left out. *)
Definition notification_of (request : RequestRow) (st : Status)
  : StatusUpdateEmailData := {|
  customerName := customer_name request;
  customerEmail := customer_email request;
  requestId := id request;
  email_status := st;
  pickupDate := pickup_date request;
  pickupTime := pickup_time_slot request;
  totalCost := cost_number (total_estimated_cost request);
  specialInstructions :=
    match special_instructions request with
    | Some s => if String.eqb s "" then None else Some s
    | None => None
    end
|}.

(** [sendStatusUpdateNotification]: the message of the [Error] it throws, if
    any. *)
Definition sendStatusUpdateNotification (sv : Services)
  (request : RequestRow) (st : Status) : option string :=
  match email_reply sv (notification_of request st) with
  | EmailSent => None
  | EmailNotSent e => Some (or_text e "Failed to send email")
  end.

Definition show (p : Page) (m : string) (t : ToastType) : Page := {|
  requests := requests p;
  page_toasts := (page_toasts p ++ [(m, t)])%list;
  page_db := page_db p;
  emails := emails p;
  editingRequest := editingRequest p;
  editNotes := editNotes p;
  editStatus := editStatus p
|}.

(** [req.id === requestId ? { ...req, ...updates } : req]. *)
Definition patch_local (rid : string) (updates : RequestPatch)
  (req : RequestRow) : RequestRow :=
  if String.eqb (id req) rid then apply_patch updates req else req.

(** [updateSingleRequest(requestId, updates)]. *)
Definition updateSingleRequest (sv : Services) (rid : string)
  (updates : RequestPatch) (p : Page) : Page :=
  match store_update (rejects sv) rid updates (page_db p) with
  | (_, ApiFailure e) =>
      show p (or_text (Some e) "Failed to update request") error
  | (d', ApiSuccess _) =>
      let p1 := {|
        requests := map (patch_local rid updates) (requests p);
        page_toasts := page_toasts p;
        page_db := d';
        emails := emails p;
        editingRequest := editingRequest p;
        editNotes := editNotes p;
        editStatus := editStatus p
      |} in
      let p2 := show p1 "Request updated successfully" success in
      match patch_status updates with
      | Some st =>
          match List.find (fun r => String.eqb (id r) rid) (requests p) with
          | Some request =>
              let p3 := {|
                requests := requests p2;
                page_toasts := page_toasts p2;
                page_db := page_db p2;
                emails := (emails p2 ++ [notification_of request st])%list;
                editingRequest := editingRequest p2;
                editNotes := editNotes p2;
                editStatus := editStatus p2
              |} in
              match sendStatusUpdateNotification sv request st with
              | None => show p3 "Status update email sent" success
              | Some m =>
                  show p3 ("Status updated but email failed: " ++ m) error
              end
          | None => p2
          end
      | None => p2
      end
  end.



End Requests.

(** * Facts about binary64 arithmetic *)

Module FloatFacts.

Local Open Scope float_scope.

Lemma SFcompare_finite_refl s m e :
  SFcompare (S754_finite s m e) (S754_finite s m e) = Some Eq.
Proof.
  simpl. destruct s; rewrite Z.compare_refl, Pos.compare_cont_refl;
    reflexivity.
Qed.

Lemma is_nan_spec x :
  is_nan x = match Prim2SF x with S754_nan => true | _ => false end.
Proof.
  unfold is_nan. rewrite FloatAxioms.eqb_spec. unfold SFeqb.
  destruct (Prim2SF x) as [s|s| |s m e]; try reflexivity.
  - destruct s; reflexivity.
  - rewrite SFcompare_finite_refl. reflexivity.
Qed.

Lemma is_zero_spec x :
  is_zero x = match Prim2SF x with S754_zero _ => true | _ => false end.
Proof.
  unfold is_zero. rewrite FloatAxioms.eqb_spec.
  change (Prim2SF zero) with (S754_zero false).
  destruct (Prim2SF x) as [s|s| |s m e]; try reflexivity;
    destruct s; reflexivity.
Qed.

Lemma is_infinity_spec x :
  is_infinity x = match Prim2SF x with S754_infinity _ => true | _ => false end.
Proof.
  unfold is_infinity. rewrite FloatAxioms.eqb_spec, abs_spec.
  change (Prim2SF infinity) with (S754_infinity false).
  destruct (Prim2SF x) as [s|s| |s m e]; reflexivity.
Qed.

(** The shapes a finite number can take. *)
Lemma is_finite_cases x :
  is_finite x = true ->
  (exists s, Prim2SF x = S754_zero s) \/
  (exists s m e, Prim2SF x = S754_finite s m e).
Proof.
  unfold is_finite. rewrite is_nan_spec, is_infinity_spec.
  destruct (Prim2SF x) as [s|s| |s m e]; simpl; try discriminate; eauto.
Qed.

Lemma pos_not_falsy q :
  (0 <? q) = true -> is_nan q = false /\ is_zero q = false.
Proof.
  rewrite ltb_spec, is_nan_spec, is_zero_spec.
  change (Prim2SF 0) with (S754_zero false).
  destruct (Prim2SF q) as [s|s| |s m e]; simpl; try discriminate; auto.
Qed.

Lemma zero_not_pos q : is_zero q = true -> (0 <? q) = false.
Proof.
  rewrite ltb_spec, is_zero_spec.
  change (Prim2SF 0) with (S754_zero false).
  destruct (Prim2SF q) as [s|s| |s m e]; simpl; try discriminate; auto.
Qed.

Lemma nan_not_pos q : is_nan q = true -> (0 <? q) = false.
Proof.
  rewrite ltb_spec, is_nan_spec.
  destruct (Prim2SF q) as [s|s| |s m e]; simpl; try discriminate; auto.
Qed.

Lemma neg_not_pos q : (q <? 0) = true -> (0 <? q) = false.
Proof.
  rewrite !ltb_spec. change (Prim2SF 0) with (S754_zero false).
  destruct (Prim2SF q) as [s|s| |s m e]; simpl; try discriminate; auto;
    destruct s; simpl; try discriminate; auto.
Qed.

Lemma neg_not_nan q : (q <? 0) = true -> is_nan q = false.
Proof.
  rewrite ltb_spec, is_nan_spec.
  destruct (Prim2SF q) as [s|s| |s m e]; simpl; try discriminate; auto.
Qed.

(** Zero times a finite number is a zero. *)
Lemma zero_mul_finite z p :
  is_zero z = true -> is_finite p = true -> is_zero (z * p) = true.
Proof.
  intros Hz Hp. rewrite is_zero_spec in Hz. rewrite is_zero_spec, mul_spec.
  unfold SF64mul.
  destruct (Prim2SF z) as [sz| | |]; try discriminate.
  destruct (is_finite_cases p Hp) as [[s ->]|(s & m & e & ->)]; reflexivity.
Qed.

(** Zero times a number that is not finite is [NaN]. *)
Lemma zero_mul_not_finite z p :
  is_zero z = true -> is_finite p = false -> is_nan (z * p) = true.
Proof.
  intros Hz Hp. rewrite is_zero_spec in Hz. rewrite is_nan_spec, mul_spec.
  unfold SF64mul. unfold is_finite in Hp.
  rewrite is_nan_spec, is_infinity_spec in Hp.
  destruct (Prim2SF z) as [sz| | |]; try discriminate.
  destruct (Prim2SF p) as [s|s| |s m e]; simpl in Hp; try discriminate;
    reflexivity.
Qed.

(** The product does not depend on which zero is multiplied, up to the sign
    of a zero result. *)
Lemma zero_mul_same z z' p :
  is_zero z = true -> is_zero z' = true ->
  Pricing.same_number (z * p) (z' * p).
Proof.
  intros Hz Hz'. rewrite is_zero_spec in Hz, Hz'.
  unfold Pricing.same_number. rewrite !is_zero_spec, !mul_spec.
  unfold SF64mul.
  destruct (Prim2SF z) as [sz| | |] eqn:Ez; try discriminate.
  destruct (Prim2SF z') as [sz'| | |] eqn:Ez'; try discriminate.
  destruct (Prim2SF p) as [s|s| |s m e] eqn:Ep; simpl; auto;
    left; apply Prim2SF_inj; rewrite !mul_spec, Ez, Ez', Ep; reflexivity.
Qed.

(** Adding a zero leaves a number unchanged, up to the sign of zero. *)
Lemma add_zero_same acc z :
  is_zero z = true -> Pricing.same_number (acc + z) acc.
Proof.
  intros Hz. rewrite is_zero_spec in Hz. unfold Pricing.same_number.
  rewrite !is_zero_spec, add_spec. unfold SF64add.
  destruct (Prim2SF z) as [sz| | |] eqn:Ez; try discriminate.
  destruct (Prim2SF acc) as [s|s| |s m e] eqn:Ea; simpl.
  - right. destruct s, sz; auto.
  - left. apply Prim2SF_inj. rewrite add_spec, Ez, Ea. reflexivity.
  - left. apply Prim2SF_inj. rewrite add_spec, Ez, Ea. reflexivity.
  - left. apply Prim2SF_inj. rewrite add_spec, Ez, Ea. reflexivity.
Qed.

(** Addition respects [same_number] in its first argument. *)
Lemma add_same_l a a' x :
  Pricing.same_number a a' -> Pricing.same_number (a + x) (a' + x).
Proof.
  intros [->|[Ha Ha']]; [left; reflexivity|].
  rewrite is_zero_spec in Ha, Ha'. unfold Pricing.same_number.
  rewrite !is_zero_spec, !add_spec. unfold SF64add.
  destruct (Prim2SF a) as [sa| | |] eqn:Ea; try discriminate.
  destruct (Prim2SF a') as [sa'| | |] eqn:Ea'; try discriminate.
  destruct (Prim2SF x) as [s|s| |s m e] eqn:Ex; simpl.
  - right. destruct sa, sa', s; auto.
  - left. apply Prim2SF_inj. rewrite !add_spec, Ea, Ea', Ex. reflexivity.
  - left. apply Prim2SF_inj. rewrite !add_spec, Ea, Ea', Ex. reflexivity.
  - left. apply Prim2SF_inj. rewrite !add_spec, Ea, Ea', Ex. reflexivity.
Qed.

Lemma same_number_refl x : Pricing.same_number x x.
Proof. left; reflexivity. Qed.

Lemma same_number_trans x y z :
  Pricing.same_number x y -> Pricing.same_number y z ->
  Pricing.same_number x z.
Proof.
  intros [->|[H1 H2]] [->|[H3 H4]]; unfold Pricing.same_number; auto.
Qed.

(** [Math.max(0, q)] keeps a positive [q] and maps everything else that is
    not [NaN] to [+0]. *)
Lemma Math_max_0 q :
  JS.Math_max 0 q = if is_nan q then nan else if 0 <? q then q else 0.
Proof.
  unfold JS.Math_max.
  change (is_nan 0) with false. change (is_zero 0 && get_sign 0)%bool with false.
  simpl. destruct (is_nan q); [reflexivity|].
  destruct (0 <? q); [reflexivity|]. destruct (q <? 0); reflexivity.
Qed.

End FloatFacts.

(** * Facts about the string operations *)

Module JSFacts.

Import JS.
Local Open Scope list_scope.

Lemma chars_str l : chars (str l) = l.
Proof. apply list_ascii_of_string_of_list_ascii. Qed.

Lemma str_chars s : str (chars s) = s.
Proof. apply string_of_list_ascii_of_string. Qed.

Lemma str_nonempty l : l <> [] -> str l <> ""%string.
Proof. destruct l; [congruence|discriminate]. Qed.

(** [trim_start] removes a prefix of white space and stops at the first
    character that is not white space. *)
Lemma trim_start_spec l :
  exists pre,
    l = pre ++ trim_start l /\
    Forall (fun c => is_space c = true) pre /\
    (forall c l', trim_start l = c :: l' -> is_space c = false).
Proof.
  induction l as [|c l (pre & Hl & Hpre & Hhead)].
  - exists []. repeat split; [constructor|discriminate].
  - simpl. destruct (is_space c) eqn:Hc.
    + exists (c :: pre). repeat split.
      * simpl. congruence.
      * constructor; assumption.
      * exact Hhead.
    + exists []. repeat split; [constructor|].
      intros c' l' [= <- _]. exact Hc.
Qed.

Lemma trim_start_In l c :
  In c l -> is_space c = false -> In c (trim_start l).
Proof.
  induction l as [|x l IH]; [intros []|].
  intros [->|Hin] Hc; simpl.
  - rewrite Hc. left. reflexivity.
  - destruct (is_space x); [apply IH; assumption|right; exact Hin].
Qed.

Lemma trim_end_In l c :
  In c l -> is_space c = false -> In c (trim_end l).
Proof.
  intros Hin Hc. unfold trim_end. apply in_rev. rewrite rev_involutive.
  apply trim_start_In; [|exact Hc]. apply in_rev. rewrite rev_involutive.
  exact Hin.
Qed.

(** [trim_end] removes a suffix of white space and stops at the last
    character that is not white space. *)
Lemma trim_end_spec l :
  exists post,
    l = trim_end l ++ post /\
    Forall (fun c => is_space c = true) post /\
    (forall c l', trim_end l = l' ++ [c] -> is_space c = false).
Proof.
  destruct (trim_start_spec (rev l)) as (pre & Hl & Hpre & Hhead).
  exists (rev pre). unfold trim_end. repeat split.
  - rewrite <- rev_app_distr, <- Hl, rev_involutive. reflexivity.
  - apply Forall_rev. exact Hpre.
  - intros c l' H. apply (Hhead c (rev l')).
    rewrite <- (rev_involutive (trim_start (rev l))), H, rev_app_distr.
    reflexivity.
Qed.

(** A string with a character that is not white space does not trim to the
    empty string. *)
Lemma trim_nonempty s c :
  In c (chars s) -> is_space c = false -> trim s <> ""%string.
Proof.
  intros Hin Hc. unfold trim. apply str_nonempty.
  assert (H : In c (trim_end (trim_start (chars s)))).
  { apply trim_end_In; [|exact Hc]. apply trim_start_In; assumption. }
  intros E. rewrite E in H. destruct H.
Qed.

(** [trim] keeps the middle of a string: what it removes before and after
    is white space, and what it keeps neither starts nor ends with white
    space. *)
Lemma trim_spec s :
  exists pre post,
    chars s = pre ++ chars (trim s) ++ post /\
    Forall (fun c => is_space c = true) pre /\
    Forall (fun c => is_space c = true) post /\
    (forall c l, chars (trim s) = c :: l -> is_space c = false) /\
    (forall c l, chars (trim s) = l ++ [c] -> is_space c = false).
Proof.
  unfold trim. rewrite chars_str.
  destruct (trim_start_spec (chars s)) as (pre & Hl & Hpre & Hhead).
  destruct (trim_end_spec (trim_start (chars s)))
    as (post & Hl' & Hpost & Hlast).
  exists pre, post. repeat split; try assumption.
  - rewrite <- Hl'. exact Hl.
  - intros c l H. rewrite Hl' in Hhead.
    destruct (trim_end (trim_start (chars s))) as [|x l0]; [discriminate|].
    injection H as -> ->. eapply Hhead. reflexivity.
Qed.




Lemma digit_not_space c : is_digit c = true -> is_space c = false.
Proof.
  destruct c as [[] [] [] [] [] [] [] []]; intros H; try reflexivity;
    discriminate H.
Qed.


End JSFacts.

(** * Properties of the pricing computation *)

Module PricingFacts.

Import Pricing FloatFacts.
Local Open Scope float_scope.

Lemma nonneg_cases q :
  (0 <=? q) = true -> (0 <? q) = true \/ is_zero q = true.
Proof.
  rewrite leb_spec, ltb_spec, is_zero_spec.
  change (Prim2SF 0) with (S754_zero false).
  destruct (Prim2SF q) as [s|s| |s m e]; simpl; auto;
    destruct s; simpl; auto.
Qed.

(** A requested quantity is never [NaN]: [|| 0] replaces it by zero. *)
Lemma requested_not_nan quantities s :
  is_nan (requested quantities s) = false.
Proof.
  unfold requested. destruct (quantities !! id s) as [q|]; [|reflexivity].
  unfold JS.truthy. destruct (is_zero q); [reflexivity|].
  destruct (is_nan q) eqn:E; [reflexivity|exact E].
Qed.

Lemma line_total_pos quantities s q :
  quantities !! id s = Some q -> (0 <? q) = true ->
  line_total quantities s = q * unit_price s.
Proof.
  intros Hq Hpos. destruct (pos_not_falsy q Hpos) as [Hn Hz].
  unfold line_total, requested. rewrite Hq. unfold JS.truthy.
  rewrite Hz, Hn. simpl. rewrite Math_max_0, Hn, Hpos. reflexivity.
Qed.

(** Whenever the requested quantity is not positive, the line is
    [+0 * price]. *)
Lemma line_total_not_pos quantities s :
  is_selected quantities s = false ->
  line_total quantities s = 0 * unit_price s.
Proof.
  unfold is_selected, line_total. intros H.
  rewrite Math_max_0, requested_not_nan, H. reflexivity.
Qed.

Lemma not_selected_cases quantities s :
  quantities !! id s = None \/
  (exists q, quantities !! id s = Some q /\
             ((q <? 0) = true \/ is_nan q = true \/ is_zero q = true)) ->
  is_selected quantities s = false.
Proof.
  unfold is_selected, requested.
  intros [->|(q & -> & H)]; [reflexivity|].
  unfold JS.truthy. destruct H as [H|[H|H]].
  - destruct (negb _); [apply neg_not_pos; exact H|reflexivity].
  - rewrite H, orb_true_r. reflexivity.
  - rewrite H. reflexivity.
Qed.

Lemma total_selected_gen items quantities acc acc' :
  Forall (fun s => is_finite (unit_price s) = true) items ->
  same_number acc acc' ->
  same_number
    (fold_left add (lineTotals items quantities) acc)
    (fold_left add (map (line_total quantities) (selected items quantities))
       acc').
Proof.
  intros Hfin. revert acc acc'.
  induction Hfin as [|s items Hs _ IH]; intros acc acc' Hacc; [exact Hacc|].
  unfold lineTotals, selected in *. simpl.
  destruct (is_selected quantities s) eqn:Hsel; simpl.
  - apply IH. apply add_same_l. exact Hacc.
  - apply IH. eapply same_number_trans; [|exact Hacc].
    apply add_zero_same. rewrite line_total_not_pos by exact Hsel.
    apply zero_mul_finite; [reflexivity|exact Hs].
Qed.

(** Scenario A: four items at 2.50 each cost 10, and so does the order. *)
Example scenario_A :
  lineTotals [wash_and_fold] {[ "svc1" := 4 ]} = [10] /\
  total [wash_and_fold] {[ "svc1" := 4 ]} = 10.
Proof. split; vm_compute; reflexivity. Qed.

(** C1 (as amended).  The unit price of a service is the number read from
    its per-item price if that is present, else from its per-pound price,
    else zero.  For a quantity [q >= 0] the line cost is [q] times the unit
    price (exactly when [q > 0], and up to the sign of zero when [q] is a
    zero); for a missing, negative or [NaN] quantity the line cost is [+0]
    times the unit price, which is a zero when the unit price is a finite
    number and [NaN] when it is not.  The computation is a total function:
    it never fails. *)
Theorem line_total_correct (s : LaundryService)
  (quantities : ServiceQuantities) :
  unit_price s =
    match price_per_item s, price_per_pound s with
    | Some p, _ => JS.Number_of_string p
    | None, Some p => JS.Number_of_string p
    | None, None => 0
    end /\
  (forall q, quantities !! id s = Some q -> (0 <? q) = true ->
     line_total quantities s = q * unit_price s) /\
  (forall q, quantities !! id s = Some q -> (0 <=? q) = true ->
     same_number (line_total quantities s) (q * unit_price s)) /\
  (quantities !! id s = None \/
   (exists q, quantities !! id s = Some q /\
              ((q <? 0) = true \/ is_nan q = true)) ->
   line_total quantities s = 0 * unit_price s /\
   (is_finite (unit_price s) = true ->
    is_zero (line_total quantities s) = true) /\
   (is_finite (unit_price s) = false ->
    is_nan (line_total quantities s) = true)).
Proof.
  split; [|split; [|split]].
  - unfold unit_price.
    destruct (price_per_item s); [reflexivity|].
    destruct (price_per_pound s); reflexivity.
  - intros q Hq Hpos. apply line_total_pos; assumption.
  - intros q Hq Hle. destruct (nonneg_cases q Hle) as [Hpos|Hz].
    + left. apply line_total_pos; assumption.
    + rewrite line_total_not_pos.
      * apply zero_mul_same; [reflexivity|exact Hz].
      * apply not_selected_cases. right. exists q. auto.
  - intros H.
    assert (Hsel : is_selected quantities s = false).
    { apply not_selected_cases. destruct H as [H|(q & Hq & [H|H])]; eauto 6. }
    split; [apply line_total_not_pos; exact Hsel|].
    split; intros Hfin; rewrite line_total_not_pos by exact Hsel.
    + apply zero_mul_finite; [reflexivity|exact Hfin].
    + apply zero_mul_not_finite; [reflexivity|exact Hfin].
Qed.

(** The theorem at scenario A's service: quantity 4 costs [4 * 2.5], and a
    quantity of -1 costs nothing. *)
Lemma line_total_correct_witness :
  line_total {[ "svc1" := 4 ]} wash_and_fold = 4 * unit_price wash_and_fold /\
  is_zero (line_total {[ "svc1" := (-1) ]} wash_and_fold) = true.
Proof.
  split.
  - apply (proj1 (proj2 (line_total_correct wash_and_fold {[ "svc1" := 4 ]}))
             4); reflexivity.
  - apply (proj2 (proj2 (proj2
             (line_total_correct wash_and_fold {[ "svc1" := (-1) ]})))).
    + right. exists (-1). split; [reflexivity|left; reflexivity].
    + reflexivity.
Defined.

(** C1 as stated fails on its last part: for a service whose price text is
    not a number, a quantity of -1 gives a line cost that is [NaN], not
    zero. *)
Lemma negative_quantity_line_is_nan :
  is_nan (line_total {[ "svc2" := (-1) ]} comma_priced) = true /\
  ~ unrequested_costs_nothing.
Proof.
  split; [vm_compute; reflexivity|]. intros H.
  specialize (H comma_priced {[ "svc2" := (-1) ]} (-1) eq_refl
                (or_introl eq_refl)).
  vm_compute in H. discriminate H.
Qed.

(** C2 (as amended).  For a catalog whose unit prices are finite numbers,
    the order total equals, up to the sign of zero, the sum of the line costs
    of the services whose quantity is positive, which are the line totals of
    the order summary.  The computed list of line costs has one entry for
    every catalog service; the entry of a service that is not selected is a
    zero.  The selected services, which the order summary lists and the
    submission writes lines for, are exactly the catalog services with a
    positive quantity, and every row of the summary has a positive
    quantity. *)
Theorem total_is_sum_of_selected (items : list LaundryService)
  (quantities : ServiceQuantities) :
  Forall (fun s => is_finite (unit_price s) = true) items ->
  same_number (total items quantities)
    (fold_left add (map snd (summary items quantities)) 0) /\
  map snd (summary items quantities)
    = map (line_total quantities) (selected items quantities) /\
  length (lineTotals items quantities) = length items /\
  (forall s, In s items -> is_selected quantities s = false ->
     is_zero (line_total quantities s) = true) /\
  (forall s, In s (selected items quantities) <->
     In s items /\ (0 <? requested quantities s) = true) /\
  Forall (fun row => (0 <? snd (fst row)) = true) (summary items quantities).
Proof.
  intros Hfin.
  assert (Hsum : map snd (summary items quantities)
                 = map (line_total quantities) (selected items quantities)).
  { unfold summary. rewrite map_map. reflexivity. }
  split; [|split; [exact Hsum|split; [|split; [|split]]]].
  - rewrite Hsum. apply total_selected_gen;
      [exact Hfin|apply same_number_refl].
  - unfold lineTotals. apply length_map.
  - intros s Hin Hsel. rewrite line_total_not_pos by exact Hsel.
    apply zero_mul_finite; [reflexivity|].
    rewrite List.Forall_forall in Hfin. apply Hfin. exact Hin.
  - intros s. unfold selected. rewrite List.filter_In. reflexivity.
  - unfold summary. apply List.Forall_forall. intros row Hin.
    apply List.in_map_iff in Hin as (s & <- & Hs).
    unfold selected in Hs. apply List.filter_In in Hs as [_ Hs].
    unfold is_selected in Hs. simpl.
    rewrite Math_max_0, requested_not_nan, Hs. exact Hs.
Qed.

(** The theorem on the catalog and the quantities of scenario A. *)
Lemma total_is_sum_of_selected_witness :
  same_number (total [wash_and_fold] {[ "svc1" := 4 ]})
    (fold_left add (map snd (summary [wash_and_fold] {[ "svc1" := 4 ]})) 0).
Proof.
  apply (total_is_sum_of_selected [wash_and_fold] {[ "svc1" := 4 ]}).
  constructor; [reflexivity|constructor].
Defined.

(** C2 as stated fails on its second half: with nothing selected, the
    computed lines still hold an entry (of cost zero) for the service. *)
Lemma lines_include_unselected :
  lineTotals [wash_and_fold] ∅ = [0] /\
  ~ lines_exclude_unselected [wash_and_fold] ∅.
Proof.
  split; [vm_compute; reflexivity|].
  unfold lines_exclude_unselected. vm_compute. discriminate.
Qed.

End PricingFacts.

(** * Properties of validation and sanitization *)

Module ValidationFacts.

Import Validation.

(** ** The whole-form result *)

(** A field that fails always carries an error text that is not empty. *)
Lemma message_or_nonempty rules fallback :
  fallback <> "" -> message_or rules fallback <> "".
Proof.
  intros Hf. unfold message_or. destruct (message rules) as [m|]; [|exact Hf].
  destruct (String.eqb m "") eqn:E; [exact Hf|].
  apply String.eqb_neq. exact E.
Qed.

(** What [assign_error] leaves under each name. *)
Lemma assign_error_lookup errs f e k :
  assign_error errs f e !! k =
    if decide (k = f /\ f <> "__proto__"%string) then Some e else errs !! k.
Proof.
  unfold assign_error. destruct (String.eqb f "__proto__") eqn:E.
  - apply String.eqb_eq in E. rewrite decide_False; [reflexivity|].
    intros [_ H]. contradiction.
  - apply String.eqb_neq in E. destruct (decide (k = f)) as [->|Hne].
    + rewrite decide_True by auto. apply lookup_insert_eq.
    + rewrite decide_False by (intros [? _]; contradiction).
      apply lookup_insert_ne. congruence.
Qed.

Lemma validate_step_sound data acc entry :
  (isValid acc = true -> errors acc = ∅) ->
  isValid (validate_step data acc entry) = true ->
  errors (validate_step data acc entry) = ∅.
Proof.
  intros Hacc. destruct entry as [fieldName fieldRules].
  unfold validate_step.
  destruct (negb (fieldIsValid _)); [discriminate|exact Hacc].
Qed.

Lemma validate_step_valid data acc entry :
  entry.1 <> "__proto__"%string ->
  (errors acc = ∅ -> isValid acc = true) ->
  errors (validate_step data acc entry) = ∅ ->
  isValid (validate_step data acc entry) = true.
Proof.
  intros Hne Hacc. destruct entry as [fieldName fieldRules].
  unfold validate_step.
  destruct (negb (fieldIsValid _)); [|exact Hacc]. simpl. intros H.
  exfalso. unfold assign_error in H. simpl in Hne.
  apply String.eqb_neq in Hne. rewrite Hne in H.
  exact (insert_non_empty _ _ _ H).
Qed.

Lemma validate_step_keys data acc entry k :
  is_Some (errors (validate_step data acc entry) !! k) ->
  is_Some (errors acc !! k) \/ (k = entry.1 /\ k <> "__proto__"%string).
Proof.
  destruct entry as [fieldName fieldRules]. unfold validate_step.
  destruct (negb (fieldIsValid _)); [|auto]. simpl.
  rewrite assign_error_lookup.
  destruct (decide _) as [[-> Hne]|_]; auto.
Qed.

Lemma validate_fold_sound data rules acc :
  (isValid acc = true -> errors acc = ∅) ->
  isValid (fold_left (validate_step data) rules acc) = true ->
  errors (fold_left (validate_step data) rules acc) = ∅.
Proof.
  revert acc. induction rules as [|entry rules IH]; intros acc Hacc.
  - exact Hacc.
  - simpl. apply IH. apply validate_step_sound. exact Hacc.
Qed.

Lemma validate_fold_valid data rules acc :
  "__proto__"%string ∉ rules.*1 ->
  (errors acc = ∅ -> isValid acc = true) ->
  errors (fold_left (validate_step data) rules acc) = ∅ ->
  isValid (fold_left (validate_step data) rules acc) = true.
Proof.
  revert acc. induction rules as [|entry rules IH]; intros acc Hno Hacc.
  - exact Hacc.
  - simpl in Hno. apply not_elem_of_cons in Hno as [Hne Hno].
    simpl. apply (IH _ Hno). apply validate_step_valid; [congruence|exact Hacc].
Qed.

Lemma validate_fold_keys data rules acc k :
  is_Some (errors (fold_left (validate_step data) rules acc) !! k) ->
  is_Some (errors acc !! k) \/ (k ∈ rules.*1 /\ k <> "__proto__"%string).
Proof.
  revert acc. induction rules as [|entry rules IH]; intros acc H.
  - auto.
  - simpl in H. apply IH in H as [H|[H Hne]].
    + apply validate_step_keys in H as [H|[-> Hne]]; [auto|].
      right. split; [simpl; apply list_elem_of_here|exact Hne].
    + right. split; [simpl; apply list_elem_of_further; exact H|exact Hne].
Qed.

(** C10, the input on which [validateForm] departs from it.  The field
    named [__proto__] fails its rule, so the loop clears [isValid] and
    assigns the error to [errors['__proto__']]; that assignment stores
    nothing, and the result is invalid with an empty error map.  The same
    happens on the empty record under a rule of that name which the
    inherited value fails. *)
Theorem proto_field_error_lost :
  validateField (get proto_data "__proto__") required_only
    = invalid "This field is required" /\
  validateForm proto_data proto_rules
    = {| isValid := false; errors := ∅ |} /\
  ~ (isValid (validateForm proto_data proto_rules) = true <->
     errors (validateForm proto_data proto_rules) = ∅) /\
  validateForm ∅ proto_length_rules
    = {| isValid := false; errors := ∅ |}.
Proof.
  split; [reflexivity|]. split; [reflexivity|]. split.
  - intros [_ H]. specialize (H eq_refl). discriminate H.
  - vm_compute. reflexivity.
Qed.

(** X30.  The invariant of the whole-form result.  For every record and
    rule set, a valid result has an empty error map, and every key of the
    error map is a field of the rule set other than [__proto__]; for a rule
    set with no field named [__proto__], a result with an empty error map is
    valid, so that validity and an empty error map go together. *)
Theorem validateForm_invariant (data : gmap string value) (rules : Schema) :
  (isValid (validateForm data rules) = true ->
   errors (validateForm data rules) = ∅) /\
  ("__proto__"%string ∉ rules.*1 ->
   errors (validateForm data rules) = ∅ ->
   isValid (validateForm data rules) = true) /\
  (forall k : string,
     k ∈ dom (errors (validateForm data rules)) ->
     k ∈ rules.*1 /\ k <> "__proto__"%string).
Proof.
  split; [|split].
  - apply validate_fold_sound. reflexivity.
  - intros Hno. apply validate_fold_valid; [exact Hno|reflexivity].
  - intros k Hk. apply elem_of_dom in Hk.
    apply validate_fold_keys in Hk as [Hk|Hk]; [|exact Hk].
    simpl in Hk. rewrite lookup_empty in Hk. destruct Hk as [? Hk].
    discriminate.
Qed.

(** The theorem on an empty record and the schema of the request form: the
    name is missing and has an error, so the result is not valid, and the
    name is a field of the schema. *)
Lemma validateForm_invariant_witness :
  isValid (validateForm ∅ (CUSTOMER_REQUEST_SCHEMA (host_west (fun _ => None))))
    <> true /\
  "customer_name"%string
    ∈ (CUSTOMER_REQUEST_SCHEMA (host_west (fun _ => None))).*1.
Proof.
  destruct (validateForm_invariant ∅
              (CUSTOMER_REQUEST_SCHEMA (host_west (fun _ => None))))
    as (Hvalid & _ & Hkeys).
  split.
  - intros H. apply Hvalid in H.
    assert (Hname :
      errors (validateForm ∅ (CUSTOMER_REQUEST_SCHEMA (host_west (fun _ => None))))
        !! "customer_name"%string = None)
      by (rewrite H; apply lookup_empty).
    vm_compute in Hname. discriminate Hname.
  - apply Hkeys. apply elem_of_dom. vm_compute. eauto.
Defined.

(** ** The pickup date *)

Local Open Scope Z_scope.

Lemma today_value h :
  clock_in_range h ->
  JS.setHours0 (zone h) (now h)
    = Some (local_today h * JS.msPerDay - midnight_offset h (local_today h)).
Proof.
  intros [Hnow Hz]. unfold JS.setHours0, JS.UTC, midnight_offset.
  fold (local_today h).
  destruct (Hz (now h)) as [Hoa _].
  destruct (Hz (JS.MakeDate (local_today h) 0)) as [_ Hol].
  unfold JS.TimeClip, JS.MakeDate, local_today, JS.Day, JS.LocalTime in *.
  set (oa := JS.offset_at (zone h) (now h)) in *.
  set (ol := JS.offset_of_local (zone h) _) in *.
  unfold JS.msPerDay in *.
  pose proof (Z.div_mod (now h + oa) 86400000 ltac:(lia)) as Hdiv.
  pose proof (Z.mod_pos_bound (now h + oa) 86400000 ltac:(lia)) as Hmod.
  replace ((now h + oa) / 86400000 * 86400000 + 0 - ol)
    with ((now h + oa) / 86400000 * 86400000 - ol) by lia.
  destruct (Z.leb_spec
              (Z.abs ((now h + oa) / 86400000 * 86400000 - ol))
              8640000000000000) as [_|Hbad]; [reflexivity|lia].
Qed.

(** How the rule treats a date-only string, which denotes midnight UTC of
    its day [d]: it is turned down as being in the past exactly when
    [d * msPerDay] is before the local midnight of today. *)
Lemma date_only_lower_bound h s d :
  clock_in_range h ->
  JS.parse_iso_date s = Some (JS.MakeDate d 0) ->
  (pickup_date_custom h (VStr s)
     = Some "Pickup date must be today or in the future"%string
   <-> d * JS.msPerDay
       < local_today h * JS.msPerDay - midnight_offset h (local_today h)).
Proof.
  intros Hclock Hparse. unfold pickup_date_custom, Date_of, JS.Date_parse.
  rewrite Hparse, (today_value h Hclock). unfold JS.MakeDate.
  rewrite Z.add_0_r.
  destruct (Z.ltb_spec (d * JS.msPerDay)
              (local_today h * JS.msPerDay
               - midnight_offset h (local_today h))) as [Hlt|Hge].
  - split; [intros _; exact Hlt|reflexivity].
  - split; [|lia]. destruct (JS.addFullYear _ _) as [t1|].
    + destruct (t1 <? _); discriminate.
    + discriminate.
Qed.

(** Where the start of today is read west of UTC, today's date is turned
    down. *)
Lemma today_rejected_west h s :
  clock_in_range h -> midnight_offset h (local_today h) < 0 ->
  JS.parse_iso_date s = Some (JS.MakeDate (local_today h) 0) ->
  pickup_date_custom h (VStr s)
    = Some "Pickup date must be today or in the future"%string.
Proof.
  intros Hclock Hwest Hparse.
  apply (date_only_lower_bound h s _ Hclock Hparse). lia.
Qed.

(** At UTC and east of it, today's date passes the lower bound. *)
Lemma today_not_past_east h s :
  clock_in_range h -> 0 <= midnight_offset h (local_today h) ->
  JS.parse_iso_date s = Some (JS.MakeDate (local_today h) 0) ->
  pickup_date_custom h (VStr s)
    <> Some "Pickup date must be today or in the future"%string.
Proof.
  intros Hclock Heast Hparse H.
  apply (date_only_lower_bound h s _ Hclock Hparse) in H. lia.
Qed.

(** Yesterday's date is turned down in every time zone. *)
Lemma yesterday_rejected h s :
  clock_in_range h ->
  JS.parse_iso_date s = Some (JS.MakeDate (local_today h - 1) 0) ->
  pickup_date_custom h (VStr s)
    = Some "Pickup date must be today or in the future"%string.
Proof.
  intros Hclock Hparse.
  apply (date_only_lower_bound h s _ Hclock Hparse).
  destruct Hclock as [_ Hz]. unfold midnight_offset.
  destruct (Hz (JS.MakeDate (local_today h) 0)) as [_ Hol].
  unfold JS.msPerDay in *. lia.
Qed.

(** The offsets of a zone with daylight saving are those of its two
    clocks. *)
Lemma daylight_zone_in_range std dst periods :
  - JS.msPerDay < std < JS.msPerDay ->
  - JS.msPerDay < std + dst < JS.msPerDay ->
  zone_in_range (JS.daylight_zone std dst periods).
Proof.
  intros Hs Hd t. simpl.
  destruct (JS.in_periods periods 0 t),
    (JS.in_periods periods (std + dst) t); lia.
Qed.

Lemma fixed_zone_in_range tz :
  - JS.msPerDay < tz < JS.msPerDay -> zone_in_range (JS.fixed_zone tz).
Proof. intros H t. simpl. lia. Qed.

Lemma parse_iso_date_nonempty s t :
  JS.parse_iso_date s = Some t -> s <> ""%string /\ JS.trim s <> ""%string.
Proof.
  unfold JS.parse_iso_date.
  destruct s as [|y1 s]; [discriminate|]. intros H. split; [discriminate|].
  apply (JSFacts.trim_nonempty _ y1); [left; reflexivity|].
  revert H. unfold JS.chars. simpl.
  destruct (list_ascii_of_string s)
    as [|y2 [|y3 [|y4 [|h1 [|m1 [|m2 [|h2 [|d1 [|d2 [|x l]]]]]]]]]];
    try discriminate.
  destruct (_ && _); [|discriminate].
  unfold JS.two_digits.
  destruct (JS.is_digit y1) eqn:Hy; [|discriminate]. intros _.
  apply JSFacts.digit_not_space. exact Hy.
Qed.

(** The field result for a date-only string the rule turns down. *)
Lemma pickup_date_field h s t e :
  JS.parse_iso_date s = Some t ->
  pickup_date_custom h (VStr s) = Some e -> e <> ""%string ->
  validateField (VStr s) (pickup_date_rule h) = invalid e.
Proof.
  intros Hparse Hcustom He.
  destruct (parse_iso_date_nonempty s t Hparse) as [Hs Htrim].
  unfold validateField. simpl.
  apply String.eqb_neq in Hs. rewrite Hs.
  unfold check_required, check_minLength, check_maxLength, check_min,
    check_max, check_pattern, check_custom. simpl.
  apply String.eqb_neq in Htrim. rewrite Htrim. simpl.
  rewrite Hcustom. apply String.eqb_neq in He. rewrite He. reflexivity.
Qed.

(** When every other field satisfies its rule, the errors of the schema are
    those of the pickup date alone. *)
Lemma only_pickup_date_error h data e :
  Forall (fun '(f, rule) => validateField (get data f) rule = valid)
    other_rules ->
  validateField (get data "pickup_date") (pickup_date_rule h) = invalid e ->
  validateForm data (CUSTOMER_REQUEST_SCHEMA h)
    = {| isValid := false; errors := {[ "pickup_date"%string := Some e ]} |}.
Proof.
  intros Hothers Hdate. unfold other_rules in Hothers.
  repeat match goal with
         | H : Forall _ (_ :: _) |- _ =>
             apply Forall_cons_1 in H as [? H]
         end.
  unfold validateForm, CUSTOMER_REQUEST_SCHEMA. simpl.
  repeat match goal with
         | H : validateField _ _ = _ |- _ => rewrite H; simpl
         end.
  reflexivity.
Qed.

(** A draft that is valid but for a pickup date of yesterday gets an error
    on the pickup date and on no other field. *)
Lemma yesterday_only_error h data s :
  clock_in_range h ->
  Forall (fun '(f, rule) => validateField (get data f) rule = valid)
    other_rules ->
  get data "pickup_date" = VStr s ->
  JS.parse_iso_date s = Some (JS.MakeDate (local_today h - 1) 0) ->
  validateForm data (CUSTOMER_REQUEST_SCHEMA h)
    = {| isValid := false;
         errors := {[ "pickup_date"%string :=
                        Some "Pickup date must be today or in the future"%string ]} |}.
Proof.
  intros Hclock Hothers Hget Hparse.
  apply only_pickup_date_error; [exact Hothers|]. rewrite Hget.
  eapply pickup_date_field; [exact Hparse| |discriminate].
  apply yesterday_rejected; assumption.
Qed.

(** Scenario B on the host west of UTC: the pickup date is the only field
    with an error. *)
Example scenario_B parse :
  validateForm (sample_draft "2026-10-31") (CUSTOMER_REQUEST_SCHEMA (host_west parse))
    = {| isValid := false;
         errors := {[ "pickup_date"%string :=
                        Some "Pickup date must be today or in the future"%string ]} |}.
Proof.
  apply (yesterday_only_error _ _ "2026-10-31").
  - split; [simpl; lia|apply fixed_zone_in_range; unfold JS.msPerDay; lia].
  - unfold other_rules. repeat constructor.
  - reflexivity.
  - reflexivity.
Qed.

(** C7, the input on which the rule departs from it.  On a host five hours
    west of UTC, at noon of 2026-11-01, a draft that is valid in every other
    field and asks for a pickup on 2026-11-01, which is today, is turned
    down with the error of a date in the past; the day after is accepted. *)
Theorem pickup_today_rejected_west_of_utc (parse : string -> option Z) :
  JS.civil_from_days (local_today (host_west parse)) = (2026, 11, 1) /\
  validateForm (sample_draft "2026-11-01")
    (CUSTOMER_REQUEST_SCHEMA (host_west parse))
    = {| isValid := false;
         errors := {[ "pickup_date"%string :=
                        Some "Pickup date must be today or in the future"%string ]} |} /\
  validateForm (sample_draft "2026-11-02")
    (CUSTOMER_REQUEST_SCHEMA (host_west parse))
    = {| isValid := true; errors := ∅ |}.
Proof.
  split; [reflexivity|]. split.
  - apply only_pickup_date_error.
    + unfold other_rules. repeat constructor.
    + apply (pickup_date_field _ "2026-11-01" (JS.MakeDate 20758 0));
        [reflexivity| |discriminate].
      apply today_rejected_west; [|reflexivity|reflexivity].
      split; [simpl; lia|apply fixed_zone_in_range; unfold JS.msPerDay; lia].
  - reflexivity.
Qed.

(** The same mismatch at the upper bound: on a host two hours east of UTC,
    at one in the morning of 2026-11-01, the date one year ahead is turned
    down as more than a year ahead. *)
Example one_year_ahead_rejected_east parse :
  JS.civil_from_days (local_today (host_east parse)) = (2026, 11, 1) /\
  pickup_date_custom (host_east parse) (VStr "2027-11-01")
    = Some "Pickup date cannot be more than 1 year in the future"%string.
Proof. split; reflexivity. Qed.

End ValidationFacts.

(** * Properties of the submission workflow *)

Module SubmissionFacts.

Import Store Submission.
Local Open Scope list_scope.

(** ** What a run of [onSubmit] does *)

(** Unfolding of the operations of the monad of the workflow. *)
Ltac unfold_monad :=
  unfold mbind, M_bind, mret, M_ret, bind, ret, throw, ask, emit,
    setSubmitError, setSubmitSuccess, setSubmitLoading, toast_show, reset,
    setFieldErrors, set_ui.

(** What the concurrent line inserts do to the world, and how they end. *)
Lemma insert_all_run env payloads w :
  insert_all payloads env w =
    ({| ui := ui w; log := log w ++ line_events env payloads |},
     match first_failure (settled env payloads) with
     | Some e => inl e
     | None => inr (map snd (answered env payloads))
     end).
Proof.
  unfold insert_all, line_events. unfold_monad.
  cbn -[answered settled first_failure until_failure].
  destruct (first_failure (settled env payloads));
    rewrite <- app_assoc; reflexivity.
Qed.

(** The world [onSubmit] leaves, case by case. *)
Lemma onSubmit_run env items total data w :
  run (onSubmit items total data) env w =
    match Pricing.selected items (quantities data) with
    | [] =>
        {| ui := ui_rejected (ui w) no_services_message; log := log w |}
    | _ :: _ =>
        let payload := payload_of total data in
        match create_reply env payload with
        | ApiFailure e =>
            {| ui := ui_failed (ui w) e;
               log := log w ++ [CreateIssued payload;
                                CreateSettled (ApiFailure e)] |}
        | ApiSuccess row =>
            let lines :=
              map (line_of row data)
                (Pricing.selected items (quantities data)) in
            {| ui := match first_failure (settled env lines) with
                     | Some e => ui_failed (ui w) e
                     | None => ui_succeeded (ui w)
                     end;
               log := (log w ++ [CreateIssued payload;
                                 CreateSettled (ApiSuccess row)])
                      ++ line_events env lines |}
        end
    end.
Proof.
  unfold run, onSubmit, try_finally, try_catch.
  remember (Pricing.selected items (quantities data)) as sel eqn:Hsel.
  destruct sel as [|s sel].
  - reflexivity.
  - clear Hsel. unfold createLaundryRequest. unfold_monad.
    cbn -[payload_of line_of insert_all map].
    destruct (create_reply env (payload_of total data)) as [row|e].
    + cbn -[payload_of line_of insert_all settled first_failure
            until_failure line_events map].
      rewrite insert_all_run.
      destruct (first_failure _) as [e|]; reflexivity.
    + reflexivity.
Qed.

(** The world the whole workflow leaves: the registered rules first. *)
Lemma handleSubmit_run env items total data w :
  run (handleSubmit (onSubmit items total) data) env w =
    let w' := {| ui := {| submitError := submitError (ui w);
                          submitSuccess := submitSuccess (ui w);
                          submitLoading := submitLoading (ui w);
                          toasts := toasts (ui w);
                          fieldErrors := registered_errors data;
                          resets := resets (ui w) |};
                 log := log w |} in
    match registered_errors data with
    | [] => run (onSubmit items total data) env w'
    | _ :: _ => w'
    end.
Proof.
  unfold run at 1. unfold handleSubmit. unfold_monad.
  cbn -[onSubmit registered_errors].
  destruct (registered_errors data); reflexivity.
Qed.

(** ** The order in which concurrent writes settle *)

Lemma insert_by_delay_perm {A} (x : nat * A) l :
  insert_by_delay x l ≡ₚ x :: l.
Proof.
  induction l as [|y l IH]; [reflexivity|]. simpl.
  destruct (fst y <=? fst x)%nat; [|reflexivity].
  rewrite IH. apply Permutation_swap.
Qed.

Lemma settle_order_perm_gen {A} (l acc : list (nat * A)) :
  fold_left (fun acc x => insert_by_delay x acc) l acc ≡ₚ acc ++ l.
Proof.
  revert acc. induction l as [|x l IH]; intros acc; simpl.
  - rewrite app_nil_r. reflexivity.
  - rewrite IH, insert_by_delay_perm. simpl.
    apply Permutation_middle.
Qed.

(** The writes that settle are the writes that were issued. *)
Lemma settled_perm env payloads :
  settled env payloads
    ≡ₚ map (fun '(i, p, r) => (i, r)) (answered env payloads).
Proof.
  unfold settled, settle_order. rewrite settle_order_perm_gen. simpl.
  rewrite map_map. erewrite map_ext; [reflexivity|].
  intros [[i p] r]. reflexivity.
Qed.

Lemma elem_of_answered env payloads i p r :
  (i, p, r) ∈ answered env payloads <->
  payloads !! i = Some p /\ r = line_reply env i p.
Proof.
  unfold answered. rewrite elem_of_lookup_imap. split.
  - intros (j & q & [= -> -> ->] & Hq). auto.
  - intros [Hp ->]. exists i, p. auto.
Qed.

Lemma elem_of_settled env payloads i r :
  (i, r) ∈ settled env payloads <->
  exists p, payloads !! i = Some p /\ r = line_reply env i p.
Proof.
  rewrite settled_perm, list_elem_of_fmap. split.
  - intros ([[j p] r'] & [= -> ->] & Hin).
    apply elem_of_answered in Hin. eauto.
  - intros (p & Hp & ->). exists (i, p, line_reply env i p).
    split; [reflexivity|]. apply elem_of_answered. auto.
Qed.

Lemma first_failure_Some {T} (l : list (nat * ApiResponse T)) e :
  first_failure l = Some e -> exists i, (i, ApiFailure e) ∈ l.
Proof.
  induction l as [|[i [d|e']] l IH]; simpl; [discriminate| |].
  - intros H. destruct (IH H) as [j Hj]. exists j.
    apply list_elem_of_further. exact Hj.
  - intros [= ->]. exists i. apply list_elem_of_here.
Qed.

Lemma first_failure_None {T} (l : list (nat * ApiResponse T)) :
  first_failure l = None -> forall i r, (i, r) ∈ l -> ok r = true.
Proof.
  induction l as [|[j [d|e']] l IH]; simpl; intros H i r Hin.
  - inversion Hin.
  - apply elem_of_cons in Hin as [[= -> ->]|Hin]; [reflexivity|].
    eapply IH; eassumption.
  - discriminate.
Qed.

(** When a line insert fails, the rejection of [Promise.all] carries the
    error of a line insert that failed. *)
Lemma some_line_fails env payloads i p e :
  payloads !! i = Some p -> line_reply env i p = ApiFailure e ->
  exists e' j q,
    first_failure (settled env payloads) = Some e' /\
    payloads !! j = Some q /\ line_reply env j q = ApiFailure e'.
Proof.
  intros Hp He.
  destruct (first_failure (settled env payloads)) as [e'|] eqn:Hf.
  - destruct (first_failure_Some _ _ Hf) as [j Hj].
    apply elem_of_settled in Hj as (q & Hq & Hr). eauto 6.
  - exfalso.
    assert (Hin : (i, ApiFailure e) ∈ settled env payloads).
    { apply elem_of_settled. exists p. auto. }
    apply (first_failure_None _ Hf) in Hin. discriminate.
Qed.

(** The answers that have arrived and those still to come are, in this
    order, those of all the inserts. *)
Lemma until_after_failure {T} (l : list (nat * ApiResponse T)) :
  until_failure l ++ after_failure l = l.
Proof.
  induction l as [|[i [d|e]] l IH]; simpl; [reflexivity| |reflexivity].
  rewrite IH. reflexivity.
Qed.

Lemma line_events_are_lines env payloads :
  Forall (fun ev => is_line_event ev = true) (line_events env payloads).
Proof.
  unfold line_events. apply Forall_app. split; apply Forall_forall.
  - intros ev Hin.
    apply list_elem_of_fmap in Hin as ([[i p] r] & -> & _). reflexivity.
  - intros ev Hin.
    apply list_elem_of_fmap in Hin as ([i r] & -> & _). reflexivity.
Qed.

(** Every line insert of the submission is issued, whatever the others do,
    and settles, before the workflow ends or after it. *)
Lemma line_events_complete env payloads i p :
  payloads !! i = Some p ->
  LineIssued i p ∈ line_events env payloads /\
  LineSettled i (line_reply env i p)
    ∈ line_events env payloads ++ in_flight env payloads.
Proof.
  intros Hp. unfold line_events, in_flight. split.
  - apply elem_of_app. left.
    apply list_elem_of_fmap. exists (i, p, line_reply env i p).
    split; [reflexivity|]. apply elem_of_answered. auto.
  - rewrite <- app_assoc. apply elem_of_app. right.
    change (map ?f ?l) with (f <$> l). rewrite <- fmap_app.
    rewrite until_after_failure.
    apply list_elem_of_fmap. exists (i, line_reply env i p).
    split; [reflexivity|]. apply elem_of_settled. eauto.
Qed.

(** The events a run adds to the log. *)
Lemma create_before_lines_events env items total data w :
  exists events,
    log (run (handleSubmit (onSubmit items total) data) env w)
      = log w ++ events /\
    (events = [] \/
     exists rest,
       events = CreateIssued (payload_of total data)
                  :: CreateSettled (create_reply env (payload_of total data))
                  :: rest /\
       Forall (fun ev => is_line_event ev = true) rest /\
       (ok (create_reply env (payload_of total data)) = false -> rest = [])).
Proof.
  rewrite handleSubmit_run. cbv zeta.
  destruct (registered_errors data) as [|fe fes].
  2:{ exists []. simpl. rewrite app_nil_r. auto. }
  rewrite onSubmit_run. simpl.
  destruct (Pricing.selected items (quantities data)) as [|s sel].
  { exists []. simpl. rewrite app_nil_r. auto. }
  destruct (create_reply env (payload_of total data)) as [row|e] eqn:Hc.
  - eexists. simpl. rewrite <- app_assoc. split; [reflexivity|].
    right. eexists. split; [reflexivity|].
    split; [apply line_events_are_lines|]. discriminate.
  - eexists. simpl. split; [reflexivity|].
    right. exists []. split; [reflexivity|].
    split; [constructor|reflexivity].
Qed.

(** ** Write ordering *)

(** C3.  In every run of the submission workflow the events at the store
    are none at all, or the order insert being issued, then its answer, then
    events of line inserts only; when the answer to the order insert is a
    failure, nothing follows it. *)
Theorem create_before_lines (env : Env) (items : list Pricing.LaundryService)
  (total : float) (data : FormInputs) (w : World) :
  exists events,
    log (run (handleSubmit (onSubmit items total) data) env w)
      = log w ++ events /\
    (events = [] \/
     exists payload rest,
       events = CreateIssued payload
                  :: CreateSettled (create_reply env payload) :: rest /\
       Forall (fun ev => is_line_event ev = true) rest /\
       (ok (create_reply env payload) = false -> rest = [])).
Proof.
  destruct (create_before_lines_events env items total data w)
    as (events & Hlog & [->|(rest & -> & Hrest)]).
  - exists []. auto.
  - eexists. split; [exact Hlog|]. right. eauto.
Qed.

(** The theorem on a store that turns the order down: the order insert and
    its answer are all that the store sees. *)
Lemma create_before_lines_witness :
  exists payload,
    log (run (handleSubmit (onSubmit three_services sample_total)
                sample_data) env_create_fails initial)
      = [CreateIssued payload; CreateSettled (ApiFailure "permission denied")].
Proof.
  destruct (create_before_lines env_create_fails three_services sample_total
              sample_data initial)
    as (events & Hlog & [->|(payload & rest & -> & _ & Hfail)]).
  - vm_compute in Hlog. discriminate Hlog.
  - exists payload. rewrite Hlog, (Hfail eq_refl). reflexivity.
Defined.

(** ** Partial failure *)

(** When the order insert succeeds and a line insert fails, the workflow
    leaves the error state, whose text and toast carry the failure reason of
    the first line insert to fail (a fixed text when the reason is empty)
    and nothing else.  That is the state a failure of the order insert with
    the same reason leaves.  Every line insert was issued; those that take
    longer than the first to fail settle after the workflow has ended. *)
Lemma partial_failure_outcome (env : Env)
  (items : list Pricing.LaundryService) (total : float) (data : FormInputs)
  (w : World) (row : RequestRow) (i : nat) (p : RequestServiceInsert)
  (e : string) :
  let payload := payload_of total data in
  let lines :=
    map (line_of row data) (Pricing.selected items (quantities data)) in
  let w' := run (onSubmit items total data) env w in
  create_reply env payload = ApiSuccess row ->
  lines !! i = Some p ->
  line_reply env i p = ApiFailure e ->
  exists e' j q,
    lines !! j = Some q /\ line_reply env j q = ApiFailure e' /\
    ui w' = ui_failed (ui w) e' /\
    submitSuccess (ui w') = None /\
    log w' = (log w ++ [CreateIssued payload; CreateSettled (ApiSuccess row)])
               ++ line_events env lines /\
    (forall k r, lines !! k = Some r ->
       LineIssued k r ∈ line_events env lines /\
       LineSettled k (line_reply env k r)
         ∈ line_events env lines ++ in_flight env lines) /\
    (forall env', create_reply env' payload = ApiFailure e' ->
       ui (run (onSubmit items total data) env' w) = ui w').
Proof.
  intros payload lines w' Hc Hp He. subst payload lines w'.
  destruct (some_line_fails env _ i p e Hp He)
    as (e' & j & q & Hf & Hq & Hr).
  exists e', j, q.
  assert (Hrun := onSubmit_run env items total data w).
  cbv zeta in Hrun. rewrite Hc, Hf in Hrun.
  destruct (Pricing.selected items (quantities data)) as [|s sel] eqn:Hsel;
    [discriminate Hp|].
  rewrite Hrun. cbn [ui log].
  split; [exact Hq|]. split; [exact Hr|]. split; [reflexivity|].
  split; [reflexivity|]. split; [reflexivity|]. split.
  - intros k r Hk. apply line_events_complete. exact Hk.
  - intros env' Hc'. rewrite onSubmit_run, Hsel. cbv zeta.
    rewrite Hc'. reflexivity.
Qed.

(** C4, the input on which the workflow departs from it.  The sample form
    asks for three services; the store creates the order and turns down the
    second line.  The workflow ends in the error state with the reason of
    that line, the very state a store that turns the order itself down
    leaves, so a partial failure is not told apart from a clean one and no
    line id is reported.  The store has seen the order insert, the three
    line inserts and the answers to the first two, the third being still in
    flight: all of them inserts, none a write that takes the order back. *)
Theorem partial_failure_at_second_line :
  let w' := run (onSubmit three_services sample_total sample_data)
              env_line_fails initial in
  ui w' = ui_failed initial_ui "permission denied" /\
  ui w' = ui (run (onSubmit three_services sample_total sample_data)
                env_create_fails initial) /\
  log w' =
    [CreateIssued (payload_of sample_total sample_data);
     CreateSettled (ApiSuccess sample_order)]
    ++ imap LineIssued sample_order_lines
    ++ [LineSettled 0 (line_reply env_line_fails 0
                         (line_of sample_order sample_data
                            (sample_service "a" "2.50")));
        LineSettled 1 (ApiFailure "permission denied")] /\
  in_flight env_line_fails sample_order_lines
    = [LineSettled 2 (line_reply env_line_fails 2
                        (line_of sample_order sample_data
                           (sample_service "c" "3.10")))] /\
  ~ partial_failure_reported_apart.
Proof.
  cbv zeta. split; [vm_compute; reflexivity|].
  split; [vm_compute; reflexivity|].
  split; [vm_compute; reflexivity|].
  split; [vm_compute; reflexivity|]. intros H.
  apply (H env_line_fails env_create_fails three_services sample_total
           sample_data sample_order 1%nat
           "permission denied" "permission denied");
    reflexivity.
Qed.

(** ** The bounds of the date input *)

(** The bounds the form gives its date input: west of UTC they are tomorrow
    and fourteen days ahead; east of UTC, where local midnight falls on the
    UTC day before, they are today and thirteen days ahead. *)
Example date_input_bounds parse :
  getTomorrowISO (Validation.host_west parse) = Some "2026-11-02"%string /\
  getTwoWeeksISO (Validation.host_west parse) = Some "2026-11-15"%string /\
  getTomorrowISO (Validation.host_east parse) = Some "2026-11-01"%string /\
  getTwoWeeksISO (Validation.host_east parse) = Some "2026-11-14"%string.
Proof. repeat split; vm_compute; reflexivity. Qed.

(** ** No service selected *)

Lemma nothing_selected items quantities :
  Forall (fun s => Pricing.is_selected quantities s = false) items ->
  Pricing.selected items quantities = [].
Proof.
  unfold Pricing.selected. induction 1 as [|s items Hs _ IH];
    [reflexivity|].
  simpl. rewrite Hs. exact IH.
Qed.

(** C8.  When no service of the catalog has a positive quantity, the
    workflow writes nothing to the store.  If a registered field rule
    fails, the callback is not run and the field errors are all that is
    reported; otherwise the first thing the callback does is to turn the
    draft down with the error text kept for this case. *)
Theorem no_services_rejected (env : Env)
  (items : list Pricing.LaundryService) (total : float) (data : FormInputs)
  (w : World) :
  let w' := run (handleSubmit (onSubmit items total) data) env w in
  Forall (fun s => Pricing.is_selected (quantities data) s = false) items ->
  log w' = log w /\
  fieldErrors (ui w') = registered_errors data /\
  (registered_errors data = [] ->
     submitError (ui w') = Some no_services_message /\
     submitSuccess (ui w') = None /\
     toasts (ui w') = toasts (ui w)) /\
  (registered_errors data <> [] ->
     submitError (ui w') = submitError (ui w) /\
     submitSuccess (ui w') = submitSuccess (ui w)).
Proof.
  intros w' Hnone. subst w'. rewrite handleSubmit_run. cbv zeta.
  destruct (registered_errors data) as [|fe fes] eqn:Herrs.
  - rewrite onSubmit_run, (nothing_selected _ _ Hnone). simpl.
    split; [reflexivity|]. split; [reflexivity|]. split.
    + intros _. repeat split; reflexivity.
    + intros Hne. exfalso. apply Hne. reflexivity.
  - simpl. split; [reflexivity|]. split; [reflexivity|]. split.
    + discriminate.
    + intros _. split; reflexivity.
Qed.

(** The theorem on the sample form with no quantity entered. *)
Lemma no_services_rejected_witness :
  log (run (handleSubmit (onSubmit three_services 0%float) sample_data_empty)
         env_accepting initial) = [] /\
  submitError
    (ui (run (handleSubmit (onSubmit three_services 0%float)
                sample_data_empty) env_accepting initial))
    = Some no_services_message.
Proof.
  destruct (no_services_rejected env_accepting three_services 0%float
              sample_data_empty initial) as (Hlog & _ & Hrun & _).
  - repeat (apply List.Forall_cons; [vm_compute; reflexivity|]).
    apply List.Forall_nil.
  - split; [exact Hlog|]. apply Hrun. reflexivity.
Defined.

(** ** Sanitization *)







End SubmissionFacts.

(** * Properties of request management *)

Module AdminFacts.

Import Store Admin.
Local Open Scope list_scope.

(** ** Batch status update *)

Section Updates.

Variable rejects : string -> option string.
Variable p : RequestPatch.

Lemma apply_patch_idemp r : apply_patch p (apply_patch p r) = apply_patch p r.
Proof.
  unfold apply_patch. simpl.
  destruct (patch_status p), (patch_internal_notes p); reflexivity.
Qed.

(** One write: the row it is for changes if the write is accepted, and no
    other row changes. *)
Lemma store_update_lookup rid d x :
  (x = rid /\ rejects rid = None ->
   (store_update rejects rid p d).1 !! x = apply_patch p <$> d !! x) /\
  (~ (x = rid /\ rejects rid = None) ->
   (store_update rejects rid p d).1 !! x = d !! x).
Proof.
  unfold store_update. split.
  - intros [-> Hrej]. rewrite Hrej.
    destruct (d !! rid) as [r|] eqn:Hr; simpl.
    + rewrite lookup_insert_eq. reflexivity.
    + rewrite Hr. reflexivity.
  - intros Hne. destruct (rejects rid) as [e|] eqn:Hrej; [reflexivity|].
    destruct (d !! rid) as [r|] eqn:Hr; [|reflexivity]. simpl.
    apply lookup_insert_ne. intros ->. apply Hne. split; reflexivity.
Qed.

Lemma store_update_ok rid d :
  ok (store_update rejects rid p d).2 = accepted rejects d rid.
Proof.
  unfold store_update, accepted.
  destruct (rejects rid); [reflexivity|]. destruct (d !! rid); reflexivity.
Qed.

Lemma accepted_after rid d x :
  accepted rejects (store_update rejects rid p d).1 x = accepted rejects d x.
Proof.
  unfold accepted. destruct (rejects x) eqn:Hx; [reflexivity|].
  destruct (store_update_lookup rid d x) as [Hyes Hno].
  destruct (decide (x = rid /\ rejects rid = None)) as [Heq|Hne].
  - rewrite (Hyes Heq). destruct (d !! x); reflexivity.
  - rewrite (Hno Hne). reflexivity.
Qed.

(** All the writes of a batch: the answers are one per id, each accepted or
    not on its own account, and a row changes exactly when it is selected
    and its write is accepted. *)
Lemma update_all_spec ids d results :
  map ok (fold_left (settle_update rejects p) ids (d, results)).2
    = map ok results ++ map (accepted rejects d) ids /\
  forall x,
    (x ∈ ids /\ rejects x = None ->
     (fold_left (settle_update rejects p) ids (d, results)).1 !! x
       = apply_patch p <$> d !! x) /\
    (~ (x ∈ ids /\ rejects x = None) ->
     (fold_left (settle_update rejects p) ids (d, results)).1 !! x
       = d !! x).
Proof.
  revert d results.
  induction ids as [|rid ids IH]; intros d results; cbn [fold_left].
  - simpl. rewrite app_nil_r. split; [reflexivity|]. intros x. split.
    + intros [Hin _]. inversion Hin.
    + reflexivity.
  - destruct (store_update rejects rid p d) as [d' r] eqn:Hupd.
    assert (Hstep : settle_update rejects p (d, results) rid
                    = (d', results ++ [r])).
    { unfold settle_update. rewrite Hupd. reflexivity. }
    rewrite !Hstep.
    destruct (IH d' (results ++ [r])) as [Hok Hdb].
    assert (Hd' : d' = (store_update rejects rid p d).1)
      by (rewrite Hupd; reflexivity).
    assert (Hr : r = (store_update rejects rid p d).2)
      by (rewrite Hupd; reflexivity).
    split.
    + rewrite Hok, map_app, <- app_assoc. simpl. f_equal. f_equal.
      * rewrite Hr. apply store_update_ok.
      * apply List.map_ext. intros x. rewrite Hd', accepted_after.
        reflexivity.
    + intros x. destruct (Hdb x) as [Hyes Hno].
      destruct (store_update_lookup rid d x) as [Syes Sno].
      rewrite <- Hd' in Syes, Sno. split.
      * intros [Hin Hx].
        destruct (decide (x ∈ ids)) as [Hin'|Hnin].
        -- rewrite Hyes by auto.
           destruct (decide (x = rid)) as [->|Hne].
           ++ rewrite Syes by auto. destruct (d !! rid); simpl;
                [rewrite apply_patch_idemp|]; reflexivity.
           ++ rewrite Sno; [reflexivity|]. intros [? _]. auto.
        -- apply elem_of_cons in Hin as [->|Hin]; [|contradiction].
           rewrite Hno by (intros [? _]; auto). apply Syes. auto.
      * intros Hn. rewrite Hno.
        -- apply Sno. intros [-> Hrej]. apply Hn.
           split; [apply list_elem_of_here|exact Hrej].
        -- intros [Hin Hx]. apply Hn.
           split; [apply list_elem_of_further; exact Hin|exact Hx].
Qed.

End Updates.

Lemma length_filter_map {A B} (f : A -> B) (g : B -> bool) l :
  length (List.filter (fun x => g (f x)) l)
    = length (List.filter g (map f l)).
Proof.
  induction l as [|x l IH]; [reflexivity|]. simpl.
  destruct (g (f x)); simpl; rewrite IH; reflexivity.
Qed.

Lemma filter_issue_issued (patch : RequestPatch) ids :
  List.filter is_update_issue (map (fun rid => UpdateIssued rid patch) ids)
    = map (fun rid => UpdateIssued rid patch) ids.
Proof. induction ids as [|x ids IH]; simpl; [|rewrite IH]; reflexivity. Qed.

Lemma filter_issue_settled ids (results : list (ApiResponse RequestRow)) :
  List.filter is_update_issue
    (map (fun '(rid, r) => UpdateSettled rid r) (zip ids results)) = [].
Proof.
  generalize (zip ids results). intros l.
  induction l as [|[x r] l IH]; simpl; [|rewrite IH]; reflexivity.
Qed.

(** What [loadRequests] changes: the list, the service map, the loading
    flag and, when a read fails, the toasts. *)
Lemma loadRequests_spec reads w :
  let w' := loadRequests reads w in
  db w' = db w /\
  toasts w' = toasts w ++ reload_toasts reads (db w) /\
  log w' = log w ++ [RequestsLoaded] /\
  selectedRequests w' = selectedRequests w /\
  showBatchPanel w' = showBatchPanel w /\
  batchNotes w' = batchNotes w /\
  batchStatus w' = batchStatus w /\
  loading w' = false.
Proof.
  unfold loadRequests, reload_toasts, load_error.
  destruct (requestsRes reads (db w)), (servicesRes reads); simpl;
    rewrite ?app_nil_r; repeat split; reflexivity.
Qed.

(** C5 (as amended).  A batch update of a selection that is not empty
    issues one update write per selected id, all with the same patch, and no
    other write.  The row of a selected id whose write the store accepts
    carries the patch afterwards whatever becomes of the other writes; every
    other row is as it was.  What is reported is a count: a success toast
    with the number of requests when no write failed (the selection, the
    panel and the notes are then cleared and the list is loaded again, a
    failure of which adds an error toast of its own), and otherwise an error
    toast with the number of writes that succeeded and the number that
    failed, the selection being kept. *)
Theorem batch_update_outcome (rejects : string -> option string)
  (reads : Reads) (w : World) :
  let ids := selectedRequests w in
  let patch := batch_patch w in
  let w' := handleBatchStatusUpdate rejects reads w in
  let failed :=
    length (List.filter (fun rid => negb (accepted rejects (db w) rid)) ids) in
  ids <> [] ->
  List.filter is_update_issue (log w')
    = List.filter is_update_issue (log w)
        ++ map (fun rid => UpdateIssued rid patch) ids /\
  (forall x, x ∈ ids -> rejects x = None ->
     db w' !! x = apply_patch patch <$> db w !! x) /\
  (forall x, ~ (x ∈ ids /\ rejects x = None) -> db w' !! x = db w !! x) /\
  toasts w' =
    toasts w ++
      (if (failed =? 0)%nat
       then (success_text (length ids), success)
              :: reload_toasts reads (db w')
       else [(failure_text (length ids - failed) failed, error)]) /\
  (failed = 0%nat ->
     selectedRequests w' = [] /\ showBatchPanel w' = false /\
     batchNotes w' = ""%string) /\
  (failed <> 0%nat ->
     selectedRequests w' = ids /\ showBatchPanel w' = showBatchPanel w /\
     batchNotes w' = batchNotes w).
Proof.
  intros ids patch w' failed Hne. subst w'.
  unfold handleBatchStatusUpdate.
  destruct (length (selectedRequests w) =? 0)%nat eqn:Hlen.
  { apply Nat.eqb_eq in Hlen. exfalso. apply Hne. subst ids.
    destruct (selectedRequests w); [reflexivity|discriminate]. }
  fold ids. change {| patch_status := _; patch_internal_notes := _ |}
    with patch.
  unfold update_all.
  destruct (update_all_spec rejects patch ids (db w) []) as [Hok Hdb].
  destruct (fold_left (settle_update rejects patch) ids (db w, []))
    as [d' results] eqn:Hfold.
  simpl in Hok, Hdb.
  assert (Hfailed :
    length (List.filter (fun r => negb (ok r)) results) = failed).
  { subst failed.
    rewrite (length_filter_map ok negb), Hok,
      <- (length_filter_map (accepted rejects (db w)) negb).
    reflexivity. }
  assert (Hres : length results = length ids).
  { rewrite <- (length_map ok results), Hok, length_map. reflexivity. }
  rewrite Hfailed, Hres.
  destruct (failed =? 0)%nat eqn:Hzero.
  - apply Nat.eqb_eq in Hzero.
    match goal with
    | |- context [loadRequests reads ?v] =>
        destruct (loadRequests_spec reads v)
          as (Ld & Lt & Ll & Ls & Lp & Ln & _)
    end.
    rewrite Ld, Lt, Ll, Ls, Lp, Ln.
    cbn [db toasts log selectedRequests showBatchPanel batchNotes].
    rewrite !List.filter_app, filter_issue_issued, filter_issue_settled.
    simpl. rewrite !app_nil_r, <- app_assoc.
    split; [reflexivity|]. split; [intros x Hin Hx; apply Hdb; auto|].
    split; [intros x Hx; apply Hdb; exact Hx|].
    split; [reflexivity|]. split; [auto|]. intros Hnz. contradiction.
  - apply Nat.eqb_neq in Hzero.
    cbn [db toasts log selectedRequests showBatchPanel batchNotes].
    rewrite !List.filter_app, filter_issue_issued, filter_issue_settled.
    rewrite !app_nil_r.
    split; [reflexivity|]. split; [intros x Hin Hx; apply Hdb; auto|].
    split; [intros x Hx; apply Hdb; exact Hx|].
    split; [reflexivity|]. split; [intros Hz; contradiction|]. auto.
Qed.

(** Scenario D: of three orders set to [confirmed], the second is turned
    down; the first and the third are confirmed, the second is as it was,
    and the report is a count.  And a batch whose writes are all accepted
    and whose reload fails: the count is followed by the error of the
    reload. *)
Lemma batch_update_outcome_witness :
  let w' := handleBatchStatusUpdate (rejecting "2" "permission denied")
              reads_ok sample_world in
  let w'' := handleBatchStatusUpdate (fun _ => None)
               (reads_failing "timeout") sample_world in
  status <$> db w' !! "1" = Some confirmed /\
  status <$> db w' !! "2" = Some pending /\
  status <$> db w' !! "3" = Some confirmed /\
  toasts w' = [("Updated 2 requests, 1 failed"%string, error)] /\
  toasts w'' = [("Updated 3 requests successfully"%string, success);
                ("timeout"%string, error)].
Proof.
  pose proof (batch_update_outcome (rejecting "2" "permission denied")
                reads_ok sample_world ltac:(discriminate))
    as (_ & Hyes & Hno & Htoast & _).
  pose proof (batch_update_outcome (fun _ => None)
                (reads_failing "timeout") sample_world ltac:(discriminate))
    as (_ & _ & _ & Htoast' & _).
  cbv zeta. split; [|split; [|split; [|split]]].
  - etransitivity;
      [apply (f_equal (fmap status)), (Hyes "1"%string);
       [apply list_elem_of_here|]|];
      vm_compute; reflexivity.
  - etransitivity;
      [apply (f_equal (fmap status)), (Hno "2"%string);
       intros [_ H]; vm_compute in H; discriminate H|].
    vm_compute. reflexivity.
  - etransitivity;
      [apply (f_equal (fmap status)), (Hyes "3"%string);
       [do 2 apply list_elem_of_further; apply list_elem_of_here|]|];
      vm_compute; reflexivity.
  - etransitivity; [exact Htoast|]. vm_compute. reflexivity.
  - etransitivity; [exact Htoast'|]. vm_compute. reflexivity.
Defined.

(** C5 as stated fails on its last part: whether the second order is turned
    down for one reason or the third for another, the outcome is the same
    count. *)
Lemma outcome_is_a_count :
  outcome (handleBatchStatusUpdate (rejecting "2" "permission denied")
             reads_ok sample_world)
    = ([("Updated 2 requests, 1 failed"%string, error)],
       ["1"; "2"; "3"]%string, true, ""%string) /\
  ~ outcome_tells_failures.
Proof.
  split; [vm_compute; reflexivity|]. intros H.
  specialize (H (rejecting "2" "permission denied")
                (rejecting "3" "timeout") reads_ok sample_world).
  assert (Hnd : NoDup (selectedRequests sample_world)).
  { apply (bool_decide_unpack _). vm_compute. exact I. }
  specialize (H Hnd ltac:(vm_compute; reflexivity) "2"%string
                ltac:(set_solver)).
  discriminate H.
Qed.

(** ** CSV export *)

(** Inside a quoted field the reader undoes the doubling of quotes, up to
    the quote that closes the field. *)
Lemma parse_quoted s field row rows rest :
  parse_csv Quoted field row rows (double_quotes s ++ JS.dquote :: rest)
    = parse_csv QuoteSeen (field ++ s) row rows rest.
Proof.
  revert field. induction s as [|c s IH]; intros field; simpl.
  - rewrite app_nil_r. reflexivity.
  - destruct (Ascii.eqb c JS.dquote) eqn:Hc.
    + apply Ascii.eqb_eq in Hc. subst c. simpl.
      rewrite IH, <- app_assoc. reflexivity.
    + simpl. rewrite Hc, IH, <- app_assoc. reflexivity.
Qed.

(** A field as the export writes it is read up to its closing quote. *)
Lemma parse_field f row rows rest :
  parse_csv FieldStart [] row rows (quote_field f ++ rest)
    = parse_csv QuoteSeen (JS.chars f) row rows rest.
Proof.
  unfold quote_field. simpl. rewrite <- app_assoc. simpl.
  apply (parse_quoted (JS.chars f) []).
Qed.

(** What the reader does after the closing quote of a field. *)
Lemma parse_after_field field row rows :
  parse_csv QuoteSeen field row rows [] = rows ++ [row ++ [JS.str field]] /\
  (forall rest,
     parse_csv QuoteSeen field row rows (comma :: rest)
       = parse_csv FieldStart [] (row ++ [JS.str field]) rows rest) /\
  (forall rest,
     parse_csv QuoteSeen field row rows (newline :: rest)
       = parse_csv FieldStart [] [] (rows ++ [row ++ [JS.str field]]) rest).
Proof. repeat split. Qed.

(** The fields of a record, and what follows it. *)
Lemma parse_fields f fields row rows :
  parse_csv FieldStart [] row rows
    (join comma (map quote_field (f :: fields)))
    = rows ++ [row ++ f :: fields] /\
  forall rest,
    parse_csv FieldStart [] row rows
      (join comma (map quote_field (f :: fields)) ++ newline :: rest)
      = parse_csv FieldStart [] [] (rows ++ [row ++ f :: fields]) rest.
Proof.
  revert f row. induction fields as [|g fields IH]; intros f row.
  - destruct (parse_after_field (JS.chars f) row rows) as (Hend & _ & Hnl).
    simpl join. split.
    + rewrite <- (app_nil_r (quote_field f)), parse_field, Hend.
      rewrite JSFacts.str_chars. reflexivity.
    + intros rest. rewrite parse_field, Hnl.
      rewrite JSFacts.str_chars. reflexivity.
  - destruct (IH g (row ++ [f])) as [IHend IHrest].
    destruct (parse_after_field (JS.chars f) row rows) as (_ & Hcomma & _).
    change (join comma (map quote_field (f :: g :: fields)))
      with (quote_field f ++ comma :: join comma (map quote_field (g :: fields))).
    split.
    + rewrite parse_field, Hcomma, JSFacts.str_chars, IHend.
      rewrite <- app_assoc. reflexivity.
    + intros rest. rewrite <- app_assoc, parse_field.
      rewrite <- app_comm_cons, Hcomma, JSFacts.str_chars, IHrest.
      rewrite <- app_assoc. reflexivity.
Qed.

(** A table whose records have at least one field each is read back as it
    was written. *)
Lemma parse_table table rows :
  table <> [] -> Forall (fun row => row <> []) table ->
  parse_csv FieldStart [] [] rows (csv_of table) = rows ++ table.
Proof.
  intros Hne Hrows. revert rows.
  induction Hrows as [|row table Hrow Hrows IH]; [contradiction|].
  intros rows. destruct row as [|f fields]; [contradiction|].
  destruct (parse_fields f fields [] rows) as [Hend Hrest].
  destruct table as [|row' table].
  - unfold csv_of. simpl map. simpl join at 1. exact Hend.
  - unfold csv_of in *.
    change (join newline (map (fun row => join comma (map quote_field row))
                            ((f :: fields) :: row' :: table)))
      with (join comma (map quote_field (f :: fields)) ++ newline ::
            join newline (map (fun row => join comma (map quote_field row))
                            (row' :: table))).
    rewrite Hrest, IH by discriminate. simpl. rewrite <- app_assoc.
    reflexivity.
Qed.

(** C6.  The export writes the header record and then one record per
    request, each with the twelve fields in the order id, customer name,
    email and phone, pickup date, time and address, status, total cost,
    special instructions, internal notes, creation time.  Reading the text
    back gives exactly those records; in particular the special
    instructions of every request are recovered as they were, whatever
    quotes, commas or line feeds they hold. *)
Theorem csv_round_trip (toLocaleString : string -> string)
  (requests : list RequestRow) :
  parseCSV (csvContent toLocaleString requests)
    = headers :: map (row_of toLocaleString) requests /\
  (forall request,
     zip headers (row_of toLocaleString request) =
       [("ID", id request);
        ("Customer Name", customer_name request);
        ("Customer Email", customer_email request);
        ("Customer Phone", customer_phone request);
        ("Pickup Date", pickup_date request);
        ("Pickup Time", pickup_time_slot request);
        ("Pickup Address", pickup_address request);
        ("Status", Status_toString (status request));
        ("Total Cost", or_text (total_estimated_cost request) "0");
        ("Special Instructions", or_text (special_instructions request) "");
        ("Internal Notes", or_text (internal_notes request) "");
        ("Created At", toLocaleString (created_at request))]%string) /\
  (forall i request s,
     requests !! i = Some request ->
     special_instructions request = Some s ->
     parseCSV (csvContent toLocaleString requests) !! S i
       ≫= (fun row => row !! 9%nat) = Some s).
Proof.
  assert (Hparse : parseCSV (csvContent toLocaleString requests)
                   = headers :: map (row_of toLocaleString) requests).
  { unfold parseCSV, csvContent. rewrite JSFacts.chars_str.
    apply (parse_table _ []); [discriminate|].
    constructor; [discriminate|].
    apply Forall_forall. intros row Hin.
    apply list_elem_of_fmap in Hin as (r & -> & _). discriminate. }
  split; [exact Hparse|]. split; [reflexivity|].
  intros i request s Hi Hs. rewrite Hparse. simpl.
  rewrite list_lookup_fmap, Hi. simpl. rewrite Hs. unfold or_text.
  destruct (String.eqb s "") eqn:E; [|reflexivity].
  apply String.eqb_eq in E. rewrite E. reflexivity.
Qed.

(** The theorem on an order whose special instructions hold a quote and a
    comma. *)
Lemma csv_round_trip_witness :
  parseCSV (csvContent (fun t => t) [sample_row "1"]) !! 1%nat
    ≫= (fun row => row !! 9%nat)
    = special_instructions (sample_row "1") /\
  In JS.dquote (JS.chars (default ""%string
                            (special_instructions (sample_row "1")))) /\
  In comma (JS.chars (default ""%string
                        (special_instructions (sample_row "1")))).
Proof.
  split.
  - apply (proj2 (proj2 (csv_round_trip (fun t => t) [sample_row "1"]))
             0%nat (sample_row "1")); reflexivity.
  - split; vm_compute; tauto.
Defined.

End AdminFacts.

(** * Facts about patterns *)

Module LanguageFacts.

Import JS Language.
Local Open Scope list_scope.

Lemma matches_cat_inv r1 r2 l :
  matches (Cat r1 r2) l <->
  exists l1 l2, l = l1 ++ l2 /\ matches r1 l1 /\ matches r2 l2.
Proof.
  split.
  - intros H. inversion H; subst. eauto.
  - intros (l1 & l2 & -> & H1 & H2). constructor; assumption.
Qed.

Lemma matches_or_inv r1 r2 l :
  matches (Or r1 r2) l <-> matches r1 l \/ matches r2 l.
Proof.
  split.
  - intros H. inversion H; subst; auto.
  - intros [H|H]; [apply matches_or_l|apply matches_or_r]; exact H.
Qed.

Lemma matches_empty_inv l : matches Empty l <-> l = [].
Proof.
  split; [intros H; inversion H; reflexivity|intros ->; constructor].
Qed.

Lemma matches_class_inv p l :
  matches (Class p) l <-> exists c, l = [c] /\ p c = true.
Proof.
  split.
  - intros H. inversion H; subst. eauto.
  - intros (c & -> & Hc). constructor. exact Hc.
Qed.

Lemma matches_never_inv l : ~ matches Never l.
Proof. intros H. inversion H. Qed.

Lemma matches_char_inv c l : matches (Char c) l <-> l = [c].
Proof.
  unfold Char. rewrite matches_class_inv. split.
  - intros (d & -> & Hd). apply Ascii.eqb_eq in Hd. subst. reflexivity.
  - intros ->. exists c. split; [reflexivity|apply Ascii.eqb_refl].
Qed.

Lemma matches_opt_inv r l : matches (Opt r) l <-> l = [] \/ matches r l.
Proof. unfold Opt. rewrite matches_or_inv, matches_empty_inv. tauto. Qed.

(** A repetition that matches a text that is not empty starts with a match
    that is not empty. *)
Lemma matches_many_cons_inv r c l :
  matches (Many r) (c :: l) ->
  exists l1 l2, l = l1 ++ l2 /\ matches r (c :: l1) /\ matches (Many r) l2.
Proof.
  intros H. remember (Many r) as r' eqn:Hr. remember (c :: l) as l' eqn:Hl.
  revert r c l Hr Hl.
  induction H as [| | | | | |r0 l1 l2 H1 _ H2 IH2]; intros r' c' l' Hr Hl;
    try discriminate.
  injection Hr as ->. destruct l1 as [|d l1]; simpl in Hl.
  - apply (IH2 r' c' l' eq_refl Hl).
  - injection Hl as Hd Hl. subst d l'. exists l1, l2. auto.
Qed.

Lemma nullable_spec r : nullable r = true <-> matches r [].
Proof.
  induction r as [| |p|r1 IH1 r2 IH2|r1 IH1 r2 IH2|r IH]; simpl.
  - split; [discriminate|intros H; inversion H].
  - split; [constructor|reflexivity].
  - split; [discriminate|intros H; inversion H].
  - rewrite andb_true_iff, IH1, IH2, matches_cat_inv. split.
    + intros [H1 H2]. exists [], []. auto.
    + intros (l1 & l2 & Hl & H1 & H2). symmetry in Hl.
      apply app_eq_nil in Hl as [-> ->]. auto.
  - rewrite orb_true_iff, IH1, IH2, matches_or_inv. tauto.
  - split; [constructor|reflexivity].
Qed.

Lemma deriv_spec c r l : matches (deriv c r) l <-> matches r (c :: l).
Proof.
  revert l.
  induction r as [| |p|r1 IH1 r2 IH2|r1 IH1 r2 IH2|r IH]; intros l; simpl.
  - split; intros H; inversion H.
  - split; intros H; inversion H.
  - destruct (p c) eqn:Hp.
    + rewrite matches_empty_inv, matches_class_inv. split.
      * intros ->. eauto.
      * intros (d & Hd & _). injection Hd as _ ->. reflexivity.
    + split; [intros H; inversion H|].
      rewrite matches_class_inv. intros (d & Hd & Hpd).
      injection Hd as -> _. congruence.
  - assert (Hcat : matches (Cat (deriv c r1) r2) l <->
                   exists l1 l2, l = l1 ++ l2 /\ matches r1 (c :: l1)
                                 /\ matches r2 l2).
    { rewrite matches_cat_inv. split; intros (l1 & l2 & Hl & H1 & H2);
        exists l1, l2; (split; [exact Hl|split; [apply IH1; exact H1|exact H2]]). }
    destruct (nullable r1) eqn:Hn.
    + rewrite matches_or_inv, Hcat, IH2, matches_cat_inv. split.
      * intros [(l1 & l2 & -> & H1 & H2)|H2].
        -- exists (c :: l1), l2. auto.
        -- exists [], (c :: l). split; [reflexivity|].
           split; [apply nullable_spec; exact Hn|exact H2].
      * intros (l1 & l2 & Hl & H1 & H2). destruct l1 as [|d l1]; simpl in Hl.
        -- right. rewrite Hl. exact H2.
        -- injection Hl as <- ->. left. eauto.
    + rewrite Hcat, matches_cat_inv. split.
      * intros (l1 & l2 & -> & H1 & H2). exists (c :: l1), l2. auto.
      * intros (l1 & l2 & Hl & H1 & H2). destruct l1 as [|d l1]; simpl in Hl.
        -- apply nullable_spec in H1. congruence.
        -- injection Hl as <- ->. eauto.
  - rewrite !matches_or_inv, IH1, IH2. tauto.
  - rewrite matches_cat_inv. split.
    + intros (l1 & l2 & -> & H1 & H2). apply IH in H1.
      apply (matches_many_cons r (c :: l1) l2 H1 H2).
    + intros H. apply matches_many_cons_inv in H as (l1 & l2 & -> & H1 & H2).
      exists l1, l2. split; [reflexivity|]. split; [apply IH; exact H1|exact H2].
Qed.

(** The test by derivatives decides the language of the pattern. *)
Lemma test_spec r s : test r s = true <-> matches r (chars s).
Proof.
  unfold test. generalize (chars s) as l. intros l. revert r.
  induction l as [|c l IH]; intros r; simpl.
  - apply nullable_spec.
  - rewrite IH. apply deriv_spec.
Qed.

Lemma matches_many_class p l :
  matches (Many (Class p)) l <-> Forall (fun c => p c = true) l.
Proof.
  split.
  - intros H. remember (Many (Class p)) as r eqn:Hr.
    induction H as [| | | | | |r0 l1 l2 H1 _ H2 IH2]; try discriminate.
    + constructor.
    + injection Hr as ->. apply matches_class_inv in H1 as (c & -> & Hc).
      simpl. constructor; [exact Hc|apply IH2; reflexivity].
  - intros H. induction H as [|c l Hc _ IH]; [constructor|].
    apply (matches_many_cons (Class p) [c] l); [constructor; exact Hc|exact IH].
Qed.

Lemma matches_plus_class p l :
  matches (Plus (Class p)) l <-> l <> [] /\ Forall (fun c => p c = true) l.
Proof.
  unfold Plus. rewrite matches_cat_inv. split.
  - intros (l1 & l2 & -> & H1 & H2).
    apply matches_class_inv in H1 as (c & -> & Hc).
    apply matches_many_class in H2. split; [discriminate|].
    simpl. constructor; assumption.
  - intros [Hne H]. destruct H as [|c l Hc H]; [contradiction|].
    exists [c], l. split; [reflexivity|].
    split; [constructor; exact Hc|apply matches_many_class; exact H].
Qed.

Lemma matches_times_class n p l :
  matches (Times n (Class p)) l <->
  length l = n /\ Forall (fun c => p c = true) l.
Proof.
  revert l. induction n as [|n IH]; intros l; simpl.
  - rewrite matches_empty_inv. split.
    + intros ->. split; [reflexivity|constructor].
    + intros [Hl _]. destruct l; [reflexivity|discriminate].
  - rewrite matches_cat_inv. split.
    + intros (l1 & l2 & -> & H1 & H2).
      apply matches_class_inv in H1 as (c & -> & Hc).
      apply IH in H2 as [Hl H2]. simpl. split; [congruence|].
      constructor; assumption.
    + intros [Hl H]. destruct H as [|c l Hc H]; [discriminate|].
      exists [c], l. split; [reflexivity|].
      split; [constructor; exact Hc|]. apply IH.
      split; [simpl in Hl; congruence|exact H].
Qed.

(** A pattern whose classes are closed under a map of characters matches the
    image of every text it matches. *)
Lemma matches_map (f : ascii -> ascii) r l :
  classes (fun p => forall c, p c = true -> p (f c) = true) r ->
  matches r l -> matches r (map f l).
Proof.
  intros Hcl H. induction H; simpl in Hcl |- *.
  - constructor.
  - constructor. apply Hcl. assumption.
  - rewrite map_app. destruct Hcl. constructor; auto.
  - apply matches_or_l. apply IHmatches. apply Hcl.
  - apply matches_or_r. apply IHmatches. apply Hcl.
  - constructor.
  - rewrite map_app. constructor; auto.
Qed.

End LanguageFacts.

(** * Facts about trimming and letter case *)

Module TextFacts.

Import JS.
Local Open Scope list_scope.

Lemma trim_start_fixed l :
  (forall c l', l = c :: l' -> is_space c = false) -> trim_start l = l.
Proof.
  destruct l as [|c l]; [reflexivity|]. intros H. simpl.
  rewrite (H c l eq_refl). reflexivity.
Qed.

Lemma trim_end_fixed l :
  (forall c l', l = l' ++ [c] -> is_space c = false) -> trim_end l = l.
Proof.
  intros H. unfold trim_end. rewrite trim_start_fixed.
  - apply rev_involutive.
  - intros c l' Hl. apply (H c (rev l')).
    rewrite <- (rev_involutive l), Hl. reflexivity.
Qed.

(** A text that neither starts nor ends with white space is its own
    trimmed form. *)
Lemma trim_fixed s :
  (forall c l, chars s = c :: l -> is_space c = false) ->
  (forall c l, chars s = l ++ [c] -> is_space c = false) ->
  trim s = s.
Proof.
  intros Hhd Hlast. unfold trim.
  rewrite (trim_start_fixed _ Hhd), (trim_end_fixed _ Hlast).
  apply JSFacts.str_chars.
Qed.

Lemma trim_idempotent s : trim (trim s) = trim s.
Proof.
  destruct (JSFacts.trim_spec s) as (pre & post & _ & _ & _ & Hhd & Hlast).
  apply trim_fixed; assumption.
Qed.

Lemma trim_start_spaces pre l :
  Forall (fun c => is_space c = true) pre ->
  trim_start (pre ++ l) = trim_start l.
Proof.
  induction 1 as [|c pre Hc _ IH]; [reflexivity|]. simpl. rewrite Hc. exact IH.
Qed.

Lemma trim_end_spaces l post :
  Forall (fun c => is_space c = true) post ->
  trim_end (l ++ post) = trim_end l.
Proof.
  intros H. unfold trim_end. rewrite rev_app_distr, trim_start_spaces;
    [reflexivity|]. apply List.Forall_rev. exact H.
Qed.

(** Trimming takes away the white space around a text that neither starts
    nor ends with white space. *)
Lemma trim_surround pre m post :
  Forall (fun c => is_space c = true) pre ->
  Forall (fun c => is_space c = true) post ->
  (forall c l, m = c :: l -> is_space c = false) ->
  (forall c l, m = l ++ [c] -> is_space c = false) ->
  trim (str (pre ++ m ++ post)) = str m.
Proof.
  intros Hpre Hpost Hhd Hlast. unfold trim. rewrite JSFacts.chars_str.
  rewrite (trim_start_spaces _ _ Hpre).
  destruct m as [|c m].
  - simpl. rewrite <- (app_nil_r post) at 1.
    rewrite (trim_start_spaces _ _ Hpost). reflexivity.
  - rewrite trim_start_fixed.
    + rewrite (trim_end_spaces _ _ Hpost), (trim_end_fixed _ Hlast).
      reflexivity.
    + intros d l' Hl. injection Hl as <- _. apply (Hhd c m eq_refl).
Qed.

Lemma trim_start_map (f : ascii -> ascii) l :
  (forall c, is_space (f c) = is_space c) ->
  trim_start (map f l) = map f (trim_start l).
Proof.
  intros Hf. induction l as [|c l IH]; [reflexivity|]. simpl.
  rewrite Hf. destruct (is_space c); [exact IH|reflexivity].
Qed.

Lemma trim_end_map (f : ascii -> ascii) l :
  (forall c, is_space (f c) = is_space c) ->
  trim_end (map f l) = map f (trim_end l).
Proof.
  intros Hf. unfold trim_end.
  rewrite <- map_rev, (trim_start_map f _ Hf), map_rev. reflexivity.
Qed.

Lemma lower_char_space c : is_space (lower_char c) = is_space c.
Proof. destruct c as [[] [] [] [] [] [] [] []]; reflexivity. Qed.

Lemma lower_char_idempotent c : lower_char (lower_char c) = lower_char c.
Proof. destruct c as [[] [] [] [] [] [] [] []]; reflexivity. Qed.

Lemma trim_toLowerCase s : trim (toLowerCase s) = toLowerCase (trim s).
Proof.
  unfold trim, toLowerCase. rewrite !JSFacts.chars_str.
  rewrite (trim_start_map _ _ lower_char_space),
    (trim_end_map _ _ lower_char_space). reflexivity.
Qed.

Lemma toLowerCase_idempotent s : toLowerCase (toLowerCase s) = toLowerCase s.
Proof.
  unfold toLowerCase. rewrite JSFacts.chars_str, map_map. f_equal.
  apply List.map_ext. intros c. apply lower_char_idempotent.
Qed.

Lemma trim_empty_chars s : trim s <> ""%string -> s <> ""%string.
Proof. intros H ->. apply H. reflexivity. Qed.

Lemma filter_fixed {A} (p : A -> bool) l :
  Forall (fun c => p c = true) l -> List.filter p l = l.
Proof.
  induction 1 as [|c l Hc _ IH]; [reflexivity|]. simpl.
  rewrite Hc, IH. reflexivity.
Qed.

Lemma filter_idempotent {A} (p : A -> bool) l :
  List.filter p (List.filter p l) = List.filter p l.
Proof.
  apply filter_fixed. apply List.Forall_forall. intros c Hc.
  apply List.filter_In in Hc. tauto.
Qed.

End TextFacts.

(** * Facts about field and form validation *)

Module FieldFacts.

Import Validation Validators.
Local Open Scope list_scope.

Lemma first_error_None l :
  first_error l = None <-> Forall (fun x => x = None) l.
Proof.
  induction l as [|[e|] l IH]; simpl.
  - split; [constructor|reflexivity].
  - split; [discriminate|]. intros H. inversion H. discriminate.
  - rewrite IH. split.
    + intros H. constructor; [reflexivity|exact H].
    + intros H. inversion H. assumption.
Qed.

Lemma first_error_Some l e :
  first_error l = Some e -> In (Some e) l.
Proof.
  induction l as [|[e'|] l IH]; simpl; [discriminate| |].
  - intros H. injection H as ->. left. reflexivity.
  - intros H. right. apply IH. exact H.
Qed.

(** On a value that is not blank the result is that of the first check that
    fails. *)
Lemma validateField_nonblank v rules :
  is_blank v = false ->
  validateField v rules =
    match first_error [
      check_required rules (JS.trim (String_of v));
      check_minLength rules (JS.trim (String_of v));
      check_maxLength rules (JS.trim (String_of v));
      check_min rules v (JS.trim (String_of v));
      check_max rules v (JS.trim (String_of v));
      check_pattern rules (JS.trim (String_of v));
      check_custom rules v
    ] with
    | Some e => invalid e
    | None => valid
    end.
Proof. intros H. unfold validateField. rewrite H. reflexivity. Qed.

Lemma validateField_blank v rules :
  is_blank v = true ->
  validateField v rules =
    if required rules then invalid (message_or rules MESSAGES.required)
    else valid.
Proof. intros H. unfold validateField. rewrite H. reflexivity. Qed.

(** The checks a valid value that is not blank has passed. *)
Lemma validateField_valid_inv v rules :
  is_blank v = false ->
  fieldIsValid (validateField v rules) = true ->
  check_required rules (JS.trim (String_of v)) = None /\
  check_minLength rules (JS.trim (String_of v)) = None /\
  check_maxLength rules (JS.trim (String_of v)) = None /\
  check_min rules v (JS.trim (String_of v)) = None /\
  check_max rules v (JS.trim (String_of v)) = None /\
  check_pattern rules (JS.trim (String_of v)) = None /\
  check_custom rules v = None.
Proof.
  intros Hb. rewrite (validateField_nonblank _ _ Hb).
  destruct (first_error _) as [e|] eqn:He; [discriminate|]. intros _.
  apply first_error_None in He.
  repeat match goal with
         | H : Forall _ (_ :: _) |- _ => inversion H; subst; clear H
         end.
  repeat split; assumption.
Qed.

Lemma validateField_valid_intro v rules :
  is_blank v = false ->
  check_required rules (JS.trim (String_of v)) = None ->
  check_minLength rules (JS.trim (String_of v)) = None ->
  check_maxLength rules (JS.trim (String_of v)) = None ->
  check_min rules v (JS.trim (String_of v)) = None ->
  check_max rules v (JS.trim (String_of v)) = None ->
  check_pattern rules (JS.trim (String_of v)) = None ->
  check_custom rules v = None ->
  validateField v rules = valid.
Proof.
  intros Hb H1 H2 H3 H4 H5 H6 H7. rewrite (validateField_nonblank _ _ Hb).
  rewrite H1, H2, H3, H4, H5, H6, H7. reflexivity.
Qed.

Lemma message_nonempty rules fallback :
  fallback <> ""%string -> message_or rules fallback <> ""%string.
Proof.
  intros H. unfold message_or. destruct (message rules) as [m|]; [|exact H].
  destruct (String.eqb m "") eqn:E; [exact H|].
  apply String.eqb_neq in E. exact E.
Qed.

(** Every check that fails gives a message that is not empty. *)
Lemma checks_nonempty rules v sv e :
  In (Some e) [
    check_required rules sv; check_minLength rules sv;
    check_maxLength rules sv; check_min rules v sv; check_max rules v sv;
    check_pattern rules sv; check_custom rules v
  ] -> e <> ""%string.
Proof.
  unfold check_required, check_minLength, check_maxLength, check_min,
    check_max, check_pattern, check_custom.
  intros H. simpl in H.
  repeat match goal with
         | H : _ \/ _ |- _ => destruct H as [H|H]
         | H : False |- _ => contradiction
         end.
  - destruct (required rules && String.eqb sv ""); [|discriminate].
    injection H as <-. apply message_nonempty. discriminate.
  - destruct (truthy_bound (minLength rules)) as [n|]; [|discriminate].
    destruct (PrimFloat.ltb _ n); [|discriminate].
    injection H as <-. apply message_nonempty. discriminate.
  - destruct (truthy_bound (maxLength rules)) as [n|]; [|discriminate].
    destruct (PrimFloat.ltb n _); [|discriminate].
    injection H as <-. apply message_nonempty. discriminate.
  - destruct (min rules) as [n|]; [|discriminate].
    destruct (_ && _); [|discriminate].
    injection H as <-. apply message_nonempty. discriminate.
  - destruct (max rules) as [n|]; [|discriminate].
    destruct (_ && _); [|discriminate].
    injection H as <-. apply message_nonempty. discriminate.
  - destruct (pattern rules) as [r|]; [|discriminate].
    destruct (JS.test r sv); [discriminate|].
    injection H as <-. apply message_nonempty. discriminate.
  - destruct (custom rules) as [f|]; [|discriminate].
    destruct (f v) as [e'|]; [|discriminate].
    destruct (String.eqb e' "") eqn:E; [discriminate|].
    injection H as <-. apply String.eqb_neq in E. exact E.
Qed.

(** ** The loop of [validateForm] *)

Lemma validate_step_mono data acc entry k :
  (isValid acc = false -> isValid (validate_step data acc entry) = false) /\
  (is_Some (errors acc !! k) ->
   is_Some (errors (validate_step data acc entry) !! k)).
Proof.
  destruct entry as [f rule]. unfold validate_step.
  destruct (negb _); simpl; split; auto.
  intros H. rewrite ValidationFacts.assign_error_lookup.
  destruct (decide _); [eauto|exact H].
Qed.

Lemma validate_fold_mono data rules acc k :
  (isValid acc = false ->
   isValid (fold_left (validate_step data) rules acc) = false) /\
  (is_Some (errors acc !! k) ->
   is_Some (errors (fold_left (validate_step data) rules acc) !! k)).
Proof.
  revert acc. induction rules as [|entry rules IH]; intros acc; simpl;
    [auto|].
  destruct (IH (validate_step data acc entry)) as [IH1 IH2].
  destruct (validate_step_mono data acc entry k) as [S1 S2]. split; auto.
Qed.

(** A field that fails makes the form invalid and, unless it is named
    [__proto__], has an error. *)
Lemma validate_fold_invalid data rules acc k rule :
  (k, rule) ∈ rules ->
  fieldIsValid (validateField (get data k) rule) = false ->
  isValid (fold_left (validate_step data) rules acc) = false /\
  (k <> "__proto__"%string ->
   is_Some (errors (fold_left (validate_step data) rules acc) !! k)).
Proof.
  revert acc. induction rules as [|entry rules IH]; intros acc Hin Hbad.
  - inversion Hin.
  - simpl. apply elem_of_cons in Hin as [<-|Hin].
    + destruct (validate_fold_mono data rules
                  (validate_step data acc (k, rule)) k) as [M1 M2].
      unfold validate_step in *. rewrite Hbad in *. simpl in *.
      split; [apply M1; reflexivity|]. intros Hne.
      apply M2. rewrite ValidationFacts.assign_error_lookup.
      rewrite decide_True by auto. eauto.
    + apply IH; assumption.
Qed.

(** The errors the loop leaves, for field names that occur once. *)
Lemma validate_fold_errors data rules acc :
  NoDup rules.*1 ->
  (forall k rule, (k, rule) ∈ rules -> k <> "__proto__"%string ->
     errors (fold_left (validate_step data) rules acc) !! k =
       if fieldIsValid (validateField (get data k) rule)
       then errors acc !! k
       else Some (error (validateField (get data k) rule))) /\
  (forall k, k ∉ rules.*1 \/ k = "__proto__"%string ->
     errors (fold_left (validate_step data) rules acc) !! k
       = errors acc !! k) /\
  isValid (fold_left (validate_step data) rules acc) =
    isValid acc &&
    forallb (fun '(k, rule) => fieldIsValid (validateField (get data k) rule))
      rules.
Proof.
  revert acc. induction rules as [|[k0 r0] rules IH]; intros acc Hnd.
  - simpl. split; [intros k rule Hin; inversion Hin|].
    split; [reflexivity|]. rewrite andb_true_r. reflexivity.
  - simpl in Hnd. apply NoDup_cons in Hnd as [Hk0 Hnd].
    destruct (IH (validate_step data acc (k0, r0)) Hnd) as (IH1 & IH2 & IH3).
    assert (Hstep : forall k,
      errors (validate_step data acc (k0, r0)) !! k =
        if decide (k = k0 /\ k0 <> "__proto__"%string) then
          if fieldIsValid (validateField (get data k0) r0)
          then errors acc !! k
          else Some (error (validateField (get data k0) r0))
        else errors acc !! k).
    { intros k. unfold validate_step.
      destruct (fieldIsValid (validateField (get data k0) r0)); simpl.
      - destruct (decide _); reflexivity.
      - apply ValidationFacts.assign_error_lookup. }
    cbn [fold_left]. split; [|split].
    + intros k rule Hin Hproto. apply elem_of_cons in Hin as [Heq|Hin].
      * injection Heq as Hk Hr. subst k rule.
        rewrite (IH2 k0 (or_introl Hk0)), Hstep.
        rewrite decide_True by auto. reflexivity.
      * rewrite (IH1 k rule Hin Hproto), Hstep.
        rewrite decide_False; [reflexivity|]. intros [-> _]. apply Hk0.
        apply (list_elem_of_fmap_2 fst _ _ Hin).
    + intros k [Hk| ->].
      * apply not_elem_of_cons in Hk as [Hne Hk].
        rewrite (IH2 k (or_introl Hk)), Hstep.
        rewrite decide_False by (intros [? _]; contradiction). reflexivity.
      * rewrite (IH2 _ (or_intror eq_refl)), Hstep.
        rewrite decide_False; [reflexivity|]. intros [-> H]. contradiction.
    + rewrite IH3. unfold validate_step. cbn [forallb].
      destruct (fieldIsValid (validateField (get data k0) r0)); simpl.
      * reflexivity.
      * rewrite andb_false_r. reflexivity.
Qed.

(** What a read of a record finds: its own property; else the member of
    [Object.prototype] of that name; else [undefined]. *)
Lemma get_cases data k :
  (forall v, data !! k = Some v -> get data k = v) /\
  (data !! k = None -> Object_prototype k = None -> get data k = VUndefined) /\
  (data !! k = None ->
   forall v, Object_prototype k = Some v ->
     get data k = v /\ exists text, v = VObj text /\ JS.trim text <> ""%string).
Proof.
  unfold get. split; [|split].
  - intros v ->. reflexivity.
  - intros -> ->. reflexivity.
  - intros -> v Hv. rewrite Hv. split; [reflexivity|].
    unfold Object_prototype in Hv.
    destruct (String.eqb k "__proto__").
    { injection Hv as <-. eexists. split; [reflexivity|]. vm_compute.
      discriminate. }
    destruct (String.eqb k "constructor").
    { injection Hv as <-. eexists. split; [reflexivity|]. vm_compute.
      discriminate. }
    destruct (existsb _ _); [|discriminate]. injection Hv as <-.
    eexists. split; [reflexivity|].
    apply (JSFacts.trim_nonempty _ "f"%char); [left; reflexivity|reflexivity].
Qed.

(** A valid value of a required field is not blank, also once trimmed. *)
Lemma valid_required_inv v rules :
  required rules = true ->
  fieldIsValid (validateField v rules) = true ->
  is_blank v = false /\ JS.trim (String_of v) <> ""%string.
Proof.
  intros Hreq Hv. destruct (is_blank v) eqn:Hb.
  - rewrite (validateField_blank _ _ Hb), Hreq in Hv. discriminate.
  - split; [reflexivity|].
    destruct (validateField_valid_inv _ _ Hb Hv) as (H1 & _).
    unfold check_required in H1. rewrite Hreq in H1. simpl in H1.
    destruct (String.eqb (JS.trim (String_of v)) "") eqn:E; [discriminate|].
    apply String.eqb_neq in E. exact E.
Qed.

(** A valid value that is not blank matches the pattern of its rule. *)
Lemma valid_pattern_inv v rules r :
  pattern rules = Some r -> is_blank v = false ->
  fieldIsValid (validateField v rules) = true ->
  JS.test r (JS.trim (String_of v)) = true.
Proof.
  intros Hp Hb Hv.
  destruct (validateField_valid_inv _ _ Hb Hv) as (_ & _ & _ & _ & _ & H & _).
  unfold check_pattern in H. rewrite Hp in H.
  destruct (JS.test r _); [reflexivity|discriminate].
Qed.

(** The text is checked in its trimmed form. *)
Lemma validateField_trim s rule :
  custom rule = None -> JS.trim s <> ""%string ->
  validateField (VStr s) rule = validateField (VStr (JS.trim s)) rule.
Proof.
  intros Hc Hne.
  assert (Hb : is_blank (VStr s) = false).
  { simpl. apply String.eqb_neq. intros ->. apply Hne. reflexivity. }
  assert (Hb' : is_blank (VStr (JS.trim s)) = false).
  { simpl. apply String.eqb_neq. exact Hne. }
  rewrite (validateField_nonblank _ _ Hb), (validateField_nonblank _ _ Hb').
  simpl String_of. rewrite TextFacts.trim_idempotent.
  unfold check_custom. rewrite Hc. reflexivity.
Qed.

(** A rule that is a required pattern and nothing else accepts the texts
    whose trimmed form matches the pattern. *)
Lemma pattern_rule_valid r msg s :
  JS.test r "" = false ->
  (fieldIsValid
     (validateField (VStr s) {|
        required := true; minLength := None; maxLength := None;
        pattern := Some r; min := None; max := None; custom := None;
        message := msg |}) = true
   <-> JS.test r (JS.trim s) = true).
Proof.
  intros Hr. destruct (is_blank (VStr s)) eqn:Hb.
  - rewrite (validateField_blank _ _ Hb). simpl in Hb.
    apply String.eqb_eq in Hb. subst s. simpl. change (JS.trim "") with "".
    rewrite Hr. split; discriminate.
  - rewrite (validateField_nonblank _ _ Hb).
    unfold check_required, check_minLength, check_maxLength, check_min,
      check_max, check_pattern, check_custom. simpl.
    destruct (String.eqb (JS.trim s) "") eqn:E.
    + apply String.eqb_eq in E. rewrite E, Hr. simpl. split; discriminate.
    + destruct (JS.test r (JS.trim s)); simpl; split; auto.
Qed.

End FieldFacts.

(** * Properties of field and form validation *)

Module ValidatorFacts.

Import Validation Validators.
Local Open Scope list_scope.

(** X1.  The result of [validateField] is either valid with no error, or
    invalid with an error message that is not empty, whatever the value and
    the rule: the [result.error!] of [validateForm] never reads a missing
    message. *)
Theorem validateField_error_iff_invalid (v : value) (rules : ValidationRule) :
  (fieldIsValid (validateField v rules) = true /\
   error (validateField v rules) = None) \/
  (fieldIsValid (validateField v rules) = false /\
   exists e, error (validateField v rules) = Some e /\ e <> ""%string).
Proof.
  destruct (is_blank v) eqn:Hb.
  - rewrite (FieldFacts.validateField_blank _ _ Hb).
    destruct (required rules); [right|left; split; reflexivity].
    split; [reflexivity|]. eexists. split; [reflexivity|].
    apply FieldFacts.message_nonempty. discriminate.
  - rewrite (FieldFacts.validateField_nonblank _ _ Hb).
    destruct (first_error _) as [e|] eqn:He; [right|left; split; reflexivity].
    split; [reflexivity|]. exists e. split; [reflexivity|].
    apply FieldFacts.first_error_Some in He.
    apply (FieldFacts.checks_nonempty rules v _ e He).
Qed.

(** X2.  For a rule set whose field names are distinct, [validateForm]
    records under each field of the rule set other than [__proto__] exactly
    the error of [validateField] on what a read of that field of the record
    gives, when that result is invalid, and nothing when it is valid; it
    records nothing under [__proto__] or under any other name, and the form
    is valid exactly when every field is. *)
Theorem validateForm_field_errors (data : gmap string value)
  (rules : Schema) :
  NoDup rules.*1 ->
  (forall k rule, (k, rule) ∈ rules -> k <> "__proto__"%string ->
     errors (validateForm data rules) !! k =
       if fieldIsValid (validateField (get data k) rule) then None
       else Some (error (validateField (get data k) rule))) /\
  (forall k, k ∉ rules.*1 \/ k = "__proto__"%string ->
     errors (validateForm data rules) !! k = None) /\
  isValid (validateForm data rules) =
    forallb (fun '(k, rule) => fieldIsValid (validateField (get data k) rule))
      rules.
Proof.
  intros Hnd. unfold validateForm.
  destruct (FieldFacts.validate_fold_errors data rules
              {| isValid := true; errors := ∅ |} Hnd) as (H1 & H2 & H3).
  split; [|split].
  - intros k rule Hin Hne. rewrite (H1 k rule Hin Hne). simpl.
    rewrite lookup_empty. reflexivity.
  - intros k Hk. rewrite (H2 k Hk). apply lookup_empty.
  - rewrite H3. reflexivity.
Qed.

(** The theorem on the customer request rules and an empty record: the name
    is reported missing with the message of its rule. *)
Lemma validateForm_field_errors_witness :
  errors (validateForm ∅ (CUSTOMER_REQUEST_SCHEMA (host_west (fun _ => None))))
    !! "customer_name"%string
    = Some (Some "Please enter your full name"%string).
Proof.
  assert (Hnd : NoDup (CUSTOMER_REQUEST_SCHEMA (host_west (fun _ => None))).*1).
  { apply (bool_decide_unpack _). vm_compute. exact I. }
  rewrite (proj1 (validateForm_field_errors ∅ _ Hnd)
             "customer_name"%string customer_name_rule).
  - vm_compute. reflexivity.
  - apply list_elem_of_here.
  - discriminate.
Defined.

(** X3.  A required field whose value reads as [undefined], [null], the
    empty text or text made of white space only is turned down with the
    message of its rule, or with [This field is required] when the rule has
    none, before any other check; the form is then invalid and, unless the
    field is named [__proto__], has an error under that field.  A field the
    record does not have reads so only when its name is not that of a member
    of [Object.prototype]: under such a name the inherited member is read,
    and it passes. *)
Theorem required_rejects_empty_input (data : gmap string value)
  (rules : Schema) (k : string) (rule : ValidationRule) :
  (k, rule) ∈ rules ->
  required rule = true ->
  empty_input (get data k) ->
  validateField (get data k) rule
    = invalid (message_or rule MESSAGES.required) /\
  isValid (validateForm data rules) = false /\
  (k <> "__proto__"%string -> k ∈ dom (errors (validateForm data rules))) /\
  (data !! k = None -> Object_prototype k = None).
Proof.
  intros Hin Hreq Hempty.
  assert (Hf : validateField (get data k) rule
               = invalid (message_or rule MESSAGES.required)).
  { destruct (is_blank (get data k)) eqn:Hb.
    - rewrite (FieldFacts.validateField_blank _ _ Hb), Hreq. reflexivity.
    - destruct Hempty as [Hb'|Htrim]; [congruence|].
      rewrite (FieldFacts.validateField_nonblank _ _ Hb), Htrim.
      unfold check_required. rewrite Hreq. reflexivity. }
  split; [exact Hf|].
  destruct (FieldFacts.validate_fold_invalid data rules
              {| isValid := true; errors := ∅ |} k rule Hin) as [H1 H2].
  { rewrite Hf. reflexivity. }
  split; [exact H1|]. split.
  - intros Hne. apply elem_of_dom. exact (H2 Hne).
  - intros Hnone. destruct (Object_prototype k) as [v|] eqn:Hv; [|reflexivity].
    destruct (FieldFacts.get_cases data k) as (_ & _ & Hinh).
    destruct (Hinh Hnone v Hv) as (Hget & text & -> & Htext).
    rewrite Hget in Hempty. destruct Hempty as [Hb|Ht]; [discriminate|].
    contradiction.
Qed.

(** The theorem on a record whose time slot is made of spaces, and on the
    empty record under a required rule named [toString]: the inherited
    function is read, and the form is valid. *)
Lemma required_rejects_empty_input_witness :
  validateField (get (only "pickup_time_slot" (VStr "   ")) "pickup_time_slot")
    pickup_time_slot_rule
    = invalid "Please select a pickup time slot" /\
  validateForm ∅ [("toString"%string, pickup_time_slot_rule)]
    = {| isValid := true; errors := ∅ |}.
Proof.
  split.
  - apply (required_rejects_empty_input
             (only "pickup_time_slot" (VStr "   "))
             (CUSTOMER_REQUEST_SCHEMA (host_west (fun _ => None)))
             "pickup_time_slot" pickup_time_slot_rule).
    + unfold CUSTOMER_REQUEST_SCHEMA.
      do 5 apply list_elem_of_further. apply list_elem_of_here.
    + reflexivity.
    + right. vm_compute. reflexivity.
  - vm_compute. reflexivity.
Defined.

(** X4.  [validateField] checks the trimmed text: for a rule without a
    custom check, two texts that differ only in the white space around them
    get the same result, provided they are not made of white space only. *)
Theorem validateField_ignores_outer_space (s1 s2 : string)
  (rule : ValidationRule) :
  custom rule = None ->
  JS.trim s1 = JS.trim s2 -> JS.trim s1 <> ""%string ->
  validateField (VStr s1) rule = validateField (VStr s2) rule.
Proof.
  intros Hc Heq Hne.
  rewrite (FieldFacts.validateField_trim s1 rule Hc Hne).
  rewrite Heq in Hne |- *.
  rewrite <- (FieldFacts.validateField_trim s2 rule Hc Hne).
  reflexivity.
Qed.

(** The theorem on a name with spaces around it. *)
Lemma validateField_ignores_outer_space_witness :
  validateField (VStr "  Alex Johnson ") customer_name_rule
    = validateField (VStr "Alex Johnson") customer_name_rule.
Proof.
  apply (validateField_ignores_outer_space "  Alex Johnson " "Alex Johnson"
           customer_name_rule).
  - reflexivity.
  - vm_compute. reflexivity.
  - vm_compute. discriminate.
Defined.

End ValidatorFacts.

(** * Properties of the patterns and of sanitization *)

Module SanitizerFacts.

Import JS Language Validation Validators.
Local Open Scope list_scope.

Lemma filter_none {A} (p : A -> bool) l :
  Forall (fun c => p c = false) l -> List.filter p l = [].
Proof.
  induction 1 as [|c l Hc _ IH]; [reflexivity|]. simpl. rewrite Hc. exact IH.
Qed.

Lemma filter_sublist {A} (p : A -> bool) (l : list A) :
  sublist (List.filter p l) l.
Proof.
  induction l as [|c l IH]; simpl; [constructor|].
  destruct (p c); [apply sublist_skip|apply sublist_cons]; exact IH.
Qed.

Lemma sanitizePhone_chars s :
  chars (sanitizePhone s) = List.filter phone_char (chars s).
Proof.
  unfold sanitizePhone, remove_all. rewrite JSFacts.chars_str.
  apply List.filter_ext. intros c. apply negb_involutive.
Qed.

Lemma sanitizeString_chars s :
  chars (sanitizeString s)
    = List.filter (fun c => negb (angle c)) (chars (trim s)).
Proof. unfold sanitizeString, remove_all. apply JSFacts.chars_str. Qed.

Lemma trim_sublist s : sublist (chars (trim s)) (chars s).
Proof.
  destruct (JSFacts.trim_spec s) as (pre & post & Hs & _).
  rewrite Hs. apply sublist_inserts_l, sublist_inserts_r. reflexivity.
Qed.

(** A text without angle brackets is left as it is once trimmed. *)
Lemma sanitizeString_trim s :
  Forall (fun c => angle c = false) (chars (trim s)) ->
  sanitizeString s = trim s.
Proof.
  intros H. unfold sanitizeString, remove_all.
  rewrite TextFacts.filter_fixed; [apply JSFacts.str_chars|].
  apply List.Forall_forall. intros c Hc.
  rewrite List.Forall_forall in H. rewrite (H c Hc). reflexivity.
Qed.

(** ** The shape of the texts the patterns accept *)

(** [/^[^\s@]+@[^\s@]+\.[^\s@]+$/]: a local part, an at sign, and a domain
    that has a dot with text on both sides; no part has white space or a
    second at sign. *)
Lemma email_inv l :
  matches PATTERNS.email l <->
  exists a b c,
    l = a ++ "@"%char :: b ++ "."%char :: c /\
    a <> [] /\ b <> [] /\ c <> [] /\
    Forall (fun x => PATTERNS.not_space_at x = true) (a ++ b ++ c).
Proof.
  unfold PATTERNS.email. split.
  - intros H.
    apply LanguageFacts.matches_cat_inv in H as (a & l1 & -> & Ha & H).
    apply LanguageFacts.matches_cat_inv in H as (at_ & l2 & -> & Hat & H).
    apply LanguageFacts.matches_cat_inv in H as (b & l3 & -> & Hb & H).
    apply LanguageFacts.matches_cat_inv in H as (dot & c & -> & Hdot & Hc).
    apply LanguageFacts.matches_char_inv in Hat, Hdot. subst at_ dot.
    apply LanguageFacts.matches_plus_class in Ha as [Ha1 Ha2].
    apply LanguageFacts.matches_plus_class in Hb as [Hb1 Hb2].
    apply LanguageFacts.matches_plus_class in Hc as [Hc1 Hc2].
    exists a, b, c. repeat split; try assumption.
    apply List.Forall_app. split; [exact Ha2|].
    apply List.Forall_app. split; assumption.
  - intros (a & b & c & -> & Ha & Hb & Hc & Hall).
    apply List.Forall_app in Hall as [Ha2 Hall].
    apply List.Forall_app in Hall as [Hb2 Hc2].
    apply matches_cat; [apply LanguageFacts.matches_plus_class; auto|].
    apply (matches_cat _ _ ["@"%char]);
      [apply LanguageFacts.matches_char_inv; reflexivity|].
    apply matches_cat; [apply LanguageFacts.matches_plus_class; auto|].
    apply (matches_cat _ _ ["."%char]);
      [apply LanguageFacts.matches_char_inv; reflexivity|].
    apply LanguageFacts.matches_plus_class; auto.
Qed.

Lemma not_space_at_spec c :
  PATTERNS.not_space_at c = true ->
  is_space c = false /\ Ascii.eqb "@" c = false.
Proof.
  unfold PATTERNS.not_space_at. rewrite negb_true_iff, orb_false_iff.
  intros [H1 H2]. split; [exact H1|]. rewrite Ascii.eqb_sym. exact H2.
Qed.

(** The parts of a number the US phone pattern accepts. *)
Lemma phoneUS_inv l :
  matches PATTERNS.phoneUS l <->
  exists o1 d1 o2 s1 d2 s2 d3,
    l = o1 ++ d1 ++ o2 ++ s1 ++ d2 ++ s2 ++ d3 /\
    (o1 = [] \/ o1 = ["("%char]) /\
    (length d1 = 3%nat /\ Forall (fun c => is_digit c = true) d1) /\
    (o2 = [] \/ o2 = [")"%char]) /\
    (s1 = [] \/ exists c, s1 = [c] /\ one_of "-. " c = true) /\
    (length d2 = 3%nat /\ Forall (fun c => is_digit c = true) d2) /\
    (s2 = [] \/ exists c, s2 = [c] /\ one_of "-. " c = true) /\
    (length d3 = 4%nat /\ Forall (fun c => is_digit c = true) d3).
Proof.
  unfold PATTERNS.phoneUS. split.
  - intros H.
    apply LanguageFacts.matches_cat_inv in H as (o1 & l1 & -> & Ho1 & H).
    apply LanguageFacts.matches_cat_inv in H as (d1 & l2 & -> & Hd1 & H).
    apply LanguageFacts.matches_cat_inv in H as (o2 & l3 & -> & Ho2 & H).
    apply LanguageFacts.matches_cat_inv in H as (s1 & l4 & -> & Hs1 & H).
    apply LanguageFacts.matches_cat_inv in H as (d2 & l5 & -> & Hd2 & H).
    apply LanguageFacts.matches_cat_inv in H as (s2 & d3 & -> & Hs2 & Hd3).
    apply LanguageFacts.matches_opt_inv in Ho1, Ho2, Hs1, Hs2.
    rewrite LanguageFacts.matches_char_inv in Ho1, Ho2.
    rewrite LanguageFacts.matches_class_inv in Hs1, Hs2.
    apply LanguageFacts.matches_times_class in Hd1, Hd2, Hd3.
    exists o1, d1, o2, s1, d2, s2, d3. repeat split; tauto.
  - intros (o1 & d1 & o2 & s1 & d2 & s2 & d3 & -> & Ho1 & Hd1 & Ho2 & Hs1
            & Hd2 & Hs2 & Hd3).
    apply matches_cat.
    { apply LanguageFacts.matches_opt_inv.
      rewrite LanguageFacts.matches_char_inv. exact Ho1. }
    apply matches_cat; [apply LanguageFacts.matches_times_class; exact Hd1|].
    apply matches_cat.
    { apply LanguageFacts.matches_opt_inv.
      rewrite LanguageFacts.matches_char_inv. exact Ho2. }
    apply matches_cat.
    { apply LanguageFacts.matches_opt_inv.
      rewrite LanguageFacts.matches_class_inv. exact Hs1. }
    apply matches_cat; [apply LanguageFacts.matches_times_class; exact Hd2|].
    apply matches_cat.
    { apply LanguageFacts.matches_opt_inv.
      rewrite LanguageFacts.matches_class_inv. exact Hs2. }
    apply LanguageFacts.matches_times_class; exact Hd3.
Qed.

Lemma digit_phone_char c : is_digit c = true -> phone_char c = true.
Proof. unfold phone_char. intros ->. reflexivity. Qed.

Lemma space_phone_char c : is_space c = true -> phone_char c = true.
Proof.
  unfold phone_char. intros ->. rewrite !orb_true_r. reflexivity.
Qed.

Lemma digits_phone_chars d :
  Forall (fun c => is_digit c = true) d ->
  List.filter phone_char d = d.
Proof.
  intros H. apply TextFacts.filter_fixed.
  apply (List.Forall_impl _ digit_phone_char H).
Qed.

Lemma separator_filtered s :
  s = [] \/ (exists c, s = [c] /\ one_of "-. " c = true) ->
  List.filter phone_char s = []
  \/ exists c, List.filter phone_char s = [c] /\ one_of "-. " c = true.
Proof.
  intros [->|(c & -> & Hc)]; [left; reflexivity|]. simpl.
  destruct (phone_char c); [right; eauto|left; reflexivity].
Qed.

Lemma paren_filtered (p : ascii) o :
  phone_char p = true -> o = [] \/ o = [p] -> List.filter phone_char o = o.
Proof.
  intros Hp [->| ->]; [reflexivity|]. simpl. rewrite Hp. reflexivity.
Qed.

(** What [sanitizePhone] leaves of a number the pattern accepts is accepted
    too, and neither starts nor ends with white space. *)
Lemma phoneUS_filtered l :
  matches PATTERNS.phoneUS l ->
  matches PATTERNS.phoneUS (List.filter phone_char l) /\
  (forall c l', List.filter phone_char l = c :: l' -> is_space c = false) /\
  (forall c l', List.filter phone_char l = l' ++ [c] -> is_space c = false).
Proof.
  intros H. apply phoneUS_inv in H
    as (o1 & d1 & o2 & s1 & d2 & s2 & d3 & -> & Ho1 & Hd1 & Ho2 & Hs1
        & Hd2 & Hs2 & Hd3).
  rewrite !List.filter_app.
  rewrite (paren_filtered "("%char o1 eq_refl Ho1),
    (paren_filtered ")"%char o2 eq_refl Ho2),
    (digits_phone_chars d1 (proj2 Hd1)), (digits_phone_chars d2 (proj2 Hd2)),
    (digits_phone_chars d3 (proj2 Hd3)).
  split; [|split].
  - apply phoneUS_inv.
    exists o1, d1, o2, (List.filter phone_char s1), d2,
      (List.filter phone_char s2), d3.
    repeat split; try tauto; try apply separator_filtered; tauto.
  - intros c l' Hl. destruct Hd1 as [Hlen Hd1].
    destruct d1 as [|a d1]; [discriminate|].
    apply List.Forall_cons_iff in Hd1 as [Ha _].
    destruct Ho1 as [->| ->]; simpl in Hl; injection Hl as <- _.
    + apply JSFacts.digit_not_space. exact Ha.
    + reflexivity.
  - intros c l' Hl. destruct Hd3 as [Hlen Hd3].
    destruct (List.exists_last (l := d3)) as (d3' & z & ->);
      [intros ->; discriminate|].
    apply List.Forall_app in Hd3 as [_ Hz].
    apply List.Forall_cons_iff in Hz as [Hz _].
    rewrite !app_assoc in Hl. apply app_inj_tail in Hl as [_ ->].
    apply JSFacts.digit_not_space. exact Hz.
Qed.

End SanitizerFacts.

(** * Sanitized values and the rules *)

Module SanitizedFacts.

Import JS Language Validation Validators.
Local Open Scope list_scope.

(** X5.  [sanitizeEmail] and [sanitizePhone] are idempotent: sanitizing a
    value that was sanitized before changes nothing. *)
Theorem sanitizers_idempotent (s : string) :
  sanitizeEmail (sanitizeEmail s) = sanitizeEmail s /\
  sanitizePhone (sanitizePhone s) = sanitizePhone s.
Proof.
  split.
  - unfold sanitizeEmail.
    rewrite TextFacts.trim_toLowerCase, TextFacts.trim_idempotent.
    apply TextFacts.toLowerCase_idempotent.
  - rewrite <- (JSFacts.str_chars (sanitizePhone (sanitizePhone s))).
    rewrite !SanitizerFacts.sanitizePhone_chars, TextFacts.filter_idempotent.
    rewrite <- SanitizerFacts.sanitizePhone_chars. apply JSFacts.str_chars.
Qed.

(** X6.  The result of [sanitizeString] (and of [sanitizeAddress], which is
    the same function) has no angle bracket and its characters are
    characters of the input, in their order; but it is trimmed before the
    brackets are removed, so the result can start or end with white space:
    sanitizing it again trims it, and [< a] is a text on which the second
    pass differs from the first. *)
Theorem sanitizeString_twice (s : string) :
  Forall (fun c => angle c = false) (chars (sanitizeString s)) /\
  sublist (chars (sanitizeString s)) (chars s) /\
  sanitizeString (sanitizeString s) = trim (sanitizeString s) /\
  sanitizeAddress s = sanitizeString s /\
  sanitizeString (sanitizeString "< a") <> sanitizeString "< a".
Proof.
  assert (Hfree : Forall (fun c => angle c = false) (chars (sanitizeString s))).
  { rewrite SanitizerFacts.sanitizeString_chars.
    apply List.Forall_forall. intros c Hc.
    apply List.filter_In in Hc as [_ Hc].
    apply negb_true_iff in Hc. exact Hc. }
  split; [exact Hfree|]. split; [|split; [|split]].
  - rewrite SanitizerFacts.sanitizeString_chars.
    etrans; [apply SanitizerFacts.filter_sublist|].
    apply SanitizerFacts.trim_sublist.
  - apply SanitizerFacts.sanitizeString_trim.
    destruct (JSFacts.trim_spec (sanitizeString s))
      as (pre & post & Hs & _).
    rewrite Hs in Hfree. apply List.Forall_app in Hfree as [_ Hfree].
    apply List.Forall_app in Hfree as [Hfree _]. exact Hfree.
  - reflexivity.
  - vm_compute. discriminate.
Qed.

Lemma email_classes_lower :
  classes (fun p => forall c, p c = true -> p (lower_char c) = true)
    PATTERNS.email.
Proof.
  assert (Hns : forall c, PATTERNS.not_space_at c = true ->
                          PATTERNS.not_space_at (lower_char c) = true).
  { intros c. destruct c as [[] [] [] [] [] [] [] []]; vm_compute;
      intros H; first [reflexivity|discriminate H]. }
  assert (Hat : forall c, Ascii.eqb "@" c = true ->
                          Ascii.eqb "@" (lower_char c) = true).
  { intros c H. apply Ascii.eqb_eq in H. subst c. reflexivity. }
  assert (Hdot : forall c, Ascii.eqb "." c = true ->
                           Ascii.eqb "." (lower_char c) = true).
  { intros c H. apply Ascii.eqb_eq in H. subst c. reflexivity. }
  unfold PATTERNS.email. simpl. tauto.
Qed.

(** Trimming and lower-casing keep a text inside the email pattern. *)
Lemma email_text_sanitized s :
  test PATTERNS.email (trim s) = true ->
  test PATTERNS.email (trim (sanitizeEmail s)) = true.
Proof.
  intros H. unfold sanitizeEmail.
  rewrite TextFacts.trim_toLowerCase, TextFacts.trim_idempotent.
  apply LanguageFacts.test_spec. apply LanguageFacts.test_spec in H.
  unfold toLowerCase. rewrite JSFacts.chars_str.
  apply LanguageFacts.matches_map; [apply email_classes_lower|exact H].
Qed.

(** X7.  An address that [validateEmail] accepts is still accepted after
    [sanitizeEmail]: trimming removes nothing the check had not already set
    aside, and lower-casing keeps every character inside the classes of the
    pattern. *)
Theorem sanitized_email_stays_valid (s : string) :
  fieldIsValid (validateEmail s) = true ->
  fieldIsValid (validateEmail (sanitizeEmail s)) = true.
Proof.
  unfold validateEmail.
  rewrite !(FieldFacts.pattern_rule_valid PATTERNS.email) by reflexivity.
  apply email_text_sanitized.
Qed.

(** The theorem on an address in capital letters with spaces around it. *)
Lemma sanitized_email_stays_valid_witness :
  fieldIsValid (validateEmail (sanitizeEmail "  ALEX@Example.COM ")) = true.
Proof.
  apply (sanitized_email_stays_valid "  ALEX@Example.COM ").
  vm_compute. reflexivity.
Defined.

(** Removing what is not a phone character keeps a text inside the US
    phone pattern. *)
Lemma phone_text_sanitized s :
  test PATTERNS.phoneUS (trim s) = true ->
  test PATTERNS.phoneUS (trim (sanitizePhone s)) = true.
Proof.
  intros H. apply LanguageFacts.test_spec in H.
  destruct (SanitizerFacts.phoneUS_filtered _ H) as (Hm & Hhd & Hlast).
  destruct (JSFacts.trim_spec s) as (pre & post & Hs & Hpre & Hpost & _).
  assert (Hsan :
    sanitizePhone s
      = str (pre ++ List.filter phone_char (chars (trim s)) ++ post)).
  { rewrite <- (JSFacts.str_chars (sanitizePhone s)).
    rewrite SanitizerFacts.sanitizePhone_chars, Hs, !List.filter_app.
    rewrite (TextFacts.filter_fixed phone_char pre),
      (TextFacts.filter_fixed phone_char post); [reflexivity| |].
    - apply (List.Forall_impl _ SanitizerFacts.space_phone_char Hpost).
    - apply (List.Forall_impl _ SanitizerFacts.space_phone_char Hpre). }
  rewrite Hsan, (TextFacts.trim_surround _ _ _ Hpre Hpost Hhd Hlast).
  apply LanguageFacts.test_spec. rewrite JSFacts.chars_str. exact Hm.
Qed.

(** X8.  A number that [validatePhone] accepts is still accepted after
    [sanitizePhone], although the pattern allows dots as separators and the
    sanitizer removes them. *)
Theorem sanitized_phone_stays_valid (s : string) :
  fieldIsValid (validatePhone s) = true ->
  fieldIsValid (validatePhone (sanitizePhone s)) = true.
Proof.
  unfold validatePhone.
  rewrite !(FieldFacts.pattern_rule_valid PATTERNS.phoneUS) by reflexivity.
  apply phone_text_sanitized.
Qed.

(** The theorem on a number written with dots. *)
Lemma sanitized_phone_stays_valid_witness :
  sanitizePhone " 555.123.4567" = " 5551234567"%string /\
  fieldIsValid (validatePhone (sanitizePhone " 555.123.4567")) = true.
Proof.
  split; [vm_compute; reflexivity|].
  apply (sanitized_phone_stays_valid " 555.123.4567").
  vm_compute. reflexivity.
Defined.

Lemma name_class_no_angle c :
  (is_alpha c || is_space c || one_of "-'." c) = true -> angle c = false.
Proof.
  destruct c as [[] [] [] [] [] [] [] []]; vm_compute;
    intros H; first [reflexivity|discriminate H].
Qed.

Lemma address_class_no_angle c :
  (is_alpha c || is_digit c || is_space c || one_of "-.,#/" c) = true ->
  angle c = false.
Proof.
  destruct c as [[] [] [] [] [] [] [] []]; vm_compute;
    intros H; first [reflexivity|discriminate H].
Qed.

(** A text accepted under a required rule whose pattern is a repetition of a
    class without angle brackets is only trimmed by [sanitizeString], and
    the result is accepted too. *)
Lemma valid_class_text_sanitized (p : ascii -> bool) s rule :
  fieldIsValid (validateField (VStr s) rule) = true ->
  required rule = true -> custom rule = None ->
  pattern rule = Some (Plus (Class p)) ->
  (forall c, p c = true -> angle c = false) ->
  sanitizeString s = trim s /\
  fieldIsValid (validateField (VStr (sanitizeString s)) rule) = true.
Proof.
  intros Hv Hreq Hcus Hpat Hp.
  destruct (FieldFacts.valid_required_inv _ _ Hreq Hv) as [Hb Hne].
  pose proof (FieldFacts.valid_pattern_inv _ _ _ Hpat Hb Hv) as Ht.
  simpl String_of in Hne, Ht.
  apply LanguageFacts.test_spec, LanguageFacts.matches_plus_class in Ht
    as [_ Hall].
  assert (Hs : sanitizeString s = trim s).
  { apply SanitizerFacts.sanitizeString_trim.
    apply (List.Forall_impl _ Hp Hall). }
  split; [exact Hs|].
  rewrite Hs, <- (FieldFacts.validateField_trim s rule Hcus Hne). exact Hv.
Qed.

(** X9.  A name that [validateName] accepts, and an address that
    [validateAddress] accepts, hold no angle bracket: [sanitizeString] and
    [sanitizeAddress] only trim them, and the results are accepted too. *)
Theorem valid_name_and_address_sanitized (s : string) :
  (fieldIsValid (validateName s) = true ->
   sanitizeString s = trim s /\
   fieldIsValid (validateName (sanitizeString s)) = true) /\
  (fieldIsValid (validateAddress s) = true ->
   sanitizeAddress s = trim s /\
   fieldIsValid (validateAddress (sanitizeAddress s)) = true).
Proof.
  split; intros Hv.
  - apply (valid_class_text_sanitized _ s _ Hv eq_refl eq_refl eq_refl
             name_class_no_angle).
  - apply (valid_class_text_sanitized _ s _ Hv eq_refl eq_refl eq_refl
             address_class_no_angle).
Qed.

(** The theorem on a name and an address with spaces around them. *)
Lemma valid_name_and_address_sanitized_witness :
  sanitizeString " Alex Johnson " = "Alex Johnson"%string /\
  sanitizeAddress "12 Main Street, Springfield "
    = "12 Main Street, Springfield"%string.
Proof.
  split.
  - rewrite (proj1 (proj1 (valid_name_and_address_sanitized " Alex Johnson ")
               ltac:(vm_compute; reflexivity))).
    vm_compute. reflexivity.
  - rewrite (proj1 (proj2 (valid_name_and_address_sanitized
                             "12 Main Street, Springfield ")
               ltac:(vm_compute; reflexivity))).
    vm_compute. reflexivity.
Defined.

(** The sanitized copy of a record, field by field. *)
Lemma get_sanitized (data : gmap string value) schema k :
  get (sanitizedData (validateFormData data schema)) k
    = match data !! k with
      | Some v => sanitize_entry k v
      | None => get data k
      end.
Proof.
  unfold get, validateFormData. cbn [sanitizedData].
  rewrite map_lookup_imap. destruct (data !! k); reflexivity.
Qed.

(** X10.  The sanitized copy [validateFormData] returns is not validated,
    and need not be valid when the record is: a time slot made of angle
    brackets passes its rule and is sanitized to the empty text, which does
    not.  But the four contact fields are safe: whenever the name, the
    email, the phone number or the address of the record passes its rule of
    the customer request, the same field of the sanitized copy passes it
    too. *)
Theorem sanitized_contact_fields_stay_valid (data : gmap string value)
  (schema : Schema) (k : string) (rule : ValidationRule) :
  (k, rule) ∈ [("customer_name"%string, customer_name_rule);
               ("customer_email"%string, customer_email_rule);
               ("customer_phone"%string, customer_phone_rule);
               ("pickup_address"%string, pickup_address_rule)] ->
  fieldIsValid (validateField (get data k) rule) = true ->
  fieldIsValid
    (validateField (get (sanitizedData (validateFormData data schema)) k)
       rule) = true /\
  fieldIsValid (validateField (VStr "<>") pickup_time_slot_rule) = true /\
  fieldIsValid
    (validateField (sanitize_entry "pickup_time_slot" (VStr "<>"))
       pickup_time_slot_rule) = false.
Proof.
  intros Hin Hv. split; [|split; vm_compute; reflexivity].
  rewrite get_sanitized.
  destruct (data !! k) as [v|] eqn:Hk; [|exact Hv].
  unfold get in Hv. rewrite Hk in Hv.
  destruct v as [| |s|x|text]; try exact Hv.
  apply elem_of_cons in Hin as [[= -> ->]|Hin].
  { apply (valid_class_text_sanitized _ s _ Hv eq_refl eq_refl eq_refl
             name_class_no_angle). }
  apply elem_of_cons in Hin as [[= -> ->]|Hin].
  { change (sanitize_entry "customer_email" (VStr s))
      with (VStr (sanitizeEmail s)).
    unfold customer_email_rule in *.
    rewrite (FieldFacts.pattern_rule_valid PATTERNS.email) in Hv |- *
      by reflexivity.
    apply email_text_sanitized. exact Hv. }
  apply elem_of_cons in Hin as [[= -> ->]|Hin].
  { change (sanitize_entry "customer_phone" (VStr s))
      with (VStr (sanitizePhone s)).
    unfold customer_phone_rule in *.
    rewrite (FieldFacts.pattern_rule_valid PATTERNS.phoneUS) in Hv |- *
      by reflexivity.
    apply phone_text_sanitized. exact Hv. }
  apply elem_of_cons in Hin as [[= -> ->]|Hin]; [|inversion Hin].
  change (sanitize_entry "pickup_address" (VStr s))
    with (VStr (sanitizeString s)).
  apply (valid_class_text_sanitized _ s _ Hv eq_refl eq_refl eq_refl
           address_class_no_angle).
Qed.

(** The theorem on the sample draft: its email is still valid once
    sanitized. *)
Lemma sanitized_contact_fields_stay_valid_witness :
  fieldIsValid
    (validateField
       (get (sanitizedData
               (validateFormData (sample_draft "2026-11-02") []))
          "customer_email") customer_email_rule) = true.
Proof.
  apply (sanitized_contact_fields_stay_valid (sample_draft "2026-11-02") []
           "customer_email" customer_email_rule).
  - apply list_elem_of_further, list_elem_of_here.
  - vm_compute. reflexivity.
Defined.

End SanitizedFacts.

(** * Properties of the patterns and of the date validator *)

Module PatternFacts.

Import JS Language Validation Validators.
Local Open Scope list_scope.

(** X11.  The texts the email pattern accepts are those made of a local
    part, an at sign and a domain that has a dot with text on both sides,
    where no part is empty, has white space or has an at sign.  An accepted
    text therefore has no white space at all and exactly one at sign. *)
Theorem email_pattern_shape (s : string) :
  (test PATTERNS.email s = true <->
   exists a b c,
     chars s = a ++ "@"%char :: b ++ "."%char :: c /\
     a <> [] /\ b <> [] /\ c <> [] /\
     Forall (fun x => PATTERNS.not_space_at x = true) (a ++ b ++ c)) /\
  (test PATTERNS.email s = true ->
   Forall (fun x => is_space x = false) (chars s) /\
   length (List.filter (Ascii.eqb "@") (chars s)) = 1%nat).
Proof.
  assert (Hshape : test PATTERNS.email s = true <->
    exists a b c,
      chars s = a ++ "@"%char :: b ++ "."%char :: c /\
      a <> [] /\ b <> [] /\ c <> [] /\
      Forall (fun x => PATTERNS.not_space_at x = true) (a ++ b ++ c)).
  { rewrite LanguageFacts.test_spec. apply SanitizerFacts.email_inv. }
  split; [exact Hshape|]. intros H.
  apply Hshape in H as (a & b & c & -> & _ & _ & _ & Hall).
  apply List.Forall_app in Hall as [Ha Hall].
  apply List.Forall_app in Hall as [Hb Hc].
  assert (Hsp : forall l, Forall (fun x => PATTERNS.not_space_at x = true) l ->
                          Forall (fun x => is_space x = false) l).
  { intros l. apply List.Forall_impl. intros x Hx.
    apply (SanitizerFacts.not_space_at_spec x Hx). }
  assert (Hat : forall l, Forall (fun x => PATTERNS.not_space_at x = true) l ->
                          List.filter (Ascii.eqb "@") l = []).
  { intros l Hl. apply SanitizerFacts.filter_none.
    revert Hl. apply List.Forall_impl. intros x Hx.
    apply (SanitizerFacts.not_space_at_spec x Hx). }
  split.
  - apply List.Forall_app. split; [apply Hsp; exact Ha|].
    constructor; [reflexivity|].
    apply List.Forall_app. split; [apply Hsp; exact Hb|].
    constructor; [reflexivity|]. apply Hsp. exact Hc.
  - rewrite List.filter_app. simpl. rewrite List.filter_app. simpl.
    rewrite (Hat a Ha), (Hat b Hb), (Hat c Hc). reflexivity.
Qed.

Lemma length_filter_digits d :
  Forall (fun c => is_digit c = true) d ->
  length (List.filter is_digit d) = length d.
Proof. intros H. rewrite (TextFacts.filter_fixed _ _ H). reflexivity. Qed.

Lemma separator_no_digit s :
  s = [] \/ (exists c, s = [c] /\ one_of "-. " c = true) ->
  List.filter is_digit s = [] /\ (length s <= 1)%nat.
Proof.
  intros [->|(c & -> & Hc)]; [split; [reflexivity|simpl; lia]|].
  split; [|simpl; lia]. simpl.
  destruct (is_digit c) eqn:Hd; [|reflexivity]. exfalso. revert Hc Hd.
  destruct c as [[] [] [] [] [] [] [] []]; vm_compute; congruence.
Qed.

Lemma paren_no_digit (p : ascii) o :
  is_digit p = false -> o = [] \/ o = [p] ->
  List.filter is_digit o = [] /\ (length o <= 1)%nat.
Proof.
  intros Hp [->| ->]; simpl; [split; [reflexivity|lia]|].
  rewrite Hp. split; [reflexivity|lia].
Qed.

(** X12.  A number the US phone pattern accepts has exactly ten digits, and
    at most four other characters (of the opening and closing parenthesis
    and two separators), so between ten and fourteen characters in all. *)
Theorem phoneUS_ten_digits (s : string) :
  test PATTERNS.phoneUS s = true ->
  length (List.filter is_digit (chars s)) = 10%nat /\
  (10 <= String.length s <= 14)%nat.
Proof.
  intros H. apply LanguageFacts.test_spec, SanitizerFacts.phoneUS_inv in H
    as (o1 & d1 & o2 & s1 & d2 & s2 & d3 & Hs & Ho1 & Hd1 & Ho2 & Hs1
        & Hd2 & Hs2 & Hd3).
  assert (Hlen : String.length s = length (chars s)).
  { rewrite <- (JSFacts.str_chars s) at 1. unfold str.
    generalize (chars s). intros l. induction l as [|c l IH]; simpl;
      [reflexivity|rewrite IH; reflexivity]. }
  rewrite Hlen, Hs, !List.filter_app, !length_app.
  destruct (paren_no_digit "("%char o1 eq_refl Ho1) as [-> ?].
  destruct (paren_no_digit ")"%char o2 eq_refl Ho2) as [-> ?].
  destruct (separator_no_digit s1 Hs1) as [-> ?].
  destruct (separator_no_digit s2 Hs2) as [-> ?].
  rewrite (length_filter_digits d1 (proj2 Hd1)),
    (length_filter_digits d2 (proj2 Hd2)),
    (length_filter_digits d3 (proj2 Hd3)).
  destruct Hd1 as [-> _], Hd2 as [-> _], Hd3 as [-> _]. simpl. lia.
Qed.

(** The theorem on a number with parentheses, a space and a hyphen. *)
Lemma phoneUS_ten_digits_witness :
  length (List.filter is_digit (chars "(555) 123-4567")) = 10%nat /\
  (10 <= String.length "(555) 123-4567" <= 14)%nat.
Proof.
  apply (phoneUS_ten_digits "(555) 123-4567"). vm_compute. reflexivity.
Defined.

(** X13.  On a date-only text [YYYY-MM-DD] denoting the day [d],
    [validateFutureDate] compares midnight UTC of that day with local
    midnight of today: the date is accepted exactly when it is after today's
    local date, or is today's local date on a host at or east of UTC (by
    the offset the start of its day is read at).  So, in spite of its
    message, it accepts today (east of UTC), and west of UTC it turns today
    down; a date it turns down gets the message
    [Date must be in the future]. *)
Theorem validateFutureDate_date_only (h : Host) (s : string) (d : Z) :
  clock_in_range h ->
  parse_iso_date s = Some (MakeDate d 0) ->
  (fieldIsValid (validateFutureDate h s) = true <->
   (local_today h < d \/
    (d = local_today h /\ 0 <= midnight_offset h (local_today h)))%Z) /\
  (fieldIsValid (validateFutureDate h s) = false ->
   error (validateFutureDate h s) = Some MESSAGES.futureDate).
Proof.
  intros Hclock Hparse.
  destruct (ValidationFacts.parse_iso_date_nonempty s _ Hparse) as [Hne Htrim].
  assert (Hb : is_blank (VStr s) = false).
  { simpl. apply String.eqb_neq. exact Hne. }
  unfold validateFutureDate.
  rewrite (FieldFacts.validateField_nonblank _ _ Hb).
  unfold check_required, check_minLength, check_maxLength, check_min,
    check_max, check_pattern, check_custom. simpl String_of.
  apply String.eqb_neq in Htrim.
  cbn [required minLength maxLength pattern min max custom truthy_bound].
  rewrite Htrim.
  cbn [andb first_error].
  unfold future_date_custom. cbn [host_parse Date_of]. unfold Date_parse.
  rewrite Hparse, (ValidationFacts.today_value h Hclock).
  destruct Hclock as [Hnow Hz].
  destruct (Hz (MakeDate (local_today h) 0)) as [_ Hol].
  fold (midnight_offset h (local_today h)) in Hol.
  unfold MakeDate, msPerDay in *.
  destruct (Z.ltb_spec (d * 86400000 + 0)
              (local_today h * 86400000 - midnight_offset h (local_today h)))
    as [Hlt|Hge].
  - change (String.eqb MESSAGES.futureDate "") with false. cbn.
    split; [|reflexivity]. split; [discriminate|]. lia.
  - cbn. split; [|discriminate]. split; [|reflexivity]. lia.
Qed.

(** The theorem on the two sample hosts: on 2026-11-01, [2026-11-01] is
    turned down five hours west of UTC and accepted two hours east of it. *)
Lemma validateFutureDate_date_only_witness :
  fieldIsValid (validateFutureDate (host_west (fun _ => None)) "2026-11-01")
    <> true /\
  fieldIsValid (validateFutureDate (host_east (fun _ => None)) "2026-11-01")
    = true.
Proof.
  split.
  - intros H.
    apply (proj1 (validateFutureDate_date_only (host_west (fun _ => None))
                    "2026-11-01" 20758
                    ltac:(split; [simpl; lia|];
                          apply ValidationFacts.fixed_zone_in_range;
                          unfold msPerDay; lia)
                    ltac:(vm_compute; reflexivity))) in H.
    vm_compute in H. destruct H as [H|[_ H]]; [discriminate H|].
    apply H. reflexivity.
  - apply (proj1 (validateFutureDate_date_only (host_east (fun _ => None))
                    "2026-11-01" 20758
                    ltac:(split; [simpl; lia|];
                          apply ValidationFacts.fixed_zone_in_range;
                          unfold msPerDay; lia)
                    ltac:(vm_compute; reflexivity))).
    right. split; vm_compute; [reflexivity|congruence].
Defined.

End PatternFacts.

(** * Properties of the quantity controls and price labels *)

Module SelectorFacts.

Import Pricing Selector.
Local Open Scope float_scope.

(** ** Rounding an integer never gives [NaN] *)

Lemma shr_1_nonneg mrs : (0 <= shr_m mrs -> 0 <= shr_m (shr_1 mrs))%Z.
Proof.
  destruct mrs as [m r s]. simpl. destruct m as [|[p|p|]|p]; simpl; lia.
Qed.

Lemma iter_shr_1_nonneg p mrs :
  (0 <= shr_m mrs -> 0 <= shr_m (SpecFloat.iter_pos shr_1 p mrs))%Z.
Proof.
  revert mrs. induction p as [p IH|p IH|]; intros mrs H; simpl.
  - apply IH, IH, shr_1_nonneg, H.
  - apply IH, IH, H.
  - apply shr_1_nonneg, H.
Qed.

Lemma shr_fexp_nonneg m e l :
  (0 <= m -> 0 <= shr_m (fst (shr_fexp prec emax m e l)))%Z.
Proof.
  intros H. unfold shr_fexp, shr.
  assert (H0 : (0 <= shr_m (shr_record_of_loc m l))%Z).
  { destruct l as [|[]]; exact H. }
  destruct (_ - e)%Z as [|p|p]; simpl; [exact H0| |exact H0].
  apply iter_shr_1_nonneg, H0.
Qed.

Lemma binary_round_aux_not_nan sx m e l :
  (0 <= m)%Z -> binary_round_aux prec emax sx m e l <> S754_nan.
Proof.
  intros H. unfold binary_round_aux.
  pose proof (shr_fexp_nonneg m e l H) as H1.
  destruct (shr_fexp prec emax m e l) as [mrs' e']. simpl in H1.
  assert (H2 : (0 <= round_nearest_even (shr_m mrs')
                       (loc_of_shr_record mrs'))%Z).
  { unfold round_nearest_even.
    destruct (loc_of_shr_record mrs') as [|[]]; try exact H1; [|lia].
    destruct (Z.even _); lia. }
  pose proof (shr_fexp_nonneg _ e' loc_Exact H2) as H3.
  destruct (shr_fexp prec emax _ e' loc_Exact) as [mrs'' e'']. simpl in H3.
  destruct (shr_m mrs'') as [|p|p]; [discriminate| |lia].
  destruct (e'' <=? emax - prec)%Z; discriminate.
Qed.

Lemma of_uint63_not_nan n : is_nan (of_uint63 n) = false.
Proof.
  rewrite FloatFacts.is_nan_spec, of_uint63_spec.
  pose proof (Uint63.to_Z_bounded n) as Hb.
  destruct (Uint63.to_Z n) as [|p|p]; [reflexivity| |lia].
  unfold binary_normalize, binary_round.
  destruct (shl_align _ _ _) as [mz ez].
  pose proof (binary_round_aux_not_nan false (Zpos mz) ez loc_Exact
                ltac:(lia)) as H.
  destruct (binary_round_aux _ _ _ _ _ _); congruence.
Qed.

Lemma opp_not_nan x : is_nan x = false -> is_nan (- x) = false.
Proof.
  rewrite !FloatFacts.is_nan_spec, opp_spec.
  destruct (Prim2SF x); simpl; congruence.
Qed.

Lemma Math_floor_not_nan x :
  is_nan x = false -> is_nan (Math_floor x) = false.
Proof.
  intros H. unfold Math_floor.
  destruct (Prim2SF x) as [s|s| |sg m e]; try exact H.
  destruct (0 <=? e)%Z; [exact H|].
  destruct (_ =? 0)%Z; [exact H|].
  destruct sg; [apply opp_not_nan|]; apply of_uint63_not_nan.
Qed.

(** ** The quantity [setQuantity] stores *)

Lemma zero_eqb_zero x : is_zero x = true -> (x =? 0) = true.
Proof.
  rewrite FloatFacts.is_zero_spec, FloatAxioms.eqb_spec.
  destruct (Prim2SF x) as [s| | |] eqn:E; try discriminate.
  intros _. reflexivity.
Qed.

(** The safe quantity is a zero, or a number above zero. *)
Lemma safe_quantity_cases x :
  (JS.Math_max 0 (Math_floor (if JS.truthy x then x else 0)) =? 0) = true \/
  (0 <? JS.Math_max 0 (Math_floor (if JS.truthy x then x else 0))) = true.
Proof.
  assert (Hz : is_nan (if JS.truthy x then x else 0) = false).
  { unfold JS.truthy. destruct (is_nan x) eqn:Hn, (is_zero x); simpl;
      first [exact Hn|reflexivity]. }
  apply Math_floor_not_nan in Hz.
  rewrite FloatFacts.Math_max_0, Hz.
  destruct (0 <? Math_floor _) eqn:Hpos; [right; exact Hpos|].
  left. reflexivity.
Qed.

Lemma setQuantity_lookup_ne value serviceId nextQty k :
  k <> serviceId ->
  setQuantity value serviceId nextQty !! k = value !! k.
Proof.
  intros Hne. unfold setQuantity.
  destruct (_ =? 0).
  - rewrite lookup_delete_ne, lookup_insert_ne by congruence. reflexivity.
  - rewrite lookup_insert_ne by congruence. reflexivity.
Qed.

Lemma setQuantity_lookup_eq value serviceId nextQty q :
  setQuantity value serviceId nextQty !! serviceId = Some q ->
  (0 <? q) = true.
Proof.
  unfold setQuantity. destruct (_ =? 0) eqn:E.
  - rewrite lookup_delete_eq. discriminate.
  - rewrite lookup_insert_eq. intros [= <-].
    destruct (safe_quantity_cases nextQty) as [H|H]; [congruence|exact H].
Qed.

(** A mapping whose quantities are above zero stays so under
    [setQuantity]. *)
Lemma setQuantity_positive value serviceId nextQty :
  (forall k q, value !! k = Some q -> (0 <? q) = true) ->
  forall k q, setQuantity value serviceId nextQty !! k = Some q ->
              (0 <? q) = true.
Proof.
  intros Hv k q. destruct (decide (k = serviceId)) as [->|Hne].
  - apply setQuantity_lookup_eq.
  - rewrite setQuantity_lookup_ne by exact Hne. apply Hv.
Qed.

(** With quantities above zero, the selected services are those that have
    an entry. *)
Lemma selected_iff_entry (value : ServiceQuantities) s :
  (forall k q, value !! k = Some q -> (0 <? q) = true) ->
  (is_selected value s = true <-> is_Some (value !! id s)).
Proof.
  intros Hv. unfold is_selected, requested.
  destruct (value !! id s) as [q|] eqn:Hq.
  - pose proof (Hv _ _ Hq) as Hpos.
    destruct (FloatFacts.pos_not_falsy q Hpos) as [Hn Hz].
    unfold JS.truthy. rewrite Hn, Hz. simpl. split; eauto.
  - split; [discriminate|]. intros [q Hq']. discriminate.
Qed.

(** X14.  [setQuantity] changes the entry of the one service it is called
    for: the quantity and the line total of every other service are as
    before.  A falsy argument (a zero or [NaN]) removes the entry of the
    service, and [dec] on a service that has no entry changes nothing. *)
Theorem setQuantity_effect (value : ServiceQuantities) (serviceId : string)
  (nextQty : float) :
  (forall s, id s <> serviceId ->
     requested (setQuantity value serviceId nextQty) s = requested value s /\
     line_total (setQuantity value serviceId nextQty) s
       = line_total value s) /\
  (JS.truthy nextQty = false ->
     setQuantity value serviceId nextQty = delete serviceId value) /\
  (value !! serviceId = None -> dec value serviceId = value).
Proof.
  assert (Hfalsy : forall v, setQuantity v serviceId 0 = delete serviceId v).
  { intros v. unfold setQuantity. change (JS.truthy 0) with false.
    change (JS.Math_max 0 (Math_floor 0) =? 0) with true.
    apply delete_insert_eq. }
  split; [|split].
  - intros s Hs.
    assert (Hreq : requested (setQuantity value serviceId nextQty) s
                   = requested value s).
    { unfold requested. rewrite setQuantity_lookup_ne by exact Hs.
      reflexivity. }
    split; [exact Hreq|]. unfold line_total. rewrite Hreq. reflexivity.
  - intros Hf. unfold setQuantity. rewrite Hf.
    change (JS.Math_max 0 (Math_floor 0) =? 0) with true.
    apply delete_insert_eq.
  - intros Hnone. unfold dec, current. rewrite Hnone.
    change (JS.Math_max 0 (0 - 1)) with 0.
    rewrite Hfalsy. apply delete_id. exact Hnone.
Qed.

(** X15.  The quantities stay above zero: if every entry of the mapping is
    a number above zero, so is every entry of the mapping that
    [setQuantity], [inc] or [dec] hands on, whatever the argument (a
    fraction is rounded down, and what is not above zero then removes the
    entry); in such a mapping the selected services are exactly those that
    have an entry. *)
Theorem quantities_stay_positive (value : ServiceQuantities)
  (serviceId : string) (nextQty : float) (next : ServiceQuantities) :
  (forall k q, value !! k = Some q -> (0 <? q) = true) ->
  next = setQuantity value serviceId nextQty \/
  next = inc value serviceId \/ next = dec value serviceId ->
  (forall k q, next !! k = Some q -> (0 <? q) = true) /\
  (forall s, is_selected next s = true <-> is_Some (next !! id s)).
Proof.
  intros Hv Hnext.
  assert (Hpos : forall k q, next !! k = Some q -> (0 <? q) = true).
  { destruct Hnext as [->|[->| ->]]; apply setQuantity_positive; exact Hv. }
  split; [exact Hpos|]. intros s. apply selected_iff_entry. exact Hpos.
Qed.

(** The theorem on an order of two items of the sample service set to 3.5:
    the service is still selected. *)
Lemma quantities_stay_positive_witness :
  is_selected (setQuantity {[ "svc1"%string := 2 ]} "svc1" 3.5) wash_and_fold
    = true.
Proof.
  apply (proj2 (quantities_stay_positive {[ "svc1"%string := 2 ]} "svc1"
                  3.5 _
                  ltac:(intros k q Hq;
                        apply lookup_singleton_Some in Hq as [_ <-];
                        reflexivity)
                  (or_introl eq_refl)) wash_and_fold).
  exists 3. vm_compute. reflexivity.
Defined.

(** X16.  The price label and the unit price of the totals: when the
    per-item price is a text that is not empty, the label shows the unit
    price per item; when there is no per-item price and the per-pound price
    is not empty, it shows the unit price per lb; when neither price is
    shown the label is [Contact for pricing] and the unit price is a zero.
    A per-item price that is the empty text is not shown but still taken
    as the unit price, which is then zero whatever per-pound price the label
    shows. *)
Theorem displayPrice_and_unit_price (formatCurrency : float -> string)
  (s : LaundryService) :
  (forall p, price_per_item s = Some p -> p <> ""%string ->
     displayPrice formatCurrency s
       = (formatCurrency (unit_price s) ++ " per item")%string) /\
  (forall p, price_per_item s = None -> price_per_pound s = Some p ->
     p <> ""%string ->
     displayPrice formatCurrency s
       = (formatCurrency (unit_price s) ++ " per lb")%string) /\
  (price_or_null (price_per_item s) = None ->
   price_or_null (price_per_pound s) = None ->
     displayPrice formatCurrency s = "Contact for pricing"%string /\
     is_zero (unit_price s) = true) /\
  (forall p, price_per_item s = Some ""%string ->
     price_per_pound s = Some p -> p <> ""%string ->
     displayPrice formatCurrency s
       = (formatCurrency (JS.Number_of_string p) ++ " per lb")%string /\
     unit_price s = 0).
Proof.
  unfold displayPrice, unit_price, price_or_null.
  split; [|split; [|split]].
  - intros p Hp Hne. rewrite Hp. apply String.eqb_neq in Hne. rewrite Hne.
    reflexivity.
  - intros p Hi Hp Hne. rewrite Hi, Hp. apply String.eqb_neq in Hne.
    rewrite Hne. reflexivity.
  - destruct (price_per_item s) as [pi|], (price_per_pound s) as [pp|];
      repeat match goal with
             | |- context [String.eqb ?x ""] =>
                 let E := fresh "E" in
                 destruct (String.eqb x "") eqn:E;
                 [apply String.eqb_eq in E; subst x|]
             end;
      intros H1 H2; try discriminate; split; reflexivity.
  - intros p Hi Hp Hne. rewrite Hi, Hp. apply String.eqb_neq in Hne.
    rewrite Hne. split; reflexivity.
Qed.

End SelectorFacts.

(** * More properties of the submission workflow *)

Module SubmissionMore.

Import Store Submission.
Local Open Scope list_scope.
Local Open Scope float_scope.

Lemma no_failure_when_all_ok {T} (l : list (nat * ApiResponse T)) :
  (forall i r, (i, r) ∈ l -> ok r = true) -> first_failure l = None.
Proof.
  induction l as [|[j [d|e]] l IH]; intros H; simpl.
  - reflexivity.
  - apply IH. intros i r Hin. apply (H i r).
    apply list_elem_of_further. exact Hin.
  - specialize (H j (ApiFailure e) (list_elem_of_here _ _)). discriminate H.
Qed.

Lemma issued_lines env payloads :
  List.filter is_issue (line_events env payloads) = imap LineIssued payloads.
Proof.
  unfold line_events. rewrite List.filter_app.
  assert (H2 : forall l : list (nat * ApiResponse RequestServiceRow),
            List.filter is_issue (map (fun '(i, r) => LineSettled i r) l) = []).
  { intros l. induction l as [|[i r] l IH]; [reflexivity|exact IH]. }
  rewrite H2, app_nil_r. unfold answered.
  assert (H1 : forall l : list (nat * RequestServiceInsert
                                * ApiResponse RequestServiceRow),
            List.filter is_issue (map (fun '(i, p, _) => LineIssued i p) l)
              = map (fun '(i, p, _) => LineIssued i p) l).
  { intros l. induction l as [|[[i p] r] l IH]; [reflexivity|].
    simpl. rewrite IH. reflexivity. }
  rewrite H1. change (map ?f ?l) with (f <$> l). rewrite fmap_imap.
  apply imap_ext. reflexivity.
Qed.

(** The quantity of a selected service. *)
Lemma quantity_of_selected (data : FormInputs) items s :
  In s (Pricing.selected items (quantities data)) ->
  (0 <? Pricing.requested (quantities data) s) = true /\
  JS.Math_max 0 (Pricing.requested (quantities data) s)
    = Pricing.requested (quantities data) s.
Proof.
  intros Hin. apply List.filter_In in Hin as [_ Hsel].
  unfold Pricing.is_selected in Hsel. split; [exact Hsel|].
  rewrite FloatFacts.Math_max_0, Hsel.
  destruct (FloatFacts.pos_not_falsy _ Hsel) as [-> _]. reflexivity.
Qed.

(** X17.  When the store accepts the order and every line, the submission
    ends in success: the success text and toast are set, no error text is,
    and the form is reset once.  The writes issued are the order and then
    one line per selected service, in the order of the catalog; every line
    carries the id of the order that was created and a quantity above
    zero. *)
Theorem submission_success (env : Env) (items : list Pricing.LaundryService)
  (total : float) (data : FormInputs) (w : World) (row : RequestRow) :
  let payload := payload_of total data in
  let chosen := Pricing.selected items (quantities data) in
  let lines := map (line_of row data) chosen in
  let w' := run (onSubmit items total data) env w in
  chosen <> [] ->
  create_reply env payload = ApiSuccess row ->
  (forall i p, lines !! i = Some p -> ok (line_reply env i p) = true) ->
  ui w' = ui_succeeded (ui w) /\
  List.filter is_issue (log w')
    = List.filter is_issue (log w)
        ++ CreateIssued payload :: imap LineIssued lines /\
  length lines = length chosen /\
  Forall (fun p => request_id p = id row /\ (0 <? quantity p) = true) lines.
Proof.
  intros payload chosen lines w'. subst payload chosen lines w'.
  rewrite SubmissionFacts.onSubmit_run. cbv zeta.
  remember (Pricing.selected items (quantities data)) as sel eqn:Hsel.
  intros Hne Hcreate Hlines.
  destruct sel as [|s0 rest]; [contradiction|].
  rewrite Hcreate.
  assert (Hnone : first_failure
                    (settled env (map (line_of row data) (s0 :: rest)))
                  = None).
  { apply no_failure_when_all_ok. intros i r Hin.
    apply SubmissionFacts.elem_of_settled in Hin as (p & Hp & ->).
    apply (Hlines i p Hp). }
  rewrite Hnone. cbn [ui log]. split; [reflexivity|].
  split; [|split].
  - rewrite !List.filter_app, issued_lines, <- app_assoc. reflexivity.
  - apply length_map.
  - apply List.Forall_forall. intros p Hp. apply List.in_map_iff in Hp
      as (s & <- & Hs).
    split; [reflexivity|]. cbn [quantity line_of].
    apply (quantity_of_selected data items s). rewrite <- Hsel. exact Hs.
Qed.

(** The theorem on the sample order and a store that accepts every
    write. *)
Lemma submission_success_witness :
  ui (run (onSubmit three_services sample_total sample_data) env_accepting
        initial) = ui_succeeded initial_ui.
Proof.
  apply (submission_success env_accepting three_services sample_total
           sample_data initial
           (row_of_insert "r1" (payload_of sample_total sample_data))).
  - vm_compute. discriminate.
  - reflexivity.
  - intros i p _. reflexivity.
Defined.

(** X18.  However a submission ends, the loading flag is cleared and the
    field errors are untouched; either the success text is set and the
    error text is not, or the error text is set to a message that is not
    empty and the success text is not; and the form is reset only in the
    first case. *)
Theorem onSubmit_final_state (env : Env)
  (items : list Pricing.LaundryService) (total : float) (data : FormInputs)
  (w : World) :
  let u := ui (run (onSubmit items total data) env w) in
  submitLoading u = false /\
  fieldErrors u = fieldErrors (ui w) /\
  ((submitSuccess u = Some "Request submitted successfully!"%string /\
    submitError u = None /\ resets u = S (resets (ui w))) \/
   (submitSuccess u = None /\ resets u = resets (ui w) /\
    exists e, submitError u = Some e /\ e <> ""%string)).
Proof.
  assert (Hmsg : forall e fallback,
            fallback <> ""%string -> message_or e fallback <> ""%string).
  { intros e fallback Hf. unfold message_or.
    destruct (String.eqb e "") eqn:E; [exact Hf|].
    apply String.eqb_neq in E. exact E. }
  assert (Hfailed : forall e,
    submitLoading (ui_failed (ui w) e) = false /\
    fieldErrors (ui_failed (ui w) e) = fieldErrors (ui w) /\
    ((submitSuccess (ui_failed (ui w) e)
        = Some "Request submitted successfully!"%string /\
      submitError (ui_failed (ui w) e) = None /\
      resets (ui_failed (ui w) e) = S (resets (ui w))) \/
     (submitSuccess (ui_failed (ui w) e) = None /\
      resets (ui_failed (ui w) e) = resets (ui w) /\
      exists e', submitError (ui_failed (ui w) e) = Some e'
                 /\ e' <> ""%string))).
  { intros e. split; [reflexivity|]. split; [reflexivity|]. right.
    split; [reflexivity|]. split; [reflexivity|]. eexists.
    split; [reflexivity|]. apply Hmsg. discriminate. }
  cbv zeta. rewrite SubmissionFacts.onSubmit_run.
  destruct (Pricing.selected items (quantities data)) as [|s sel].
  - split; [reflexivity|]. split; [reflexivity|]. right.
    split; [reflexivity|]. split; [reflexivity|]. eexists.
    split; [reflexivity|]. discriminate.
  - cbv zeta. destruct (create_reply env (payload_of total data)) as [row|e].
    + cbn [ui]. destruct (first_failure _) as [e|]; [apply Hfailed|].
      split; [reflexivity|]. split; [reflexivity|]. left.
      repeat split; reflexivity.
    + apply Hfailed.
Qed.

(** X19.  The line written for a selected service has the quantity the
    summary shows, which is above zero, and as its cost the line total of
    the summary with two decimals: the [Math.max(0, qty)] of the totals
    changes nothing for a selected service. *)
Theorem line_cost_matches_display (row : RequestRow) (data : FormInputs)
  (items : list Pricing.LaundryService) (s : Pricing.LaundryService) :
  In s (Pricing.selected items (quantities data)) ->
  service_id (line_of row data s) = Pricing.id s /\
  request_id (line_of row data s) = id row /\
  (0 <? quantity (line_of row data s)) = true /\
  estimated_cost (line_of row data s)
    = JS.toFixed2 (Pricing.line_total (quantities data) s) /\
  In (Pricing.name s, quantity (line_of row data s),
      Pricing.line_total (quantities data) s)
    (Pricing.summary items (quantities data)).
Proof.
  intros Hin. destruct (quantity_of_selected data items s Hin) as [Hpos Hmax].
  split; [reflexivity|]. split; [reflexivity|]. split; [exact Hpos|].
  unfold line_of, Pricing.line_total. cbn [estimated_cost quantity].
  rewrite Hmax. split; [reflexivity|].
  unfold Pricing.summary. apply List.in_map_iff. exists s.
  rewrite Hmax. split; [reflexivity|exact Hin].
Qed.

(** The theorem on the first service of the sample order: four items at
    2.50 are written as a line of 10.00. *)
Lemma line_cost_matches_display_witness :
  estimated_cost
    (line_of (row_of_insert "r1" (payload_of sample_total sample_data))
       sample_data (sample_service "a" "2.50")) = "10.00"%string.
Proof.
  rewrite (proj1 (proj2 (proj2 (proj2
    (line_cost_matches_display
       (row_of_insert "r1" (payload_of sample_total sample_data))
       sample_data three_services (sample_service "a" "2.50")
       ltac:(vm_compute; tauto)))))).
  vm_compute. reflexivity.
Defined.

End SubmissionMore.

(** * More properties of the batch update *)

Module BatchFacts.

Import Store Admin.
Local Open Scope list_scope.

(** The store after a batch update: every row is as it was or carries the
    patch, and the answers are those of the store on each id. *)
Lemma batch_db rejects reads w :
  (forall x,
     db (handleBatchStatusUpdate rejects reads w) !! x = db w !! x \/
     db (handleBatchStatusUpdate rejects reads w) !! x
       = apply_patch (batch_patch w) <$> db w !! x) /\
  (Forall (fun rid => accepted rejects (db w) rid = true)
     (selectedRequests w) ->
   selectedRequests (handleBatchStatusUpdate rejects reads w) = []).
Proof.
  unfold handleBatchStatusUpdate.
  destruct (length (selectedRequests w) =? 0)%nat eqn:Hlen.
  { split; [intros x; left; reflexivity|]. intros _.
    apply Nat.eqb_eq in Hlen.
    destruct (selectedRequests w); [reflexivity|discriminate]. }
  change {| patch_status := _; patch_internal_notes := _ |}
    with (batch_patch w).
  unfold update_all.
  destruct (AdminFacts.update_all_spec rejects (batch_patch w)
              (selectedRequests w) (db w) []) as [Hok Hdb].
  destruct (fold_left (settle_update rejects (batch_patch w))
              (selectedRequests w) (db w, [])) as [d' results].
  simpl in Hok, Hdb.
  assert (Hx : forall x, d' !! x = db w !! x \/
                         d' !! x = apply_patch (batch_patch w) <$> db w !! x).
  { intros x. destruct (Hdb x) as [Hyes Hno].
    destruct (decide (x ∈ selectedRequests w /\ rejects x = None)) as [H|H];
      [right; apply Hyes; exact H|left; apply Hno; exact H]. }
  split.
  - destruct (length (List.filter _ results) =? 0)%nat; [|exact Hx].
    intros x.
    match goal with
    | |- context [loadRequests reads ?v] =>
        rewrite (proj1 (AdminFacts.loadRequests_spec reads v))
    end.
    apply Hx.
  - intros Hall.
    assert (Hnone : List.filter (fun r => negb (ok r)) results = []).
    { assert (Hmap : Forall (fun b => b = true) (map ok results)).
      { rewrite Hok. apply List.Forall_map. exact Hall. }
      clear -Hmap. induction results as [|r results IH]; [reflexivity|].
      simpl in Hmap. apply List.Forall_cons_iff in Hmap as [Hr Hmap].
      simpl. rewrite Hr. simpl. apply IH. exact Hmap. }
    rewrite Hnone. cbn [length Nat.eqb].
    match goal with
    | |- context [loadRequests reads ?v] =>
        destruct (AdminFacts.loadRequests_spec reads v)
          as (_ & _ & _ & Hsel & _)
    end.
    rewrite Hsel. reflexivity.
Qed.

(** X20.  A batch update never adds or removes a row and never changes a
    customer's data: whatever the selection and whatever the store answers,
    every row keeps its id, name, email, phone, address, pickup date and
    time, special instructions, cost and creation time; its status is the
    old one or the status of the batch; its internal notes are the old ones
    or the notes of the batch, and they are the old ones when the notes box
    is empty. *)
Theorem batch_keeps_customer_data (rejects : string -> option string)
  (reads : Reads) (w : World) (x : string) :
  let w' := handleBatchStatusUpdate rejects reads w in
  (db w !! x = None -> db w' !! x = None) /\
  (forall r, db w !! x = Some r ->
     exists r', db w' !! x = Some r' /\
       id r' = id r /\ customer_name r' = customer_name r /\
       customer_email r' = customer_email r /\
       customer_phone r' = customer_phone r /\
       pickup_address r' = pickup_address r /\
       pickup_date r' = pickup_date r /\
       pickup_time_slot r' = pickup_time_slot r /\
       special_instructions r' = special_instructions r /\
       total_estimated_cost r' = total_estimated_cost r /\
       created_at r' = created_at r /\
       (status r' = status r \/ status r' = batchStatus w) /\
       (internal_notes r' = internal_notes r \/
        internal_notes r' = Some (batchNotes w)) /\
       (batchNotes w = ""%string -> internal_notes r' = internal_notes r)).
Proof.
  cbv zeta.
  destruct (proj1 (batch_db rejects reads w) x) as [Hx|Hx]; rewrite Hx.
  - split; [auto|]. intros r Hr. exists r. rewrite Hr.
    repeat split; auto.
  - split; [intros ->; reflexivity|]. intros r Hr. rewrite Hr. simpl.
    eexists. split; [reflexivity|]. unfold apply_patch, batch_patch. simpl.
    repeat split; auto.
    + destruct (String.eqb (batchNotes w) ""); auto.
    + intros ->. reflexivity.
Qed.

(** X21.  With nothing selected the batch update does nothing at all: no
    write, no toast, no change of state.  After a batch update in which the
    store accepted every write the selection is empty, so running the
    update again does nothing. *)
Theorem batch_without_selection (rejects : string -> option string)
  (reads : Reads) (w : World) :
  (selectedRequests w = [] -> handleBatchStatusUpdate rejects reads w = w) /\
  (Forall (fun rid => accepted rejects (db w) rid = true)
     (selectedRequests w) ->
   handleBatchStatusUpdate rejects reads
     (handleBatchStatusUpdate rejects reads w)
     = handleBatchStatusUpdate rejects reads w).
Proof.
  assert (Hempty : forall v, selectedRequests v = [] ->
                             handleBatchStatusUpdate rejects reads v = v).
  { intros v Hv. unfold handleBatchStatusUpdate. rewrite Hv. reflexivity. }
  split; [apply Hempty|]. intros Hall. apply Hempty.
  apply (proj2 (batch_db rejects reads w) Hall).
Qed.

End BatchFacts.

(** * Properties of the request list *)

Module RequestsFacts.

Import Store Admin Requests.
Local Open Scope list_scope.

Lemma Status_eqb_eq a b : Status_eqb a b = true <-> a = b.
Proof. destruct a, b; vm_compute; split; congruence. Qed.

Lemma keeps_no_filters r : keeps no_filters r = true.
Proof. reflexivity. Qed.

Lemma toLowerCase_empty s :
  String.eqb (JS.toLowerCase s) "" = String.eqb s "".
Proof. destruct s; reflexivity. Qed.

(** X22.  The listed requests are requests of the page, in their order, and
    each has the status and the pickup date of the filters that are set;
    with no filter set every request is listed; filtering the list again
    changes nothing; the search does not depend on the case of the term,
    and a request whose name holds the term, case apart, is listed when the
    other filters let it through. *)
Theorem filteredRequests_properties (f : Filters)
  (requests : list RequestRow) :
  sublist (filteredRequests f requests) requests /\
  filteredRequests no_filters requests = requests /\
  filteredRequests f (filteredRequests f requests)
    = filteredRequests f requests /\
  Forall (fun r =>
            (forall st, statusFilter f = Some st -> status r = st) /\
            (dateFilter f <> ""%string -> pickup_date r = dateFilter f))
    (filteredRequests f requests) /\
  filteredRequests
    {| statusFilter := statusFilter f; dateFilter := dateFilter f;
       searchTerm := JS.toLowerCase (searchTerm f) |} requests
    = filteredRequests f requests /\
  (forall r, In r requests ->
     (forall st, statusFilter f = Some st -> status r = st) ->
     (dateFilter f <> ""%string -> pickup_date r = dateFilter f) ->
     includes (JS.toLowerCase (customer_name r))
       (JS.toLowerCase (searchTerm f)) = true ->
     In r (filteredRequests f requests)).
Proof.
  unfold filteredRequests. split; [|split; [|split; [|split; [|split]]]].
  - apply SanitizerFacts.filter_sublist.
  - apply TextFacts.filter_fixed. apply List.Forall_forall. reflexivity.
  - apply TextFacts.filter_idempotent.
  - apply List.Forall_forall. intros r Hr.
    apply List.filter_In in Hr as [_ Hk]. unfold keeps in Hk. split.
    + intros st Hst. rewrite Hst in Hk.
      destruct (Status_eqb (status r) st) eqn:E; [|discriminate].
      apply Status_eqb_eq. exact E.
    + intros Hd. destruct (match statusFilter f with
                           | Some st => negb (Status_eqb (status r) st)
                           | None => false
                           end); [discriminate|].
      apply String.eqb_neq in Hd. rewrite Hd in Hk. simpl in Hk.
      destruct (String.eqb (pickup_date r) (dateFilter f)) eqn:E;
        [|discriminate].
      apply String.eqb_eq. exact E.
  - apply List.filter_ext. intros r. unfold keeps. simpl.
    rewrite toLowerCase_empty, TextFacts.toLowerCase_idempotent.
    reflexivity.
  - intros r Hin Hst Hdate Hname. apply List.filter_In. split; [exact Hin|].
    unfold keeps.
    assert (H1 : match statusFilter f with
                 | Some st => negb (Status_eqb (status r) st)
                 | None => false
                 end = false).
    { destruct (statusFilter f) as [st|]; [|reflexivity].
      rewrite (proj2 (Status_eqb_eq _ _) (Hst st eq_refl)). reflexivity. }
    rewrite H1.
    assert (H2 : negb (String.eqb (dateFilter f) "")
                 && negb (String.eqb (pickup_date r) (dateFilter f)) = false).
    { destruct (String.eqb (dateFilter f) "") eqn:E; [reflexivity|].
      apply String.eqb_neq in E. rewrite (Hdate E), String.eqb_refl.
      reflexivity. }
    rewrite H2. destruct (negb (String.eqb (searchTerm f) ""));
      [|reflexivity].
    rewrite Hname. reflexivity.
Qed.

(** ** The selection *)

Lemma Set_has_spec s x : Set_has s x = true <-> x ∈ s.
Proof.
  unfold Set_has. rewrite List.existsb_exists. split.
  - intros (y & Hy & E). apply String.eqb_eq in E. subst y.
    apply list_elem_of_In. exact Hy.
  - intros H. exists x. split; [apply list_elem_of_In; exact H|].
    apply String.eqb_refl.
Qed.

Lemma Set_has_false s x : Set_has s x = false <-> x ∉ s.
Proof.
  rewrite <- Set_has_spec. destruct (Set_has s x); split; congruence.
Qed.

Lemma elem_of_Set_delete s x y : y ∈ Set_delete s x <-> y ∈ s /\ y <> x.
Proof.
  unfold Set_delete. rewrite !list_elem_of_In, List.filter_In.
  rewrite negb_true_iff, String.eqb_neq. split; intros [H1 H2]; split;
    congruence.
Qed.

Lemma NoDup_Set_delete s x : NoDup s -> NoDup (Set_delete s x).
Proof.
  intros H. apply NoDup_ListNoDup. apply List.NoDup_filter.
  apply NoDup_ListNoDup. exact H.
Qed.

Lemma Set_delete_absent s x : x ∉ s -> Set_delete s x = s.
Proof.
  intros H. apply TextFacts.filter_fixed. apply List.Forall_forall.
  intros y Hy. apply negb_true_iff, String.eqb_neq. intros ->.
  apply H. apply list_elem_of_In. exact Hy.
Qed.

Lemma Set_delete_add s x : NoDup s -> x ∈ s -> Set_delete s x ++ [x] ≡ₚ s.
Proof.
  induction 1 as [|a l Ha Hnd IH]; intros Hin; [inversion Hin|].
  unfold Set_delete in *. simpl.
  destruct (String.eqb x a) eqn:E; simpl.
  - apply String.eqb_eq in E. subst a.
    fold (Set_delete l x). rewrite (Set_delete_absent l x Ha).
    symmetry. apply Permutation_cons_append.
  - apply String.eqb_neq in E. apply elem_of_cons in Hin as [?|Hin];
      [congruence|].
    constructor. apply IH. exact Hin.
Qed.

(** X23.  Ticking the box of a request toggles that request and no other:
    the selection stays free of duplicates, a request other than the one
    ticked is selected afterwards exactly when it was before, the one
    ticked exactly when it was not; ticking twice gives back the selection
    that was there. *)
Theorem handleSelectRequest_toggles (selected : list string)
  (rid : string) :
  NoDup selected ->
  NoDup (handleSelectRequest selected rid) /\
  (forall x, x ∈ handleSelectRequest selected rid <->
     (x ∈ selected /\ x <> rid) \/ (x = rid /\ rid ∉ selected)) /\
  handleSelectRequest (handleSelectRequest selected rid) rid ≡ₚ selected.
Proof.
  intros Hnd. unfold handleSelectRequest.
  destruct (Set_has selected rid) eqn:Hhas.
  - apply Set_has_spec in Hhas.
    assert (Hout : Set_has (Set_delete selected rid) rid = false).
    { apply Set_has_false. rewrite elem_of_Set_delete. tauto. }
    rewrite Hout. split; [apply NoDup_Set_delete; exact Hnd|]. split.
    + intros x. rewrite elem_of_Set_delete. tauto.
    + unfold Set_add. rewrite Hout. apply Set_delete_add; assumption.
  - pose proof Hhas as Hnot. apply Set_has_false in Hnot.
    unfold Set_add. rewrite Hhas.
    assert (Hin : Set_has (selected ++ [rid]) rid = true).
    { apply Set_has_spec. set_solver. }
    rewrite Hin. split; [|split].
    + apply NoDup_app. split; [exact Hnd|]. split; [|apply NoDup_singleton].
      intros x Hx Hx'. apply list_elem_of_singleton in Hx'. subst x.
      contradiction.
    + intros x. rewrite elem_of_app, list_elem_of_singleton. split.
      * intros [Hx|Hx]; [left; split; [exact Hx|]|right; auto].
        intros ->. contradiction.
      * intros [[Hx _]|[Hx _]]; auto.
    + unfold Set_delete. rewrite List.filter_app. simpl.
      rewrite String.eqb_refl. simpl. rewrite app_nil_r.
      fold (Set_delete selected rid).
      rewrite (Set_delete_absent _ _ Hnot). reflexivity.
Qed.

(** The theorem on a selection of two requests. *)
Lemma handleSelectRequest_toggles_witness :
  handleSelectRequest (handleSelectRequest ["1"; "2"] "1") "1"
    ≡ₚ ["1"; "2"]%string.
Proof.
  apply (handleSelectRequest_toggles ["1"; "2"]%string "1"%string).
  apply (bool_decide_unpack _). vm_compute. exact I.
Defined.

Lemma Set_add_spec s x :
  NoDup s ->
  NoDup (Set_add s x) /\ (forall y, y ∈ Set_add s x <-> y ∈ s \/ y = x).
Proof.
  intros Hnd. unfold Set_add. destruct (Set_has s x) eqn:Hhas.
  - apply Set_has_spec in Hhas. split; [exact Hnd|]. intros y. split;
      [auto|]. intros [H| ->]; assumption.
  - apply Set_has_false in Hhas. split.
    + apply NoDup_app. split; [exact Hnd|]. split; [|apply NoDup_singleton].
      intros y Hy Hy'. apply list_elem_of_singleton in Hy'. subst y.
      contradiction.
    + intros y. rewrite elem_of_app, list_elem_of_singleton. tauto.
Qed.

Lemma Set_of_gen ids acc :
  NoDup acc ->
  NoDup (fold_left Set_add ids acc) /\
  (forall y, y ∈ fold_left Set_add ids acc <-> y ∈ acc \/ y ∈ ids) /\
  (NoDup (acc ++ ids) -> fold_left Set_add ids acc = acc ++ ids).
Proof.
  revert acc. induction ids as [|x ids IH]; intros acc Hacc; simpl.
  - split; [exact Hacc|]. split; [|rewrite app_nil_r; reflexivity].
    intros y. split; [auto|]. intros [H|H]; [exact H|inversion H].
  - destruct (Set_add_spec acc x Hacc) as [Hnd Hin].
    destruct (IH (Set_add acc x) Hnd) as (IH1 & IH2 & IH3).
    split; [exact IH1|]. split.
    + intros y. rewrite IH2, Hin, elem_of_cons. tauto.
    + intros Hall.
      assert (Hx : Set_add acc x = acc ++ [x]).
      { unfold Set_add. destruct (Set_has acc x) eqn:Hhas; [|reflexivity].
        apply Set_has_spec in Hhas. apply NoDup_app in Hall as (_ & Hd & _).
        exfalso. apply (Hd x Hhas). apply list_elem_of_here. }
      rewrite Hx in *. rewrite IH3, <- app_assoc; [reflexivity|].
      rewrite <- app_assoc. exact Hall.
Qed.

(** X24.  The box in the header of the list looks at sizes only: when as
    many requests are selected as are listed, the selection is cleared,
    even if it holds other requests than the listed ones; otherwise the
    selection becomes the ids of the listed requests, each once (and in the
    order of the list when the ids are distinct).  Ticking it twice, with a
    list that is not empty and has distinct ids, selects all and then
    none, or none and then all. *)
Theorem handleSelectAll_outcome (selected : list string)
  (filtered : list RequestRow) :
  (length selected = length filtered ->
   handleSelectAll selected filtered = []) /\
  (length selected <> length filtered ->
   NoDup (handleSelectAll selected filtered) /\
   (forall x, x ∈ handleSelectAll selected filtered <-> x ∈ map id filtered) /\
   (NoDup (map id filtered) ->
    handleSelectAll selected filtered = map id filtered)) /\
  (NoDup (map id filtered) -> filtered <> [] ->
   handleSelectAll (handleSelectAll selected filtered) filtered
     = if (length selected =? length filtered)%nat then map id filtered
       else []).
Proof.
  destruct (Set_of_gen (map id filtered) [] (NoDup_nil_2))
    as (Hnd & Hin & Heq).
  assert (Hsame : forall sel, length sel = length filtered ->
                  handleSelectAll sel filtered = []).
  { intros sel H. unfold handleSelectAll. rewrite H, Nat.eqb_refl.
    reflexivity. }
  assert (Hdiff : forall sel, length sel <> length filtered ->
                  handleSelectAll sel filtered = Set_of (map id filtered)).
  { intros sel H. unfold handleSelectAll. apply Nat.eqb_neq in H.
    rewrite H. reflexivity. }
  split; [apply Hsame|]. split.
  - intros H. rewrite (Hdiff _ H). unfold Set_of. split; [exact Hnd|].
    split.
    + intros x. rewrite Hin. split; [intros [Hx|Hx]; [inversion Hx|exact Hx]|].
      auto.
    + intros Hids. apply (Heq Hids).
  - intros Hids Hne. destruct (length selected =? length filtered)%nat eqn:E.
    + apply Nat.eqb_eq in E. rewrite (Hsame _ E), Hdiff.
      * apply (Heq Hids).
      * simpl. destruct filtered; [contradiction|discriminate].
    + apply Nat.eqb_neq in E. rewrite (Hdiff _ E). apply Hsame.
      unfold Set_of. rewrite (Heq Hids). apply length_map.
Qed.

End RequestsFacts.

(** * Properties of the single edit *)

Module EditFacts.

Import Store Admin Requests.
Local Open Scope list_scope.

Lemma or_text_nonempty x fallback :
  fallback <> ""%string -> or_text x fallback <> ""%string.
Proof.
  intros H. unfold or_text. destruct x as [s|]; [|exact H].
  destruct (String.eqb s "") eqn:E; [exact H|].
  apply String.eqb_neq in E. exact E.
Qed.

(** The answer of the store to a single write. *)
Lemma store_update_cases rj rid updates d :
  (accepted rj d rid = false /\
   exists e, store_update rj rid updates d = (d, ApiFailure e)) \/
  (accepted rj d rid = true /\
   exists r, d !! rid = Some r /\
     store_update rj rid updates d
       = (<[rid := apply_patch updates r]> d,
          ApiSuccess (apply_patch updates r))).
Proof.
  unfold accepted, store_update.
  destruct (rj rid) as [e|]; [left; eauto|].
  destruct (d !! rid) as [r|]; [right; eauto|left; eauto].
Qed.

(** X25.  A single edit whose write the store turns down changes nothing
    but the toasts: the rows of the page and of the store are as they were,
    no mail is sent, and one error toast with a message that is not empty
    is shown.  When the store accepts the write, the row is patched in the
    store and in the list of the page, whatever becomes of the mail; a mail
    is sent exactly when the patch has a status and the page lists the
    request, with the data of the row as the page had it and the new
    status; when the mail service fails, an error toast [Status updated but
    email failed: ...] follows the success toast and the update stays. *)
Theorem updateSingleRequest_outcome (sv : Services) (rid : string)
  (updates : RequestPatch) (p : Page) :
  let p' := updateSingleRequest sv rid updates p in
  (accepted (rejects sv) (page_db p) rid = false ->
   page_db p' = page_db p /\ requests p' = requests p /\
   emails p' = emails p /\
   exists m, m <> ""%string /\
     page_toasts p' = page_toasts p ++ [(m, error)]) /\
  (accepted (rejects sv) (page_db p) rid = true ->
   page_db p' !! rid = apply_patch updates <$> page_db p !! rid /\
   (forall x, x <> rid -> page_db p' !! x = page_db p !! x) /\
   requests p' = map (patch_local rid updates) (requests p) /\
   (forall st request,
      patch_status updates = Some st ->
      List.find (fun r => String.eqb (id r) rid) (requests p)
        = Some request ->
      emails p' = emails p ++ [notification_of request st] /\
      page_toasts p' =
        page_toasts p ++
          [("Request updated successfully"%string, success);
           match email_reply sv (notification_of request st) with
           | EmailSent => ("Status update email sent"%string, success)
           | EmailNotSent e =>
               (("Status updated but email failed: "
                   ++ or_text e "Failed to send email")%string, error)
           end]) /\
   (patch_status updates = None \/
    List.find (fun r => String.eqb (id r) rid) (requests p) = None ->
    emails p' = emails p /\
    page_toasts p' =
      page_toasts p ++ [("Request updated successfully"%string, success)])).
Proof.
  cbv zeta. unfold updateSingleRequest.
  destruct (store_update_cases (rejects sv) rid updates (page_db p))
    as [[Hacc (e & Hupd)]|[Hacc (r & Hr & Hupd)]]; rewrite Hupd, Hacc.
  - split; [|discriminate]. intros _. unfold show.
    cbn [page_db requests emails page_toasts].
    repeat split; try reflexivity.
    eexists. split; [|reflexivity].
    apply (or_text_nonempty (Some e)). discriminate.
  - split; [discriminate|]. intros _.
    assert (Hdb :
      <[rid := apply_patch updates r]> (page_db p) !! rid
        = apply_patch updates <$> page_db p !! rid /\
      (forall x, x <> rid ->
         <[rid := apply_patch updates r]> (page_db p) !! x = page_db p !! x)).
    { rewrite lookup_insert_eq, Hr. split; [reflexivity|].
      intros x Hx. apply lookup_insert_ne. congruence. }
    destruct Hdb as [Hdb1 Hdb2].
    destruct (patch_status updates) as [st|] eqn:Hst.
    + destruct (List.find _ (requests p)) as [request|] eqn:Hfind.
      * unfold sendStatusUpdateNotification.
        destruct (email_reply sv (notification_of request st)) as [|e] eqn:He;
          unfold show; cbn [page_db requests emails page_toasts].
        -- split; [exact Hdb1|]. split; [exact Hdb2|]. split; [reflexivity|].
           split; [|intros [H|H]; discriminate H].
           intros st' request' [= <-] [= <-]. rewrite He, <- !app_assoc.
           split; reflexivity.
        -- split; [exact Hdb1|]. split; [exact Hdb2|]. split; [reflexivity|].
           split; [|intros [H|H]; discriminate H].
           intros st' request' [= <-] [= <-]. rewrite He, <- !app_assoc.
           split; reflexivity.
      * unfold show; cbn [page_db requests emails page_toasts].
        split; [exact Hdb1|]. split; [exact Hdb2|]. split; [reflexivity|].
        split; [intros st' request' _ H; discriminate H|].
        intros _. split; reflexivity.
    + unfold show; cbn [page_db requests emails page_toasts].
      split; [exact Hdb1|]. split; [exact Hdb2|]. split; [reflexivity|].
      split; [intros st' request' H; discriminate H|].
      intros _. split; reflexivity.
Qed.




End EditFacts.

(** * Facts about the calendar *)

Module CalendarFacts.

Import JS.

(** A check that holds along an iteration holds at every step of it. *)
Lemma iter_check (check : Z -> bool) (p : positive) (z0 : Z) (b : bool) :
  snd (Pos.iter (fun s => (fst s + 1, snd s && check (fst s))) (z0, b) p)
    = true ->
  fst (Pos.iter (fun s => (fst s + 1, snd s && check (fst s))) (z0, b) p)
    = z0 + Zpos p /\
  b = true /\ forall z, z0 <= z < z0 + Zpos p -> check z = true.
Proof.
  induction p as [|p IH] using Pos.peano_ind.
  - simpl. intros H. apply andb_true_iff in H as [Hb Hc].
    split; [reflexivity|]. split; [exact Hb|]. intros z Hz.
    replace z with z0 by lia. exact Hc.
  - rewrite Pos.iter_succ. simpl. intros H.
    apply andb_true_iff in H as [H Hc].
    destruct (IH H) as (Hfst & Hb & Hall). rewrite Hfst in *.
    split; [lia|]. split; [exact Hb|]. intros z Hz.
    destruct (Z.eq_dec z (z0 + Zpos p)) as [->|Hne]; [exact Hc|].
    apply Hall. lia.
Qed.

(** The days of one era of 400 years: the date of a day number gives back
    the day number, and has a month from 1 to 12. *)
Lemma era_round_trip z :
  -719468 <= z < -719468 + 146097 ->
  (let '(y, m, d) := civil_from_days z in
   (days_from_civil y m d =? z) && (1 <=? m) && (m <=? 12)) = true.
Proof.
  apply (iter_check
           (fun z => let '(y, m, d) := civil_from_days z in
                     (days_from_civil y m d =? z) && (1 <=? m) && (m <=? 12))
           146097 (-719468) true).
  vm_compute. reflexivity.
Qed.

(** The years of one era: the same date one year later is 365 or 366 days
    later. *)
Lemma era_year_span y :
  0 <= y < 400 ->
  forallb (fun m =>
             let n := days_from_civil (y + 1) m 1 - days_from_civil y m 1 in
             (n =? 365) || (n =? 366))
    [1; 2; 3; 4; 5; 6; 7; 8; 9; 10; 11; 12] = true.
Proof.
  intros Hy.
  apply (iter_check
           (fun y => forallb (fun m =>
              let n := days_from_civil (y + 1) m 1 - days_from_civil y m 1 in
              (n =? 365) || (n =? 366))
              [1; 2; 3; 4; 5; 6; 7; 8; 9; 10; 11; 12])
           400 0 true); [vm_compute; reflexivity|lia].
Qed.

Lemma civil_from_days_shift z k :
  civil_from_days (z + 146097 * k) =
    let '(y, m, d) := civil_from_days z in (y + 400 * k, m, d).
Proof.
  unfold civil_from_days.
  replace (z + 146097 * k + 719468) with (z + 719468 + k * 146097) by ring.
  rewrite Z.div_add by lia.
  replace (z + 719468 + k * 146097 - ((z + 719468) / 146097 + k) * 146097)
    with (z + 719468 - (z + 719468) / 146097 * 146097) by ring.
  cbv zeta.
  set (doe := z + 719468 - (z + 719468) / 146097 * 146097).
  set (yoe := (doe - doe / 1460 + doe / 36524 - doe / 146096) / 365).
  set (doy := doe - (365 * yoe + yoe / 4 - yoe / 100)).
  set (mp := (5 * doy + 2) / 153).
  set (m := if mp <? 10 then mp + 3 else mp - 9).
  set (era := (z + 719468) / 146097).
  replace (yoe + (era + k) * 400) with (yoe + era * 400 + 400 * k) by ring.
  replace (yoe + era * 400 + 400 * k + 1)
    with (yoe + era * 400 + 1 + 400 * k) by ring.
  destruct (m <=? 2); reflexivity.
Qed.

Lemma days_from_civil_shift y m d k :
  days_from_civil (y + 400 * k) m d = days_from_civil y m d + 146097 * k.
Proof.
  unfold days_from_civil.
  assert (H : (if m <=? 2 then y + 400 * k - 1 else y + 400 * k)
              = (if m <=? 2 then y - 1 else y) + k * 400).
  { destruct (m <=? 2); ring. }
  rewrite H. cbv zeta. rewrite Z.div_add by lia.
  set (y' := if m <=? 2 then y - 1 else y).
  replace (y' + k * 400 - (y' / 400 + k) * 400)
    with (y' - y' / 400 * 400) by ring.
  ring.
Qed.

Lemma days_from_civil_day y m d :
  days_from_civil y m d = days_from_civil y m 1 + d - 1.
Proof. unfold days_from_civil. cbv zeta. ring. Qed.

(** The date of a day number gives back the day number. *)
Lemma civil_round_trip z :
  let '(y, m, d) := civil_from_days z in
  days_from_civil y m d = z /\ 1 <= m <= 12.
Proof.
  set (k := (z + 719468) / 146097).
  assert (Hz : z = (z - 146097 * k) + 146097 * k) by ring.
  assert (Hrange : -719468 <= z - 146097 * k < -719468 + 146097).
  { pose proof (Z.mod_pos_bound (z + 719468) 146097 ltac:(lia)) as Hm.
    rewrite Z.mod_eq in Hm by lia. fold k in Hm. lia. }
  pose proof (era_round_trip _ Hrange) as Hera.
  clearbody k. remember (z - 146097 * k) as z0 eqn:Hz0. clear Hz0 Hrange.
  subst z. rewrite civil_from_days_shift.
  destruct (civil_from_days z0) as [[y m] d].
  apply andb_true_iff in Hera as [Hera H12].
  apply andb_true_iff in Hera as [Hera H1].
  rewrite days_from_civil_shift. lia.
Qed.

(** The same date one year later is 365 or 366 days later. *)
Lemma year_span y m d :
  1 <= m <= 12 ->
  365 <= days_from_civil (y + 1) m d - days_from_civil y m d <= 366.
Proof.
  intros Hm. rewrite (days_from_civil_day (y + 1)), (days_from_civil_day y).
  set (k := y / 400).
  assert (Hy : y = y mod 400 + 400 * k).
  { unfold k. rewrite Z.mod_eq by lia. ring. }
  pose proof (Z.mod_pos_bound y 400 ltac:(lia)) as Hmod.
  pose proof (era_year_span (y mod 400) Hmod) as Hspan.
  rewrite Hy.
  replace (y mod 400 + 400 * k + 1) with (y mod 400 + 1 + 400 * k) by ring.
  rewrite !days_from_civil_shift.
  rewrite forallb_forall in Hspan.
  assert (Hin : In m [1; 2; 3; 4; 5; 6; 7; 8; 9; 10; 11; 12]).
  { simpl. lia. }
  specialize (Hspan m Hin). cbv zeta in Hspan. lia.
Qed.

(** [MakeDay] on the date of a day number, some days and years on. *)
Lemma MakeDay_of_civil z n :
  let '(y, m, d) := civil_from_days z in
  MakeDay y (m - 1) (d + n) = z + n /\
  365 <= MakeDay (y + 1) (m - 1) d - z <= 366.
Proof.
  pose proof (civil_round_trip z) as H.
  destruct (civil_from_days z) as [[y m] d]. destruct H as [Hz Hm].
  unfold MakeDay.
  assert (Hdiv : (m - 1) / 12 = 0) by (apply Z.div_small; lia).
  assert (Hmod : (m - 1) mod 12 + 1 = m) by (rewrite Z.mod_small; lia).
  rewrite Hdiv, Hmod, !Z.add_0_r.
  pose proof (days_from_civil_day y m d).
  pose proof (days_from_civil_day (y + 1) m d).
  pose proof (year_span y m d Hm). lia.
Qed.

End CalendarFacts.

(** * Properties of the date bounds *)

Module DateFacts.

Import JS Validation.

(** A day a year ahead is 365 or 366 days ahead. *)
Lemma year_ahead_span z :
  365 <= year_ahead z <= 366 /\
  (let '(y, m, d) := civil_from_days z in
   MakeDay (y + 1) (m - 1) d = z + year_ahead z).
Proof.
  unfold year_ahead.
  pose proof (CalendarFacts.MakeDay_of_civil z 0) as H.
  destruct (civil_from_days z) as [[y m] d]. destruct H as [_ H].
  split; [exact H|ring].
Qed.

(** The local day and time of day of the host, within their bounds. *)
Lemma local_now_bounds h :
  clock_in_range h ->
  LocalTime (zone h) (now h)
    = local_today h * msPerDay + TimeWithinDay (LocalTime (zone h) (now h)) /\
  0 <= TimeWithinDay (LocalTime (zone h) (now h)) < msPerDay /\
  - 2 * msPerDay < local_today h * msPerDay < 8000000000000000 + msPerDay.
Proof.
  intros [Hnow Hz]. destruct (Hz (now h)) as [Hoa _].
  unfold local_today, TimeWithinDay, Day, LocalTime, msPerDay in *.
  set (oa := offset_at (zone h) (now h)) in *.
  pose proof (Z.div_mod (now h + oa) 86400000 ltac:(lia)) as Hdiv.
  pose proof (Z.mod_pos_bound (now h + oa) 86400000 ltac:(lia)) as Hmod.
  lia.
Qed.

(** The day of a local time given by its day and its time of day. *)
Lemma Day_MakeDate d t : 0 <= t < msPerDay -> Day (MakeDate d t) = d.
Proof.
  intros Ht. unfold Day, MakeDate, msPerDay in *.
  symmetry. apply (Z.div_unique _ _ _ t); lia.
Qed.

(** The clock one year from now, when the clock is in range: the instant
    of the same local date and time of day one year on. *)
Lemma addFullYear_value h :
  clock_in_range h ->
  addFullYear (zone h) (now h)
    = Some (UTC (zone h)
              (MakeDate (local_today h + year_ahead (local_today h))
                 (TimeWithinDay (LocalTime (zone h) (now h))))).
Proof.
  intros Hclock. destruct (local_now_bounds h Hclock) as (_ & Htod & Hday).
  destruct Hclock as [Hnow Hz]. unfold addFullYear. fold (local_today h).
  destruct (year_ahead_span (local_today h)) as [Hspan Hmake].
  destruct (civil_from_days (local_today h)) as [[y m] d]. rewrite Hmake.
  set (L := MakeDate _ _). destruct (Hz L) as [_ Hol].
  unfold TimeClip, UTC. subst L. unfold MakeDate, msPerDay in *.
  set (ol := offset_of_local (zone h) _) in *.
  set (span := year_ahead (local_today h)) in *.
  set (tod := TimeWithinDay _) in *.
  destruct (Z.leb_spec
              (Z.abs ((local_today h + span) * 86400000 + tod - ol))
              8640000000000000) as [_|Hbad]; [reflexivity|lia].
Qed.

(** The clock [n] days from now: the instant of the local date [n] days on
    and the same time of day. *)
Lemma addDays_value h n :
  clock_in_range h -> 0 <= n <= 1000 ->
  addDays (zone h) n (now h)
    = Some (UTC (zone h)
              (MakeDate (local_today h + n)
                 (TimeWithinDay (LocalTime (zone h) (now h))))).
Proof.
  intros Hclock Hn. destruct (local_now_bounds h Hclock) as (_ & Htod & Hday).
  destruct Hclock as [Hnow Hz]. unfold addDays. fold (local_today h).
  pose proof (CalendarFacts.MakeDay_of_civil (local_today h) n) as H.
  destruct (civil_from_days (local_today h)) as [[y m] d].
  destruct H as [-> _].
  set (L := MakeDate _ _). destruct (Hz L) as [_ Hol].
  unfold TimeClip, UTC. subst L. unfold MakeDate, msPerDay in *.
  set (ol := offset_of_local (zone h) _) in *.
  set (tod := TimeWithinDay _) in *.
  destruct (Z.leb_spec
              (Z.abs ((local_today h + n) * 86400000 + tod - ol))
              8640000000000000) as [_|Hbad]; [reflexivity|lia].
Qed.

(** A zone with daylight saving keeps the day when the hours its clocks
    skip, and those they are moved to, are hours of one day. *)
Lemma daylight_zone_keeps_day std dst periods :
  0 <= dst ->
  List.Forall (fun '(a, _) => Day (a + std) = Day (a + std + 2 * dst - 1))
    periods ->
  keeps_day (daylight_zone std dst periods).
Proof.
  intros Hdst Hgap L. unfold LocalTime, UTC. cbn [offset_at offset_of_local
    daylight_zone].
  destruct (in_periods periods (std + dst) L) eqn:Hl.
  - apply existsb_exists in Hl as ([a b] & Hin & Hab).
    assert (Hu : in_periods periods 0 (L - (std + dst)) = true).
    { apply existsb_exists. exists (a, b). split; [exact Hin|].
      apply andb_true_iff in Hab as [H1 H2].
      apply Z.leb_le in H1. apply Z.ltb_lt in H2.
      apply andb_true_iff. split; [apply Z.leb_le|apply Z.ltb_lt]; lia. }
    rewrite Hu. f_equal. lia.
  - destruct (in_periods periods 0 (L - std)) eqn:Hu; [|f_equal; lia].
    apply existsb_exists in Hu as ([a b] & Hin & Hab).
    assert (Hnot : (a + (std + dst) <=? L) && (L <? b + (std + dst)) = false).
    { apply not_true_iff_false. intros H.
      apply not_true_iff_false in Hl. apply Hl.
      apply existsb_exists. exists (a, b). split; [exact Hin|exact H]. }
    rewrite List.Forall_forall in Hgap. specialize (Hgap (a, b) Hin).
    cbn in Hgap.
    apply andb_true_iff in Hab as [H1 H2].
    apply Z.leb_le in H1. apply Z.ltb_lt in H2.
    apply andb_false_iff in Hnot as [H3|H3];
      [apply Z.leb_gt in H3|apply Z.ltb_ge in H3; lia].
    unfold Day, msPerDay in *.
    pose proof (Z.div_le_mono (a + std) L 86400000 ltac:(lia) ltac:(lia)).
    pose proof (Z.div_le_mono L (L - std + (std + dst)) 86400000
                  ltac:(lia) ltac:(lia)).
    pose proof (Z.div_le_mono (L - std + (std + dst)) (a + std + 2 * dst - 1)
                  86400000 ltac:(lia) ltac:(lia)).
    lia.
Qed.

Lemma fixed_zone_keeps_day tz : keeps_day (fixed_zone tz).
Proof. intros t. unfold LocalTime, UTC. simpl. f_equal. lia. Qed.

(** X27.  [getTomorrowISO] and [getTwoWeeksISO] give the UTC date of the
    instant of local midnight one day and fourteen days from now.  Where
    that midnight is read at or west of UTC this is the local date of
    tomorrow and of the day two weeks ahead; where it is read east of UTC,
    so that it is still the day before in UTC, it is the local date of
    today and of the day thirteen days ahead.  The offset is the one in
    force on that later day, not today's. *)
Theorem date_input_bounds_value (h : Host) :
  clock_in_range h -> keeps_day (zone h) ->
  let east n :=
    if 0 <? midnight_offset h (local_today h + n) then 1 else 0 in
  Submission.getTomorrowISO h
    = Some (toISOString_date ((local_today h + 1 - east 1) * msPerDay)) /\
  Submission.getTwoWeeksISO h
    = Some (toISOString_date ((local_today h + 14 - east 14) * msPerDay)).
Proof.
  intros Hclock Hkeep east.
  assert (Hgen : forall n, 0 <= n <= 1000 ->
    Submission.days_ahead_ISO h n
      = Some (toISOString_date ((local_today h + n - east n) * msPerDay))).
  { intros n Hn. unfold Submission.days_ahead_ISO.
    rewrite (addDays_value h n Hclock Hn).
    destruct (local_now_bounds h Hclock) as (_ & Htod & Hday).
    destruct Hclock as [Hnow Hz].
    unfold setHours0. rewrite Hkeep, (Day_MakeDate _ _ Htod).
    destruct (Hz (MakeDate (local_today h + n) 0)) as [_ Hol].
    subst east. cbn beta. unfold midnight_offset.
    unfold TimeClip, UTC.
    set (ol := offset_of_local (zone h) _) in *.
    unfold MakeDate, msPerDay in *.
    destruct (Z.leb_spec
                (Z.abs ((local_today h + n) * 86400000 + 0 - ol))
                8640000000000000) as [_|Hbad]; [|lia].
    f_equal. unfold toISOString_date, Day, msPerDay. f_equal.
    assert (Hd : ((local_today h + n) * 86400000 + 0 - ol) / 86400000
                 = local_today h + n - (if 0 <? ol then 1 else 0)).
    { destruct (Z.ltb_spec 0 ol) as [He|Hw].
      - symmetry. apply (Z.div_unique _ _ _ (86400000 - ol)); lia.
      - symmetry. apply (Z.div_unique _ _ _ (- ol)); lia. }
    rewrite Hd, Z.div_mul by lia. reflexivity. }
  unfold Submission.getTomorrowISO, Submission.getTwoWeeksISO.
  rewrite !Hgen by lia. split; reflexivity.
Qed.

(** The theorem on three hosts: on 2026-11-01, five hours west of UTC and
    two hours east of it; and in London on 2026-03-20, in winter time, where
    the day fourteen days ahead is in summer time, one hour east of UTC, so
    that the date is the one thirteen days ahead. *)
Lemma date_input_bounds_value_witness :
  Submission.getTomorrowISO (host_west (fun _ => None))
    = Some "2026-11-02"%string /\
  Submission.getTomorrowISO (host_east (fun _ => None))
    = Some "2026-11-01"%string /\
  Submission.getTomorrowISO (host_london (fun _ => None))
    = Some "2026-03-21"%string /\
  Submission.getTwoWeeksISO (host_london (fun _ => None))
    = Some "2026-04-02"%string.
Proof.
  split; [|split; [|split]].
  - rewrite (proj1 (date_input_bounds_value (host_west (fun _ => None))
               ltac:(split; [simpl; lia|];
                     apply ValidationFacts.fixed_zone_in_range;
                     unfold msPerDay; lia)
               ltac:(apply fixed_zone_keeps_day))).
    vm_compute. reflexivity.
  - rewrite (proj1 (date_input_bounds_value (host_east (fun _ => None))
               ltac:(split; [simpl; lia|];
                     apply ValidationFacts.fixed_zone_in_range;
                     unfold msPerDay; lia)
               ltac:(apply fixed_zone_keeps_day))).
    vm_compute. reflexivity.
  - rewrite (proj1 (date_input_bounds_value (host_london (fun _ => None))
               ltac:(split; [simpl; lia|];
                     apply ValidationFacts.daylight_zone_in_range;
                     unfold msPerDay; lia)
               ltac:(apply daylight_zone_keeps_day;
                     [lia|repeat constructor]))).
    vm_compute. reflexivity.
  - rewrite (proj2 (date_input_bounds_value (host_london (fun _ => None))
               ltac:(split; [simpl; lia|];
                     apply ValidationFacts.daylight_zone_in_range;
                     unfold msPerDay; lia)
               ltac:(apply daylight_zone_keeps_day;
                     [lia|repeat constructor]))).
    vm_compute. reflexivity.
Defined.

(** X28.  On a date-only text denoting the day [d], the pickup date rule
    of the customer request accepts exactly the days whose midnight UTC lies
    between two instants: local midnight of today, and the same local date
    and time of day as now one year on, 365 or 366 days later, each read
    at the offset in force on its own day.  So every day from tomorrow to
    364 days ahead is accepted, on every host, and every day more than 367
    days ahead is turned down with the message about one year. *)
Theorem pickup_date_window (h : Host) (s : string) (d : Z) :
  clock_in_range h ->
  parse_iso_date s = Some (MakeDate d 0) ->
  let span := year_ahead (local_today h) in
  let first := UTC (zone h) (MakeDate (local_today h) 0) in
  let last :=
    UTC (zone h)
      (MakeDate (local_today h + span)
         (TimeWithinDay (LocalTime (zone h) (now h)))) in
  365 <= span <= 366 /\
  (validateField (VStr s) (pickup_date_rule h) = valid <->
   first <= d * msPerDay <= last) /\
  (local_today h < d <= local_today h + 364 ->
   validateField (VStr s) (pickup_date_rule h) = valid) /\
  (local_today h + 367 < d ->
   validateField (VStr s) (pickup_date_rule h)
     = invalid "Pickup date cannot be more than 1 year in the future").
Proof.
  intros Hclock Hparse span first last.
  destruct (year_ahead_span (local_today h)) as [Hspan _]. fold span in Hspan.
  split; [exact Hspan|].
  destruct (ValidationFacts.parse_iso_date_nonempty s _ Hparse) as [Hne Htrim].
  assert (Hb : is_blank (VStr s) = false).
  { simpl. apply String.eqb_neq. exact Hne. }
  assert (Hfield : validateField (VStr s) (pickup_date_rule h) =
    match pickup_date_custom h (VStr s) with
    | Some e => if String.eqb e "" then valid else invalid e
    | None => valid
    end).
  { rewrite (FieldFacts.validateField_nonblank _ _ Hb).
    unfold check_required, check_minLength, check_maxLength, check_min,
      check_max, check_pattern, check_custom. simpl String_of.
    apply String.eqb_neq in Htrim.
    cbn [required minLength maxLength pattern min max custom truthy_bound
         pickup_date_rule].
    rewrite Htrim. cbn [andb first_error].
    destruct (pickup_date_custom h (VStr s)) as [e|]; [|reflexivity].
    destruct (String.eqb e ""); reflexivity. }
  assert (Hcustom : pickup_date_custom h (VStr s) =
    if d * msPerDay <? first
    then Some "Pickup date must be today or in the future"%string
    else if last <? d * msPerDay
    then Some "Pickup date cannot be more than 1 year in the future"%string
    else None).
  { unfold pickup_date_custom. cbn [host_parse Date_of]. unfold Date_parse.
    rewrite Hparse, (ValidationFacts.today_value h Hclock),
      (addFullYear_value h Hclock).
    subst first last span. unfold UTC, midnight_offset, MakeDate.
    rewrite !Z.add_0_r. reflexivity. }
  rewrite Hfield, Hcustom.
  destruct (local_now_bounds h Hclock) as (_ & Htod & _).
  destruct Hclock as [Hnow Hz].
  assert (Hfirst : local_today h * msPerDay - msPerDay < first
                   < local_today h * msPerDay + msPerDay).
  { subst first. unfold UTC.
    destruct (Hz (MakeDate (local_today h) 0)) as [_ Hol].
    unfold MakeDate in *. lia. }
  assert (Hlast : (local_today h + span) * msPerDay - msPerDay < last
                  < (local_today h + span) * msPerDay + 2 * msPerDay).
  { subst last. unfold UTC. set (L := MakeDate _ _).
    destruct (Hz L) as [_ Hol]. subst L. unfold MakeDate in *. lia. }
  clearbody first last span. unfold msPerDay in *.
  destruct (Z.ltb_spec (d * 86400000) first) as [Hlt|Hge].
  - cbn. split; [|split].
    + split; [discriminate|lia].
    + lia.
    + lia.
  - destruct (Z.ltb_spec last (d * 86400000)) as [Hlate|Hok].
    + cbn. split; [|split].
      * split; [discriminate|lia].
      * lia.
      * reflexivity.
    + split; [|split].
      * split; [lia|reflexivity].
      * reflexivity.
      * lia.
Qed.

(** The theorem on two hosts.  Five hours west of UTC on 2026-11-01, a
    pickup on 2027-10-31, 364 days ahead, is accepted.  In New York on
    2026-11-05 at 19:30, in standard time, the same time of day one year on
    is in daylight time, four hours west of UTC, and is 23:30 UTC of
    2027-11-05: a pickup on 2027-11-06 is turned down. *)
Lemma pickup_date_window_witness :
  validateField (VStr "2027-10-31")
    (pickup_date_rule (host_west (fun _ => None))) = valid /\
  validateField (VStr "2027-11-06")
    (pickup_date_rule (host_new_york (fun _ => None))) <> valid /\
  validateField (VStr "2027-11-06")
    (pickup_date_rule (host_new_york (fun _ => None)))
    = invalid "Pickup date cannot be more than 1 year in the future".
Proof.
  split; [|split].
  - destruct (pickup_date_window (host_west (fun _ => None)) "2027-10-31"
                21122
                ltac:(split; [simpl; lia|];
                      apply ValidationFacts.fixed_zone_in_range;
                      unfold msPerDay; lia)
                ltac:(vm_compute; reflexivity))
      as (_ & _ & Hin & _).
    apply Hin. vm_compute. split; [reflexivity|congruence].
  - destruct (pickup_date_window (host_new_york (fun _ => None))
                "2027-11-06" 21128
                ltac:(split; [simpl; lia|];
                      apply ValidationFacts.daylight_zone_in_range;
                      unfold msPerDay; lia)
                ltac:(vm_compute; reflexivity))
      as (_ & Hiff & _).
    intros H. apply Hiff in H. vm_compute in H. destruct H as [_ H].
    apply H. reflexivity.
  - vm_compute. reflexivity.
Defined.

End DateFacts.

(** * A price that is not a number *)

Module PriceFacts.

Import Pricing.
Local Open Scope float_scope.

Lemma mul_nan_r x y : is_nan y = true -> is_nan (x * y) = true.
Proof.
  rewrite !FloatFacts.is_nan_spec, mul_spec. unfold SF64mul, SFmul.
  destruct (Prim2SF y); try discriminate. intros _.
  destruct (Prim2SF x); reflexivity.
Qed.

Lemma add_nan_l x y : is_nan x = true -> is_nan (x + y) = true.
Proof.
  rewrite !FloatFacts.is_nan_spec, add_spec. unfold SF64add, SFadd.
  destruct (Prim2SF x); try discriminate. reflexivity.
Qed.

Lemma add_nan_r x y : is_nan y = true -> is_nan (x + y) = true.
Proof.
  rewrite !FloatFacts.is_nan_spec, add_spec. unfold SF64add, SFadd.
  destruct (Prim2SF y); try discriminate. intros _.
  destruct (Prim2SF x); reflexivity.
Qed.

Lemma sum_nan_acc l acc :
  is_nan acc = true -> is_nan (fold_left add l acc) = true.
Proof.
  revert acc. induction l as [|x l IH]; intros acc H; [exact H|].
  simpl. apply IH. apply add_nan_l. exact H.
Qed.

Lemma sum_nan l acc x :
  In x l -> is_nan x = true -> is_nan (fold_left add l acc) = true.
Proof.
  revert acc. induction l as [|y l IH]; intros acc Hin Hx; [inversion Hin|].
  simpl. destruct Hin as [->|Hin].
  - apply sum_nan_acc. apply add_nan_r. exact Hx.
  - apply IH; assumption.
Qed.

(** X29.  A price that is not a number spoils the total: if the unit price
    of any service of the catalog is [NaN] (its price text does not read as
    a number), the line total of that service is [NaN] whatever its
    quantity, also when the service is not selected, and so is the order
    total, which is then written as the text [NaN]. *)
Theorem malformed_price_spoils_total (items : list LaundryService)
  (quantities : ServiceQuantities) (s : LaundryService) :
  In s items -> is_nan (unit_price s) = true ->
  is_nan (line_total quantities s) = true /\
  is_nan (total items quantities) = true /\
  JS.toFixed2 (total items quantities) = "NaN"%string.
Proof.
  intros Hin Hnan.
  assert (Hline : is_nan (line_total quantities s) = true).
  { unfold line_total. apply mul_nan_r. exact Hnan. }
  assert (Htotal : is_nan (total items quantities) = true).
  { unfold total, lineTotals.
    apply (sum_nan _ _ (line_total quantities s)); [|exact Hline].
    apply in_map. exact Hin. }
  split; [exact Hline|]. split; [exact Htotal|].
  unfold JS.toFixed2. rewrite FloatFacts.is_nan_spec in Htotal.
  destruct (Prim2SF (total items quantities)); try discriminate.
  reflexivity.
Qed.

(** The theorem on a catalog with a price written with a comma, and an
    order that does not select that service. *)
Lemma malformed_price_spoils_total_witness :
  JS.toFixed2
    (total [wash_and_fold; Submission.sample_service "x" "1,50"]
       {[ "svc1"%string := 4 ]}) = "NaN"%string.
Proof.
  apply (malformed_price_spoils_total
           [wash_and_fold; Submission.sample_service "x" "1,50"]
           {[ "svc1"%string := 4 ]}
           (Submission.sample_service "x" "1,50")).
  - right. left. reflexivity.
  - vm_compute. reflexivity.
Defined.

End PriceFacts.
